(** * Relay Probe & Diagnostics Engine (src/lib/relay-debug.ts)

    A shallow embedding of the relay debugging toolkit.  The TypeScript code is
    asynchronous: every operation is a chain of callbacks run by the browser's
    event loop.  Each operation is embedded as a state machine whose states are
    the suspension points of the source ([await], pending timers, registered
    handlers) and whose inputs are the tasks the event loop runs, in order:
    the clock moving forward (which lets due timers fire), socket events, and
    the reply of the metadata fetch.  Promise continuations (microtasks) run to
    completion inside the task that settles the promise, as in JavaScript.

    Conventions.  Clock readings ([Date.now()], [performance.now()]) are
    integers in milliseconds on one clock.  The task [Advance dt] moves the
    clock forward by [dt] and runs the timers that are due by then: a timer
    never runs before its deadline, and no socket event is dispatched between
    the moment a timer is due and its callback.  A browser may run a timer
    later than that, after events that arrived in the meantime; for this
    reason no statement below bounds a measured latency by a timeout.  A
    numeric argument whose range matters ([timeout], [connectionCount]) is
    modelled with the conversion JavaScript applies to it.  A run is any
    sequence of tasks: the general statements
    below hold for every sequence, also for those no browser would produce
    (a frame after the socket closed, say).  The observers passed to
    [monitorRelay] are assumed not to throw.  [JSON.parse], [fetch] and the
    [WebSocket] constructor belong to the platform: their outcomes are
    inputs. *)

From Stdlib Require Import ZArith List String Ascii Bool Lia QArith DecimalString.
Import ListNotations.
Local Open Scope string_scope.
Local Open Scope list_scope.
Local Open Scope Z_scope.

(** ** JavaScript values as far as the toolkit inspects them *)

(** What [JSON.parse] and [response.json()] produce, plus [undefined] for
    absent properties.  Numbers are integers here: the code only compares a
    number with 1, 42 and 45 and tests its truthiness. *)
#[warnings="-register-all"]
Inductive jsval : Type :=
| JUndefined
| JNull
| JBool (b : bool)
| JNum (n : Z)
| JStr (s : string)
| JArr (items : list jsval)
| JObj (fields : list (string * jsval)).

(** A thrown value: [error instanceof Error] distinguishes the two cases. *)
Inductive thrown : Type :=
| Err (message : string)
| NotAnError.

(** [error instanceof Error ? error.message : 'Unknown error'] *)
Definition error_message (e : thrown) : string :=
  match e with
  | Err m => m
  | NotAnError => "Unknown error"
  end.

(** The state of a promise; [T] is the fulfilment value. *)
Inductive settled (T : Type) : Type :=
| Pending
| Fulfilled (v : T)
| Rejected (e : thrown).
Arguments Pending {T}.
Arguments Fulfilled {T} v.
Arguments Rejected {T} e.

(** ToBoolean *)
Definition truthy (v : jsval) : bool :=
  match v with
  | JUndefined | JNull => false
  | JBool b => b
  | JNum n => negb (n =? 0)
  | JStr s => negb (String.eqb s "")
  | JArr _ | JObj _ => true
  end.

(** [v === s] for a string [s] *)
Definition strict_eq_string (v : jsval) (s : string) : bool :=
  match v with
  | JStr s' => String.eqb s' s
  | _ => false
  end.

Fixpoint lookup_field (key : string) (fields : list (string * jsval)) : jsval :=
  match fields with
  | [] => JUndefined
  | (k, v) :: rest => if String.eqb k key then v else lookup_field key rest
  end.

Definition nat_key (i : nat) : string := NilZero.string_of_uint (Nat.to_uint i).

(** [v[i]]: [None] is the TypeError raised on [null] and [undefined]. *)
Definition js_index (v : jsval) (i : nat) : option jsval :=
  match v with
  | JUndefined | JNull => None
  | JBool _ | JNum _ => Some JUndefined
  | JStr s =>
      Some (match String.get i s with
            | Some c => JStr (String c EmptyString)
            | None => JUndefined
            end)
  | JArr items => Some (nth i items JUndefined)
  | JObj fields => Some (lookup_field (nat_key i) fields)
  end.

(** [v.key] for a key that no primitive, string or array defines. *)
Definition js_get (v : jsval) (key : string) : option jsval :=
  match v with
  | JUndefined | JNull => None
  | JObj fields => Some (lookup_field key fields)
  | _ => Some JUndefined
  end.

Definition is_number (n : Z) (v : jsval) : bool :=
  match v with
  | JNum m => m =? n
  | _ => false
  end.

Definition has_substring (needle s : string) : bool :=
  match String.index 0 needle s with
  | Some _ => true
  | None => false
  end.

(** [v.includes(n)] for a number [n]: defined on arrays and on strings (where
    the number is converted to its decimal text); on every other value
    [includes] is not a function and the call throws ([None]). *)
Definition js_includes (v : jsval) (n : nat) : option bool :=
  match v with
  | JArr items => Some (existsb (is_number (Z.of_nat n)) items)
  | JStr s => Some (has_substring (nat_key n) s)
  | _ => None
  end.

(** Numbers that come out of a division: a rational, or NaN / an infinity
    when the divisor is zero. *)
Inductive jsnum : Type :=
| Num (q : Q)
| NonFinite.

Definition js_div (a b : Z) : jsnum :=
  if b =? 0 then NonFinite else Num (inject_Z a / inject_Z b).

(** A number as a caller may pass it: a rational, NaN, or an infinity. *)
Inductive number : Type :=
| Finite (q : Q)
| NaN
| PosInfinity
| NegInfinity.

(** The integer part of a rational, towards zero. *)
Definition truncate (q : Q) : Z := Z.quot (Qnum q) (Z.pos (Qden q)).

(** ToLength, as [Array.from] applies it to the [length] property of its
    argument: NaN counts as 0, the fraction is dropped, and the outcome is
    kept between 0 and 2^53 - 1. *)
Definition ToLength (n : number) : Z :=
  match n with
  | Finite q => Z.min (Z.max (truncate q) 0) (2 ^ 53 - 1)
  | PosInfinity => 2 ^ 53 - 1
  | NaN | NegInfinity => 0
  end.

(** ** Tasks of the event loop *)

Inductive ws_event : Type :=
| Open
| Error
| Message (data : option jsval)
| Close.

Inductive json_body : Type :=
| Json (v : jsval)
| BadJson (e : thrown).

Inductive fetch_reply : Type :=
| FetchFailed (e : thrown)
| FetchResponse (status : Z) (body : json_body).

(** [Ws k e]: event [e] is dispatched on the [k]-th socket the operation
    constructed.  A [Message] carries the frame text as [JSON.parse] reads it
    ([None]: [JSON.parse] throws on it). *)
Inductive io : Type :=
| Ws (k : nat) (e : ws_event)
| FetchReply (r : fetch_reply).

(** [Advance dt]: the clock moves forward by [dt] milliseconds, after which
    every armed timer whose deadline has been reached runs. *)
Inductive task : Type :=
| Advance (dt : Z)
| Io (e : io).

(** ** WebSocket *)

Inductive ReadyState : Type := CONNECTING | OPEN | CLOSING | CLOSED.

Definition ReadyState_eqb (a b : ReadyState) : bool :=
  match a, b with
  | CONNECTING, CONNECTING | OPEN, OPEN | CLOSING, CLOSING | CLOSED, CLOSED => true
  | _, _ => false
  end.

Module WebSocket.
Record t : Type := mk {
  readyState : ReadyState;
  sentFrames : list jsval;   (* frames handed to the network, oldest first *)
  closeCalls : nat           (* how often close() was called *)
}.

Definition create : t := mk CONNECTING [] 0.

Definition set_readyState (r : ReadyState) (w : t) : t :=
  mk r (sentFrames w) (closeCalls w).

(** [send]: throws while CONNECTING, transmits while OPEN, discards after. *)
Definition send (frame : jsval) (w : t) : option t :=
  match readyState w with
  | CONNECTING => None
  | OPEN => Some (mk OPEN (sentFrames w ++ [frame]) (closeCalls w))
  | CLOSING | CLOSED => Some w
  end.

(** [close()]: starts the closing handshake unless already closing. *)
Definition close (w : t) : t :=
  mk (match readyState w with
      | CONNECTING | OPEN => CLOSING
      | r => r
      end)
     (sentFrames w) (S (closeCalls w)).

(** The session is closed or closing. *)
Definition released (w : t) : bool :=
  match readyState w with
  | CLOSING | CLOSED => true
  | _ => false
  end.
End WebSocket.

(** ** RelayConnection and its log *)

Inductive Status : Type := connected | disconnected | connecting | error.

Inductive LogType : Type := log_sent | log_received | log_error | log_info.

Inductive LogData : Type :=
| NoData
| ErrorEvent
| FrameData (data : option jsval).

Module RelayLog.
Record t : Type := mk {
  timestamp : Z;
  type : LogType;
  message : string;
  data : LogData
}.
End RelayLog.

Module RelayConnection.
Record t : Type := mk {
  url : string;
  websocket : option WebSocket.t;
  status : Status;
  messageCount : Z;
  errorCount : Z;
  lastActivity : Z;
  logs : list RelayLog.t
}.

Definition set_websocket (w : option WebSocket.t) (c : t) : t :=
  mk (url c) w (status c) (messageCount c) (errorCount c) (lastActivity c) (logs c).
Definition set_status (s : Status) (c : t) : t :=
  mk (url c) (websocket c) s (messageCount c) (errorCount c) (lastActivity c) (logs c).
Definition incr_messageCount (c : t) : t :=
  mk (url c) (websocket c) (status c) (messageCount c + 1) (errorCount c) (lastActivity c) (logs c).
Definition incr_errorCount (c : t) : t :=
  mk (url c) (websocket c) (status c) (messageCount c) (errorCount c + 1) (lastActivity c) (logs c).
Definition set_lastActivity (n : Z) (c : t) : t :=
  mk (url c) (websocket c) (status c) (messageCount c) (errorCount c) n (logs c).
Definition set_logs (l : list RelayLog.t) (c : t) : t :=
  mk (url c) (websocket c) (status c) (messageCount c) (errorCount c) (lastActivity c) l.
Definition push_log (l : RelayLog.t) (c : t) : t :=
  set_logs (logs c ++ [l]) c.

(** [connection.websocket?.close()] *)
Definition close_websocket (c : t) : t :=
  set_websocket (option_map WebSocket.close (websocket c)) c.
End RelayConnection.

Module RelayHealthCheck.
Record t : Type := mk {
  url : string;
  isHealthy : bool;
  latency : Z;
  supportsRead : bool;
  supportsWrite : bool;
  responseTime : Z;
  timestamp : Z;
  errorMessage : option string
}.

Definition set_isHealthy (b : bool) (r : t) : t :=
  mk (url r) b (latency r) (supportsRead r) (supportsWrite r) (responseTime r)
     (timestamp r) (errorMessage r).
Definition set_latency (n : Z) (r : t) : t :=
  mk (url r) (isHealthy r) n (supportsRead r) (supportsWrite r) (responseTime r)
     (timestamp r) (errorMessage r).
Definition set_supportsRead (b : bool) (r : t) : t :=
  mk (url r) (isHealthy r) (latency r) b (supportsWrite r) (responseTime r)
     (timestamp r) (errorMessage r).
Definition set_supportsWrite (b : bool) (r : t) : t :=
  mk (url r) (isHealthy r) (latency r) (supportsRead r) b (responseTime r)
     (timestamp r) (errorMessage r).
Definition set_responseTime (n : Z) (r : t) : t :=
  mk (url r) (isHealthy r) (latency r) (supportsRead r) (supportsWrite r) n
     (timestamp r) (errorMessage r).
Definition set_errorMessage (m : string) (r : t) : t :=
  mk (url r) (isHealthy r) (latency r) (supportsRead r) (supportsWrite r)
     (responseTime r) (timestamp r) (Some m).
End RelayHealthCheck.

Module NostrEvent.
Record t : Type := mk {
  id : string;
  pubkey : string;
  created_at : Z;
  kind : Z;
  tags : list (list string);
  content : string;
  sig : string
}.

(** The value [JSON.stringify] serialises. *)
Definition to_json (e : t) : jsval :=
  JObj [("id", JStr (id e)); ("pubkey", JStr (pubkey e));
        ("created_at", JNum (created_at e)); ("kind", JNum (kind e));
        ("tags", JArr (map (fun tag => JArr (map JStr tag)) (tags e)));
        ("content", JStr (content e)); ("sig", JStr (sig e))].
End NostrEvent.

Definition SignedEvent : Type := NostrEvent.t.

Module RelayPublishResult.
(** [success] and [message] hold whatever the relay's frame carried: the
    code assigns [response[2]] and [response[3] || 'Event published']
    without conversion. *)
Record t : Type := mk {
  relay : string;
  success : jsval;
  eventId : string;
  message : option jsval;
  timestamp : Z;
  latency : Z
}.

Definition set_success (v : jsval) (r : t) : t :=
  mk (relay r) v (eventId r) (message r) (timestamp r) (latency r).
Definition set_message (v : jsval) (r : t) : t :=
  mk (relay r) (success r) (eventId r) (Some v) (timestamp r) (latency r).
Definition set_latency (n : Z) (r : t) : t :=
  mk (relay r) (success r) (eventId r) (message r) (timestamp r) n.
End RelayPublishResult.

Module RelayInfo.
(** The fields [getRelayInfo] assigns ([latency] and [lastConnected] are
    never set). *)
Record t : Type := mk {
  url : string;
  status : Status;
  errorMessage : option string;
  supported_nips : jsval;
  software : jsval;
  version : jsval
}.
End RelayInfo.

Module RelayTestResult.
Record t : Type := mk {
  url : string;
  nip01Compliant : bool;
  supportsAuth : bool;
  supportsCount : bool;
  averageLatency : jsnum;
  successRate : jsnum;
  tested : Z
}.

Definition set_capabilities (nip01 auth count : bool) (r : t) : t :=
  mk (url r) nip01 auth count (averageLatency r) (successRate r) (tested r).
Definition set_statistics (n : Z) (rate average : jsnum) (r : t) : t :=
  mk (url r) (nip01Compliant r) (supportsAuth r) (supportsCount r) average rate n.
End RelayTestResult.

Module StressTestResult.
(** [totalConnections] holds [connectionCount] as the caller passed it. *)
Record t : Type := mk {
  url : string;
  totalConnections : number;
  successfulConnections : Z;
  failedConnections : Z;
  averageLatency : jsnum;
  duration : Z
}.
End StressTestResult.

(** [latencies.length > 0 ? latencies.reduce((a, b) => a + b, 0) / latencies.length : 0] *)
Definition average (latencies : list Z) : jsnum :=
  if 0 <? Z.of_nat (List.length latencies)
  then js_div (fold_left Z.add latencies 0) (Z.of_nat (List.length latencies))
  else Num 0.

(** ** Concurrent units *)

(** The tasks of the event loop while several units of work (one per relay,
    one per connection attempt) are in flight: the clock is shared, every
    other event belongs to one unit. *)
Inductive fan_task : Type :=
| Tick (dt : Z)
| At (i : nat) (e : io).

(** What unit [i] sees of a run. *)
Fixpoint project (i : nat) (tr : list fan_task) : list task :=
  match tr with
  | [] => []
  | Tick dt :: rest => Advance dt :: project i rest
  | At j e :: rest =>
      if Nat.eqb j i then Io e :: project i rest else project i rest
  end.

Fixpoint update_nth {A : Type} (i : nat) (f : A -> A) (l : list A) : list A :=
  match l, i with
  | [], _ => []
  | x :: rest, O => f x :: rest
  | x :: rest, S i' => x :: update_nth i' f rest
  end.

(** [l.map((x, i) => f(i, x))], counting from [i]. *)
Fixpoint map_from {A B : Type} (f : nat -> A -> B) (i : nat) (l : list A) : list B :=
  match l with
  | [] => []
  | x :: rest => f i x :: map_from f (S i) rest
  end.

Definition fan_step {S : Type} (step : S -> task -> S) (units : list S) (e : fan_task)
  : list S :=
  match e with
  | Tick dt => map (fun u => step u (Advance dt)) units
  | At i ev => update_nth i (fun u => step u (Io ev)) units
  end.

(** [Promise.all]: fulfilled with the values in the order of its argument
    once every promise is fulfilled, rejected as soon as one is. *)
Fixpoint Promise_all {T : Type} (promises : list (settled T)) : settled (list T) :=
  match promises with
  | [] => Fulfilled []
  | p :: rest =>
      match p, Promise_all rest with
      | Rejected e, _ => Rejected e
      | _, Rejected e => Rejected e
      | Fulfilled v, Fulfilled vs => Fulfilled (v :: vs)
      | _, _ => Pending
      end
  end.

(** How one connection attempt of the stress test touches the shared
    [latencies], [successCount] and [failCount]. *)
Inductive effect : Type :=
| NoEffect
| Succeeded (latency : Z)
| Failed.

(** Calls made on the observers of [monitorRelay], and the moment the
    cancellation handle returns. *)
Inductive observation : Type :=
| CalledOnLog (log : RelayLog.t)
| CalledOnStatusChange (status : Status)
| CancelReturned.

(** The tasks of a monitored session: the environment's, or the caller
    invoking the handle [monitorRelay] returned. *)
Inductive monitor_task : Type :=
| Env (e : task)
| Cancel.

Definition decimal (n : Z) : string := NilZero.string_of_int (Z.to_int n).

(** Messages of exceptions raised by the platform rather than by the code. *)
Definition InvalidStateError : thrown := Err "InvalidStateError".
Definition TypeError : thrown := Err "TypeError".
Definition RangeError : thrown := Err "Invalid array length".

(** ** Sample inputs *)

(** A browser whose [WebSocket] constructor accepts every address, and one
    that rejects every address. *)
Definition accepting (_ : string) : option thrown := None.
Definition refusing (_ : string) : option thrown := Some (Err "SyntaxError").

Definition sample_url : string := "wss://relay.example".

Definition sample_event : SignedEvent :=
  NostrEvent.mk "abc" "pubkey" 1700000000 1 [] "hello" "sig".

(** The frame ["OK", id, flag, message] arriving on the first socket. *)
Definition ack (id : string) (flag : jsval) (message : string) : task :=
  Io (Ws 0 (Message (Some (JArr [JStr "OK"; JStr id; flag; JStr message])))).

(** A relay that accepts the connection after 40 ms and then stays silent. *)
Definition silent_relay : list task :=
  [Advance 40; Io (Ws 0 Open); Advance 10000].

(** A relay that stores the event 150 ms after the connection opened. *)
Definition storing_relay : list task :=
  [Advance 50; Io (Ws 0 Open); Advance 150; ack "abc" (JBool true) "stored"].


(** Nothing listens at the address: the browser fires [error], then [close],
    30 ms after the attempt; a minute passes. *)
Definition refused_connection : list task :=
  [Advance 30; Io (Ws 0 Error); Io (Ws 0 Close); Advance 60000].

(** Two relays; the second opens and acknowledges before the first opens. *)
Definition second_relay_first : list fan_task :=
  [Tick 20; At 1 (Ws 0 Open); Tick 20;
   At 1 (Ws 0 (Message (Some (JArr [JStr "OK"; JStr "abc"; JBool true; JStr "stored"]))));
   Tick 20; At 0 (Ws 0 Open); Tick 10000].

(** A relay that does not answer: five seconds pass. *)
Definition unreachable : list task := [Advance 5000].

(** A relay that accepts the connection after 50 ms; one second passes. *)
Definition quick_open : list task := [Advance 50; Io (Ws 0 Open); Advance 1000].

(** Three connection attempts: the second opens after 30 ms, the first after
    60 ms, the third never does. *)
Definition mixed_attempts : list fan_task :=
  [Tick 30; At 1 (Ws 0 Open); Tick 30; At 0 (Ws 0 Open); Tick 5000].

Definition holds (i : nat) : Z := 250 * Z.of_nat i.

(** The metadata document [{"supported_nips": v, "software": "strfry"}]
    served with status 200. *)
Definition nips_reply (v : jsval) : task :=
  Io (FetchReply
        (FetchResponse 200
           (Json (JObj [("supported_nips", v); ("software", JStr "strfry")])))).

(** Metadata listing NIPs 1, 11 and 42; the first ping opens after 20 ms,
    the second times out, the third opens after 30 ms. *)
Definition three_pings : list task :=
  [nips_reply (JArr [JNum 1; JNum 11; JNum 42]);
   Advance 20; Io (Ws 0 Open); Advance 5000; Advance 30; Io (Ws 2 Open)].

(** The caller cancels the monitor as soon as the socket is open; the close
    handshake is still under way 100 ms later. *)
Definition cancel_after_open : list monitor_task :=
  [Env (Advance 40); Env (Io (Ws 0 Open)); Cancel; Env (Advance 100)].

(** The caller cancels the monitor before the socket has opened. *)
Definition cancel_before_open : list monitor_task :=
  [Cancel; Env (Advance 40); Env (Io (Ws 0 Open)); Env (Advance 100)].

(** A session with traffic: the socket opens after 40 ms, a frame arrives,
    then a socket error, a frame that does not parse, and the close. *)
Definition busy_relay : list task :=
  [Advance 40; Io (Ws 0 Open); Io (Ws 0 (Message (Some (JStr "hi"))));
   Io (Ws 0 Error); Io (Ws 0 (Message None)); Io (Ws 0 Close)].

(** [storing_relay] with a frame that does not parse and the acknowledgement
    of another event in between. *)
Definition noisy_relay : list task :=
  [Advance 50; Io (Ws 0 Open); Io (Ws 0 (Message None));
   ack "other" (JBool true) ""; Advance 150; ack "abc" (JBool true) "stored"].

(** The metadata request is answered with status 503; the first two pings
    open, the third times out. *)
Definition metadata_down : list task :=
  [Io (FetchReply (FetchResponse 503 (Json (JObj []))));
   Advance 20; Io (Ws 0 Open); Advance 30; Io (Ws 1 Open); Advance 5000].

(** Two relays compared: the metadata request of the second fails, the first
    serves [supported_nips] as a number; the three pings of the second
    open. *)
Definition two_relays_compared : list fan_task :=
  [At 1 (FetchReply (FetchFailed (Err "Failed to fetch")));
   At 0 (FetchReply (FetchResponse 200 (Json (JObj [("supported_nips", JNum 7)]))));
   Tick 20; At 1 (Ws 0 Open); At 1 (Ws 1 Open); At 1 (Ws 2 Open)].

(** A monitored session: the socket opens after 40 ms. *)
Definition session_opens : list monitor_task :=
  [Env (Advance 40); Env (Io (Ws 0 Open))].

(** What follows: a frame, a poll, a socket error, a frame that does not
    parse, the caller cancelling, another poll. *)
Definition session_traffic : list monitor_task :=
  [Env (Io (Ws 0 (Message (Some (JStr "a"))))); Env (Advance 100);
   Env (Io (Ws 0 Error)); Env (Io (Ws 0 (Message None))); Cancel;
   Env (Advance 100)].

(** What follows a close: a late frame, and half a second. *)
Definition session_after_close : list monitor_task :=
  [Env (Io (Ws 0 (Message (Some (JStr "late"))))); Env (Advance 500)].

(** A monitored session whose socket never opens. *)
Definition session_times_out : list monitor_task :=
  [Env (Advance 5000); Env (Io (Ws 0 Error)); Cancel; Env (Advance 200)].



(** A monitored session whose connection is refused; the caller cancels and
    a minute passes. *)
Definition session_refused : list monitor_task :=
  [Env (Advance 30); Env (Io (Ws 0 Error)); Env (Io (Ws 0 Close)); Cancel;
   Env (Advance 60000)].

Section Engine.

(** [new WebSocket(url)]: [Some e] when the constructor throws [e]
    synchronously (a malformed address), [None] when it returns a socket. *)
Variable new_WebSocket : string -> option thrown.

(** ** connectToRelay *)

(** The closure state of one [connectToRelay] call: the connection object the
    handlers mutate, the deadline of the armed timeout (if any), and the
    promise returned to the caller.  The promise is fulfilled with
    [connection] itself, so its value is not copied. *)
Record Connect : Type := mkConnect {
  connection : RelayConnection.t;
  timeoutId : option Z;
  promise : settled unit
}.

Definition resolve (c : Connect) : Connect :=
  match promise c with
  | Pending => mkConnect (connection c) (timeoutId c) (Fulfilled tt)
  | _ => c
  end.

Definition reject (e : thrown) (c : Connect) : Connect :=
  match promise c with
  | Pending => mkConnect (connection c) (timeoutId c) (Rejected e)
  | _ => c
  end.

Definition clearTimeout (c : Connect) : Connect :=
  mkConnect (connection c) None (promise c).

Definition on_connection (f : RelayConnection.t -> RelayConnection.t) (c : Connect)
  : Connect :=
  mkConnect (f (connection c)) (timeoutId c) (promise c).

Definition set_readyState (r : ReadyState) (k : RelayConnection.t) : RelayConnection.t :=
  RelayConnection.set_websocket
    (option_map (WebSocket.set_readyState r) (RelayConnection.websocket k)) k.

(** [ws.onopen] *)
Definition onopen (now : Z) (c : Connect) : Connect :=
  resolve
    (on_connection
       (fun k =>
          RelayConnection.push_log (RelayLog.mk now log_info "Connected to relay" NoData)
            (RelayConnection.set_lastActivity now
               (RelayConnection.set_status connected k)))
       (clearTimeout c)).

(** [ws.onerror]: clears the timeout and records the error; the promise is
    left as it is. *)
Definition onerror (now : Z) (c : Connect) : Connect :=
  on_connection
    (fun k =>
       RelayConnection.push_log (RelayLog.mk now log_error "WebSocket error" ErrorEvent)
         (RelayConnection.incr_errorCount
            (RelayConnection.set_status error k)))
    (clearTimeout c).

(** [ws.onmessage] *)
Definition onmessage (now : Z) (data : option jsval) (c : Connect) : Connect :=
  on_connection
    (fun k =>
       RelayConnection.push_log
         (RelayLog.mk now log_received "Message received" (FrameData data))
         (RelayConnection.set_lastActivity now
            (RelayConnection.incr_messageCount k)))
    c.

(** [ws.onclose] *)
Definition onclose (now : Z) (c : Connect) : Connect :=
  on_connection
    (fun k =>
       RelayConnection.push_log (RelayLog.mk now log_info "Connection closed" NoData)
         (RelayConnection.set_status disconnected k))
    c.

(** The [setTimeout] callback. *)
Definition ontimeout (now : Z) (c : Connect) : Connect :=
  match RelayConnection.websocket (connection c) with
  | Some ws =>
      if ReadyState_eqb (WebSocket.readyState ws) OPEN then c
      else
        reject (Err "Connection timeout")
          (on_connection
             (fun k =>
                RelayConnection.push_log
                  (RelayLog.mk now log_error "Connection timeout" NoData)
                  (RelayConnection.set_status error
                     (RelayConnection.close_websocket k)))
             c)
  | None => c
  end.

(** The delay [setTimeout(callback, delay)] arms.  A whole number of
    milliseconds from 1 to 2^31 - 1 is armed as given.  Any other delay is
    replaced by the platform: Node.js arms 1 ms, which is the rule followed
    here; a browser reduces the delay modulo 2^32 and arms 0 ms when the
    outcome is negative.  Statements that depend on where the deadline lies
    keep to the range on which the platforms agree. *)
Definition setTimeout_delay (delay : Z) : Z :=
  if (1 <=? delay) && (delay <=? 2147483647) then delay else 1.

(** [connectToRelay(url, timeout)] up to the point where it returns its
    promise, at clock [now]. *)
Definition connectToRelay (url : string) (timeout : Z) (now : Z) : Connect :=
  let connection :=
    RelayConnection.mk url None disconnected 0 0 now [] in
  match new_WebSocket url with
  | None =>
      mkConnect
        (RelayConnection.set_status connecting
           (RelayConnection.set_websocket (Some WebSocket.create) connection))
        (Some (now + setTimeout_delay timeout))
        Pending
  | Some e =>
      mkConnect
        (RelayConnection.push_log
           (RelayLog.mk now log_error ("Connection failed: " ++ error_message e)%string NoData)
           (RelayConnection.set_status error connection))
        None
        (Rejected e)
  end.

(** A socket event reaches the handlers [connectToRelay] installed.  The
    browser moves [readyState] to OPEN before it fires [open] and to CLOSED
    before it fires [close]. *)
Definition connect_dispatch (now : Z) (e : ws_event) (c : Connect) : Connect :=
  match RelayConnection.websocket (connection c) with
  | None => c
  | Some _ =>
      match e with
      | Open => onopen now (on_connection (set_readyState OPEN) c)
      | Error => onerror now c
      | Message data => onmessage now data c
      | Close => onclose now (on_connection (set_readyState CLOSED) c)
      end
  end.

(** The clock has reached [now]: the timeout runs if it is armed and due. *)
Definition connect_tick (now : Z) (c : Connect) : Connect :=
  match timeoutId c with
  | Some deadline =>
      if deadline <=? now then ontimeout now (clearTimeout c) else c
  | None => c
  end.

Definition with_websocket (w : WebSocket.t) (c : Connect) : Connect :=
  on_connection (RelayConnection.set_websocket (Some w)) c.

(** One task for a [connectToRelay] call on its own: the clock and the
    closure state. *)
Definition connect_step (s : Z * Connect) (e : task) : Z * Connect :=
  match e with
  | Advance dt => (fst s + dt, connect_tick (fst s + dt) (snd s))
  | Io (Ws O ev) => (fst s, connect_dispatch (fst s) ev (snd s))
  | Io _ => s
  end.

Definition connect_run (url : string) (timeout t0 : Z) (tr : list task) : Connect :=
  snd (fold_left connect_step tr (t0, connectToRelay url timeout t0)).

(** The entry [onopen] appends to the log. *)
Definition is_connected_entry (l : RelayLog.t) : bool :=
  match RelayLog.type l with
  | log_info => String.eqb (RelayLog.message l) "Connected to relay"
  | _ => false
  end.

(** ** healthCheckRelay *)

Inductive HealthPhase : Type :=
| HealthConnecting                           (* await connectToRelay(url, 5000) *)
| HealthReadTest (subId : string) (deadline : Z)  (* await the 1000 ms timer *)
| HealthStuck                                (* the timer callback threw before resolve() *)
| HealthReturned.

Record Health : Type := mkHealth {
  h_clock : Z;
  h_startTime : Z;
  h_conn : Connect;
  h_result : RelayHealthCheck.t;
  h_phase : HealthPhase
}.

(** The [catch] block followed by [return result]. *)
Definition health_catch (e : thrown) (h : Health) : Health :=
  mkHealth (h_clock h) (h_startTime h) (h_conn h)
    (RelayHealthCheck.set_errorMessage (error_message e) (h_result h))
    HealthReturned.

(** The code that follows [await connectToRelay(url, 5000)]. *)
Definition health_after_connect (h : Health) : Health :=
  match h_phase h, promise (h_conn h) with
  | HealthConnecting, Fulfilled _ =>
      let k := connection (h_conn h) in
      match RelayConnection.status k, RelayConnection.websocket k with
      | connected, Some ws =>
          let responseTime := h_clock h - h_startTime h in
          let r :=
            RelayHealthCheck.set_latency responseTime
              (RelayHealthCheck.set_responseTime responseTime
                 (RelayHealthCheck.set_isHealthy true (h_result h))) in
          let subId := ("health_check_" ++ decimal (h_clock h))%string in
          let subscription :=
            JArr [JStr "REQ"; JStr subId; JObj [("limit", JNum 1)]] in
          match WebSocket.send subscription ws with
          | Some ws' =>
              mkHealth (h_clock h) (h_startTime h)
                (with_websocket ws' (h_conn h))
                (RelayHealthCheck.set_supportsRead true r)
                (HealthReadTest subId (h_clock h + 1000))
          | None =>
              health_catch InvalidStateError
                (mkHealth (h_clock h) (h_startTime h) (h_conn h) r HealthConnecting)
          end
      | _, _ =>
          mkHealth (h_clock h) (h_startTime h) (h_conn h) (h_result h) HealthReturned
      end
  | HealthConnecting, Rejected e => health_catch e h
  | _, _ => h
  end.

(** The 1000 ms timer of the read test and the code after its promise. *)
Definition health_tick (h : Health) : Health :=
  match h_phase h with
  | HealthReadTest subId deadline =>
      if deadline <=? h_clock h then
        match RelayConnection.websocket (connection (h_conn h)) with
        | Some ws =>
            match WebSocket.send (JArr [JStr "CLOSE"; JStr subId]) ws with
            | Some ws' =>
                mkHealth (h_clock h) (h_startTime h)
                  (with_websocket (WebSocket.close ws') (h_conn h))
                  (RelayHealthCheck.set_supportsWrite true (h_result h))
                  HealthReturned
            | None =>
                mkHealth (h_clock h) (h_startTime h) (h_conn h) (h_result h) HealthStuck
            end
        | None =>
            mkHealth (h_clock h) (h_startTime h) (h_conn h) (h_result h) HealthStuck
        end
      else h
  | _ => h
  end.

Definition healthCheckRelay_start (url : string) (now : Z) : Health :=
  health_after_connect
    (mkHealth now now (connectToRelay url 5000 now)
       (RelayHealthCheck.mk url false 0 false false 0 now None)
       HealthConnecting).

(** One task of the event loop.  Once the operation has returned its state is
    frozen: what the socket does afterwards no longer concerns the result. *)
Definition health_step (h : Health) (e : task) : Health :=
  match h_phase h with
  | HealthReturned | HealthStuck => h
  | _ =>
      match e with
      | Advance dt =>
          let now := h_clock h + dt in
          health_tick
            (health_after_connect
               (mkHealth now (h_startTime h) (connect_tick now (h_conn h))
                  (h_result h) (h_phase h)))
      | Io (Ws O ev) =>
          health_after_connect
            (mkHealth (h_clock h) (h_startTime h)
               (connect_dispatch (h_clock h) ev (h_conn h))
               (h_result h) (h_phase h))
      | Io _ => h
      end
  end.

Definition health_run (url : string) (t0 : Z) (tr : list task) : Health :=
  fold_left health_step tr (healthCheckRelay_start url t0).

Definition health_outcome (h : Health) : settled RelayHealthCheck.t :=
  match h_phase h with
  | HealthReturned => Fulfilled (h_result h)
  | _ => Pending
  end.

(** The promise returned by [healthCheckRelay(url)] after the tasks [tr]. *)
Definition healthCheckRelay (url : string) (t0 : Z) (tr : list task)
  : settled RelayHealthCheck.t :=
  health_outcome (health_run url t0 tr).

(** ** pingRelay *)

Record Ping : Type := mkPing {
  pg_clock : Z;
  pg_startTime : Z;
  pg_conn : Connect;
  pg_outcome : settled Z
}.

(** The [catch] block: every failure is thrown again as [Ping failed: ...]. *)
Definition ping_catch (e : thrown) (p : Ping) : Ping :=
  mkPing (pg_clock p) (pg_startTime p) (pg_conn p)
    (Rejected (Err ("Ping failed: " ++ error_message e)%string)).

(** The code that follows [await connectToRelay(url, 5000)]. *)
Definition ping_after_connect (p : Ping) : Ping :=
  match pg_outcome p, promise (pg_conn p) with
  | Pending, Fulfilled _ =>
      match RelayConnection.status (connection (pg_conn p)) with
      | connected =>
          mkPing (pg_clock p) (pg_startTime p)
            (on_connection RelayConnection.close_websocket (pg_conn p))
            (Fulfilled (pg_clock p - pg_startTime p))
      | _ => ping_catch (Err "Failed to connect") p
      end
  | Pending, Rejected e => ping_catch e p
  | _, _ => p
  end.

Definition pingRelay_start (url : string) (now : Z) : Ping :=
  ping_after_connect (mkPing now now (connectToRelay url 5000 now) Pending).

(** One task; the ping's socket is the [k]-th of the enclosing operation. *)
Definition ping_step (k : nat) (p : Ping) (e : task) : Ping :=
  match pg_outcome p with
  | Pending =>
      match e with
      | Advance dt =>
          let now := pg_clock p + dt in
          ping_after_connect
            (mkPing now (pg_startTime p) (connect_tick now (pg_conn p)) Pending)
      | Io (Ws k' ev) =>
          if Nat.eqb k' k then
            ping_after_connect
              (mkPing (pg_clock p) (pg_startTime p)
                 (connect_dispatch (pg_clock p) ev (pg_conn p)) Pending)
          else p
      | Io _ => p
      end
  | _ => p
  end.

Definition ping_run (url : string) (t0 : Z) (tr : list task) : Ping :=
  fold_left (ping_step 0) tr (pingRelay_start url t0).

(** The promise returned by [pingRelay(url)] after the tasks [tr]. *)
Definition pingRelay (url : string) (t0 : Z) (tr : list task) : settled Z :=
  pg_outcome (ping_run url t0 tr).

(** ** publishEventToRelay *)

Inductive PublishPhase : Type :=
| PublishConnecting                 (* await connectToRelay(url) *)
| PublishAwaitingOK (deadline : Z)  (* messageHandler registered, 10 s timer armed *)
| PublishReturned.

Record Publish : Type := mkPublish {
  pb_clock : Z;
  pb_startTime : Z;
  pb_conn : Connect;
  pb_result : RelayPublishResult.t;
  pb_phase : PublishPhase
}.

(** The [catch] block followed by [return result]. *)
Definition publish_catch (e : thrown) (p : Publish) : Publish :=
  mkPublish (pb_clock p) (pb_startTime p) (pb_conn p)
    (RelayPublishResult.set_latency (pb_clock p - pb_startTime p)
       (RelayPublishResult.set_message (JStr (error_message e)) (pb_result p)))
    PublishReturned.

(** The code that follows [await connectToRelay(url)]. *)
Definition publish_after_connect (event : SignedEvent) (p : Publish) : Publish :=
  match pb_phase p, promise (pb_conn p) with
  | PublishConnecting, Fulfilled _ =>
      let k := connection (pb_conn p) in
      match RelayConnection.status k, RelayConnection.websocket k with
      | connected, Some ws =>
          let eventMessage := JArr [JStr "EVENT"; NostrEvent.to_json event] in
          match WebSocket.send eventMessage ws with
          | Some ws' =>
              mkPublish (pb_clock p) (pb_startTime p)
                (with_websocket ws' (pb_conn p)) (pb_result p)
                (PublishAwaitingOK (pb_clock p + 10000))
          | None => publish_catch InvalidStateError p
          end
      | _, _ => publish_catch (Err "Failed to connect to relay") p
      end
  | PublishConnecting, Rejected e => publish_catch e p
  | _, _ => p
  end.

(** [messageHandler] and, when it resolves, the code after the awaited
    promise: [connection.websocket.close()] and [return result].  A frame
    that does not parse, or whose indexing throws, is swallowed. *)
Definition messageHandler (event : SignedEvent) (data : option jsval) (p : Publish)
  : Publish :=
  match data with
  | Some response =>
      match js_index response 0, js_index response 1,
            js_index response 2, js_index response 3 with
      | Some r0, Some r1, Some r2, Some r3 =>
          if strict_eq_string r0 "OK" && strict_eq_string r1 (NostrEvent.id event)
          then
            mkPublish (pb_clock p) (pb_startTime p)
              (on_connection RelayConnection.close_websocket (pb_conn p))
              (RelayPublishResult.set_latency (pb_clock p - pb_startTime p)
                 (RelayPublishResult.set_message
                    (if truthy r3 then r3 else JStr "Event published")
                    (RelayPublishResult.set_success r2 (pb_result p))))
              PublishReturned
          else p
      | _, _, _, _ => p
      end
  | None => p
  end.

(** The 10 s timer: [reject(new Error('Publish timeout'))], caught. *)
Definition publish_tick (p : Publish) : Publish :=
  match pb_phase p with
  | PublishAwaitingOK deadline =>
      if deadline <=? pb_clock p then publish_catch (Err "Publish timeout") p else p
  | _ => p
  end.

Definition publishEventToRelay_start (url : string) (event : SignedEvent) (now : Z)
  : Publish :=
  publish_after_connect event
    (mkPublish now now (connectToRelay url 5000 now)
       (RelayPublishResult.mk url (JBool false) (NostrEvent.id event) None now 0)
       PublishConnecting).

Definition publish_step (event : SignedEvent) (p : Publish) (e : task) : Publish :=
  match pb_phase p with
  | PublishReturned => p
  | phase =>
      match e with
      | Advance dt =>
          let now := pb_clock p + dt in
          publish_tick
            (publish_after_connect event
               (mkPublish now (pb_startTime p) (connect_tick now (pb_conn p))
                  (pb_result p) phase))
      | Io (Ws O ev) =>
          let p' :=
            mkPublish (pb_clock p) (pb_startTime p)
              (connect_dispatch (pb_clock p) ev (pb_conn p)) (pb_result p) phase in
          match phase, ev with
          | PublishAwaitingOK _, Message data => messageHandler event data p'
          | _, _ => publish_after_connect event p'
          end
      | Io _ => p
      end
  end.

Definition publish_run (url : string) (event : SignedEvent) (t0 : Z) (tr : list task)
  : Publish :=
  fold_left (publish_step event) tr (publishEventToRelay_start url event t0).

Definition publish_outcome (p : Publish) : settled RelayPublishResult.t :=
  match pb_phase p with
  | PublishReturned => Fulfilled (pb_result p)
  | _ => Pending
  end.

(** The promise returned by [publishEventToRelay(url, event)] after [tr]. *)
Definition publishEventToRelay (url : string) (event : SignedEvent) (t0 : Z)
  (tr : list task) : settled RelayPublishResult.t :=
  publish_outcome (publish_run url event t0 tr).

(** ** getRelayInfo and testRelayCompliance *)

Definition info_error (url : string) (e : thrown) : RelayInfo.t :=
  RelayInfo.mk url error (Some (error_message e)) JUndefined JUndefined JUndefined.

(** [getRelayInfo(url)] given the reply of [fetch].  The address fetched is
    [url] with its scheme rewritten; the reply is the environment's. *)
Definition getRelayInfo (url : string) (reply : fetch_reply) : RelayInfo.t :=
  match reply with
  | FetchFailed e => info_error url e
  | FetchResponse status body =>
      if (200 <=? status) && (status <=? 299) then
        match body with
        | Json data =>
            match js_get data "supported_nips", js_get data "software",
                  js_get data "version" with
            | Some nips, Some software, Some version =>
                RelayInfo.mk url connected None nips software version
            | _, _, _ => info_error url TypeError
            end
        | BadJson e => info_error url e
        end
      else
        RelayInfo.mk url error (Some ("HTTP " ++ decimal status)%string)
          JUndefined JUndefined JUndefined
  end.

Inductive CompliancePhase : Type :=
| ComplianceFetching                          (* await getRelayInfo(url) *)
| CompliancePinging (i : nat) (ping : Ping)   (* await pingRelay(url), trial i *)
| ComplianceReturned.

Record Compliance : Type := mkCompliance {
  c_url : string;
  c_clock : Z;
  c_result : RelayTestResult.t;
  c_latencies : list Z;
  c_successCount : Z;
  c_trials : nat;              (* ghost: how many times pingRelay was called *)
  c_phase : CompliancePhase
}.

Definition testCount : Z := 3.

(** The statements after the loop, then [return result]. *)
Definition compliance_finish (c : Compliance) : Compliance :=
  mkCompliance (c_url c) (c_clock c)
    (RelayTestResult.set_statistics testCount
       (js_div (c_successCount c) testCount)
       (average (c_latencies c))
       (c_result c))
    (c_latencies c) (c_successCount c) (c_trials c) ComplianceReturned.

(** [for (let i = 0; i < testCount; i++)] entered at trial [i] with
    [remaining] iterations to go: calls [pingRelay] and suspends on it; a
    ping that is already settled lets the loop go on within the same task. *)
Fixpoint compliance_loop (remaining i : nat) (c : Compliance)
  : Compliance :=
  match remaining with
  | O => compliance_finish c
  | S remaining' =>
      let p := pingRelay_start (c_url c) (c_clock c) in
      match pg_outcome p with
      | Pending =>
          mkCompliance (c_url c) (c_clock c) (c_result c) (c_latencies c) (c_successCount c)
            (S (c_trials c)) (CompliancePinging i p)
      | Fulfilled latency =>
          compliance_loop remaining' (S i)
            (mkCompliance (c_url c) (c_clock c) (c_result c) (c_latencies c ++ [latency])
               (c_successCount c + 1) (S (c_trials c)) (c_phase c))
      | Rejected _ =>
          compliance_loop remaining' (S i)
            (mkCompliance (c_url c) (c_clock c) (c_result c) (c_latencies c)
               (c_successCount c) (S (c_trials c)) (c_phase c))
      end
  end.

(** The awaited ping of trial [i] has settled: the body of the loop, then the
    next iteration. *)
Definition compliance_after_ping (i : nat) (p : Ping) (c : Compliance)
  : Compliance :=
  match pg_outcome p with
  | Pending =>
      mkCompliance (c_url c) (c_clock c) (c_result c) (c_latencies c) (c_successCount c)
        (c_trials c) (CompliancePinging i p)
  | Fulfilled latency =>
      compliance_loop (Z.to_nat testCount - S i) (S i)
        (mkCompliance (c_url c) (c_clock c) (c_result c) (c_latencies c ++ [latency])
           (c_successCount c + 1) (c_trials c) (c_phase c))
  | Rejected _ =>
      compliance_loop (Z.to_nat testCount - S i) (S i) c
  end.

(** The code that follows [await getRelayInfo(url)].  When [supported_nips]
    is truthy but has no [includes] method the call throws, the outer
    [catch] swallows it and the initial [result] is returned. *)
Definition compliance_after_info (info : RelayInfo.t) (c : Compliance)
  : Compliance :=
  let nips := RelayInfo.supported_nips info in
  if truthy nips then
    match js_includes nips 1, js_includes nips 42, js_includes nips 45 with
    | Some nip01, Some auth, Some count =>
        compliance_loop (Z.to_nat testCount) 0
          (mkCompliance (c_url c) (c_clock c)
             (RelayTestResult.set_capabilities nip01 auth count (c_result c))
             (c_latencies c) (c_successCount c) (c_trials c) (c_phase c))
    | _, _, _ =>
        mkCompliance (c_url c) (c_clock c) (c_result c) (c_latencies c) (c_successCount c)
          (c_trials c) ComplianceReturned
    end
  else compliance_loop (Z.to_nat testCount) 0 c.

Definition testRelayCompliance_start (url : string) (now : Z) : Compliance :=
  mkCompliance url now
    (RelayTestResult.mk url false false false (Num 0) (Num 0) 0)
    [] 0 0%nat ComplianceFetching.

Definition compliance_step (c : Compliance) (e : task) : Compliance :=
  match c_phase c with
  | ComplianceFetching =>
      match e with
      | Advance dt =>
          mkCompliance (c_url c) (c_clock c + dt) (c_result c) (c_latencies c)
            (c_successCount c) (c_trials c) ComplianceFetching
      | Io (FetchReply reply) => compliance_after_info (getRelayInfo (c_url c) reply) c
      | Io _ => c
      end
  | CompliancePinging i p =>
      let clock :=
        match e with
        | Advance dt => c_clock c + dt
        | Io _ => c_clock c
        end in
      compliance_after_ping i (ping_step i p e)
        (mkCompliance (c_url c) clock (c_result c) (c_latencies c) (c_successCount c)
           (c_trials c) (c_phase c))
  | ComplianceReturned => c
  end.

Definition compliance_run (url : string) (t0 : Z) (tr : list task) : Compliance :=
  fold_left compliance_step tr (testRelayCompliance_start url t0).

Definition compliance_outcome (c : Compliance) : settled RelayTestResult.t :=
  match c_phase c with
  | ComplianceReturned => Fulfilled (c_result c)
  | _ => Pending
  end.

(** The promise returned by [testRelayCompliance(url)] after [tr]. *)
Definition testRelayCompliance (url : string) (t0 : Z) (tr : list task)
  : settled RelayTestResult.t :=
  compliance_outcome (compliance_run url t0 tr).

(** ** batchPublishToRelays and compareRelays *)

(** [urls.map(url => publishEventToRelay(url, event))]: every call runs up to
    its first [await] before the next one starts; afterwards the event loop
    interleaves their continuations. *)
Definition batch_run (urls : list string) (event : SignedEvent) (t0 : Z)
  (tr : list fan_task) : list Publish :=
  fold_left (fan_step (publish_step event)) tr
    (map (fun url => publishEventToRelay_start url event t0) urls).

Definition batchPublishToRelays (urls : list string) (event : SignedEvent) (t0 : Z)
  (tr : list fan_task) : settled (list RelayPublishResult.t) :=
  Promise_all (map publish_outcome (batch_run urls event t0 tr)).

Definition compare_run (urls : list string) (t0 : Z) (tr : list fan_task)
  : list Compliance :=
  fold_left (fan_step compliance_step) tr
    (map (fun url => testRelayCompliance_start url t0) urls).

Definition compareRelays (urls : list string) (t0 : Z) (tr : list fan_task)
  : settled (list RelayTestResult.t) :=
  Promise_all (map compliance_outcome (compare_run urls t0 tr)).

(** ** stressTestRelay *)

Inductive AttemptPhase : Type :=
| AttemptConnecting               (* await connectToRelay(url, 5000) *)
| AttemptHolding (deadline : Z)   (* await the random hold timer *)
| AttemptDone.

Record Attempt : Type := mkAttempt {
  a_connStartTime : Z;
  a_conn : Connect;
  a_phase : AttemptPhase
}.

Record Stress : Type := mkStress {
  s_clock : Z;
  s_startTime : Z;
  s_latencies : list Z;
  s_successCount : Z;
  s_failCount : Z;
  s_attempts : list Attempt
}.

(** The code that follows [await connectToRelay(url, 5000)] in one attempt;
    [hold] is the delay in milliseconds for which it arms its hold timer
    ([Math.random() * 1000] in the source). *)
Definition attempt_after_connect (now hold : Z) (a : Attempt) : Attempt * effect :=
  match a_phase a, promise (a_conn a) with
  | AttemptConnecting, Fulfilled _ =>
      match RelayConnection.status (connection (a_conn a)) with
      | connected =>
          (mkAttempt (a_connStartTime a) (a_conn a) (AttemptHolding (now + hold)),
           Succeeded (now - a_connStartTime a))
      | _ => (mkAttempt (a_connStartTime a) (a_conn a) AttemptDone, Failed)
      end
  | AttemptConnecting, Rejected _ =>
      (mkAttempt (a_connStartTime a) (a_conn a) AttemptDone, Failed)
  | _, _ => (a, NoEffect)
  end.

(** The hold timer: [connection.websocket?.close()] and the attempt ends. *)
Definition attempt_release (now : Z) (a : Attempt) : Attempt :=
  match a_phase a with
  | AttemptHolding deadline =>
      if deadline <=? now
      then mkAttempt (a_connStartTime a)
             (on_connection RelayConnection.close_websocket (a_conn a)) AttemptDone
      else a
  | _ => a
  end.

Definition attempt_tick (now hold : Z) (a : Attempt) : Attempt * effect :=
  match a_phase a with
  | AttemptDone => (a, NoEffect)
  | phase =>
      let (a', eff) :=
        attempt_after_connect now hold
          (mkAttempt (a_connStartTime a) (connect_tick now (a_conn a)) phase) in
      (attempt_release now a', eff)
  end.

Definition attempt_dispatch (now hold : Z) (ev : ws_event) (a : Attempt)
  : Attempt * effect :=
  match a_phase a with
  | AttemptDone => (a, NoEffect)
  | phase =>
      attempt_after_connect now hold
        (mkAttempt (a_connStartTime a) (connect_dispatch now ev (a_conn a)) phase)
  end.

(** [latencies.push(latency); successCount++] or [failCount++] *)
Definition apply_effect (eff : effect) (s : Stress) : Stress :=
  match eff with
  | NoEffect => s
  | Succeeded latency =>
      mkStress (s_clock s) (s_startTime s) (s_latencies s ++ [latency])
        (s_successCount s + 1) (s_failCount s) (s_attempts s)
  | Failed =>
      mkStress (s_clock s) (s_startTime s) (s_latencies s) (s_successCount s)
        (s_failCount s + 1) (s_attempts s)
  end.

Definition set_attempts (l : list Attempt) (s : Stress) : Stress :=
  mkStress (s_clock s) (s_startTime s) (s_latencies s) (s_successCount s)
    (s_failCount s) l.

Definition set_clock (now : Z) (s : Stress) : Stress :=
  mkStress now (s_startTime s) (s_latencies s) (s_successCount s)
    (s_failCount s) (s_attempts s).

(** Runs [f] on the attempts from index [i] on, in order, threading the
    shared counters. *)
Fixpoint each_attempt (f : nat -> Attempt -> Attempt * effect) (i : nat)
  (attempts : list Attempt) (s : Stress) : list Attempt * Stress :=
  match attempts with
  | [] => ([], s)
  | a :: rest =>
      let (a', eff) := f i a in
      let (rest', s') := each_attempt f (S i) rest (apply_effect eff s) in
      (a' :: rest', s')
  end.

Definition is_done (a : Attempt) : bool :=
  match a_phase a with
  | AttemptDone => true
  | _ => false
  end.

(** The number of elements of [Array.from({ length: connectionCount }, ...)],
    that is, of connection attempts. *)
Definition launched (connectionCount : number) : nat :=
  Z.to_nat (ToLength connectionCount).

(** [Array.from({ length: connectionCount }, async () => ...)]: the attempts
    start one after the other at the same clock reading. *)
Definition stressTestRelay_start (url : string) (connectionCount : number)
  (random : nat -> Z) (now : Z) : Stress :=
  let (attempts, s) :=
    each_attempt (fun i => attempt_after_connect now (random i)) 0
      (repeat (mkAttempt now (connectToRelay url 5000 now) AttemptConnecting)
         (launched connectionCount))
      (mkStress now now [] 0 0 []) in
  set_attempts attempts s.

(** One task.  Once every attempt has ended [Promise.all] is fulfilled and
    the function returns: the state is frozen. *)
Definition stress_step (random : nat -> Z) (s : Stress) (e : fan_task) : Stress :=
  if forallb is_done (s_attempts s) then s
  else
    match e with
    | Tick dt =>
        let now := s_clock s + dt in
        let (attempts, s') :=
          each_attempt (fun i => attempt_tick now (random i)) 0 (s_attempts s)
            (set_clock now s) in
        set_attempts attempts s'
    | At i (Ws O ev) =>
        let (attempts, s') :=
          each_attempt
            (fun j a =>
               if Nat.eqb j i then attempt_dispatch (s_clock s) (random j) ev a
               else (a, NoEffect))
            0 (s_attempts s) s in
        set_attempts attempts s'
    | At _ _ => s
    end.

Definition stress_run (url : string) (connectionCount : number) (random : nat -> Z)
  (t0 : Z) (tr : list fan_task) : Stress :=
  fold_left (stress_step random) tr
    (stressTestRelay_start url connectionCount random t0).

(** The promise returned by [stressTestRelay(url, connectionCount, duration)]
    after the tasks [tr]; [duration] is accepted and not read.  [Array.from]
    stands outside every [try]: when it refuses the length, with 2^32
    elements or more, its RangeError rejects the promise.  [random i] is the
    delay in milliseconds for which attempt [i] arms its hold timer. *)
Definition stressTestRelay (url : string) (connectionCount : number) (duration : Z)
  (random : nat -> Z) (t0 : Z) (tr : list fan_task) : settled StressTestResult.t :=
  if 2 ^ 32 <=? ToLength connectionCount then Rejected RangeError
  else
    let s := stress_run url connectionCount random t0 tr in
    if forallb is_done (s_attempts s) then
      Fulfilled
        (StressTestResult.mk url connectionCount (s_successCount s)
           (s_failCount s) (average (s_latencies s)) (s_clock s - s_startTime s))
    else Pending.

(** ** monitorRelay *)

Inductive MonitorPhase : Type :=
| MonitorConnecting   (* neither the [then] nor the [catch] callback has run *)
| MonitorWatching     (* [then] ran: [connection] is assigned *)
| MonitorFailed.      (* [catch] ran: [connection] stays null *)

Record Monitor : Type := mkMonitor {
  m_clock : Z;
  m_conn : Connect;
  m_phase : MonitorPhase;
  m_checkLogs : option Z;       (* next deadline of the 100 ms interval *)
  m_calls : list observation    (* oldest first *)
}.

Definition observe (o : list observation) (m : Monitor) : Monitor :=
  mkMonitor (m_clock m) (m_conn m) (m_phase m) (m_checkLogs m) (m_calls m ++ o).

(** [error.message] of whatever was thrown. *)
Definition message_of (e : thrown) : string :=
  match e with
  | Err m => m
  | NotAnError => "undefined"
  end.

(** The [then] and [catch] callbacks chained on [connectToRelay(url)].  The
    function [then] returns, which would clear the interval and close the
    socket, becomes the value of a promise nobody reads. *)
Definition monitor_after_connect (m : Monitor) : Monitor :=
  match m_phase m, promise (m_conn m) with
  | MonitorConnecting, Fulfilled _ =>
      mkMonitor (m_clock m) (m_conn m) MonitorWatching (Some (m_clock m + 100))
        (m_calls m
         ++ [CalledOnStatusChange (RelayConnection.status (connection (m_conn m)))])
  | MonitorConnecting, Rejected e =>
      mkMonitor (m_clock m) (m_conn m) MonitorFailed (m_checkLogs m)
        (m_calls m
         ++ [CalledOnStatusChange error;
             CalledOnLog (RelayLog.mk (m_clock m) log_error (message_of e) NoData)])
  | _, _ => m
  end.

(** The [setInterval] callback: [connection.logs.splice(0)] handed to
    [onLog] entry by entry. *)
Definition checkLogs (m : Monitor) : Monitor :=
  match m_checkLogs m with
  | Some deadline =>
      if deadline <=? m_clock m then
        let logs := RelayConnection.logs (connection (m_conn m)) in
        mkMonitor (m_clock m)
          (on_connection (RelayConnection.set_logs []) (m_conn m))
          (m_phase m) (Some (m_clock m + 100))
          (m_calls m ++ map CalledOnLog logs)
      else m
  | None => m
  end.

(** Socket events once [then] has replaced [onclose] and [onerror]; [onopen]
    and [onmessage] are still those of [connectToRelay]. *)
Definition watching_dispatch (ev : ws_event) (m : Monitor) : Monitor :=
  match ev with
  | Close =>
      mkMonitor (m_clock m) (on_connection (set_readyState CLOSED) (m_conn m))
        (m_phase m) None (m_calls m ++ [CalledOnStatusChange disconnected])
  | Error => observe [CalledOnStatusChange error] m
  | _ =>
      mkMonitor (m_clock m) (connect_dispatch (m_clock m) ev (m_conn m))
        (m_phase m) (m_checkLogs m) (m_calls m)
  end.

Definition monitorRelay_start (url : string) (now : Z) : Monitor :=
  monitor_after_connect
    (mkMonitor now (connectToRelay url 5000 now) MonitorConnecting None []).

(** The handle [monitorRelay] returns: [connection?.websocket?.close()]. *)
Definition cancel (m : Monitor) : Monitor :=
  observe [CancelReturned]
    match m_phase m with
    | MonitorWatching =>
        mkMonitor (m_clock m)
          (on_connection RelayConnection.close_websocket (m_conn m))
          (m_phase m) (m_checkLogs m) (m_calls m)
    | _ => m
    end.

Definition monitor_step (m : Monitor) (e : monitor_task) : Monitor :=
  match e with
  | Cancel => cancel m
  | Env (Advance dt) =>
      let now := m_clock m + dt in
      checkLogs
        (monitor_after_connect
           (mkMonitor now (connect_tick now (m_conn m)) (m_phase m)
              (m_checkLogs m) (m_calls m)))
  | Env (Io (Ws O ev)) =>
      match m_phase m with
      | MonitorWatching => watching_dispatch ev m
      | _ =>
          monitor_after_connect
            (mkMonitor (m_clock m) (connect_dispatch (m_clock m) ev (m_conn m))
               (m_phase m) (m_checkLogs m) (m_calls m))
      end
  | Env (Io _) => m
  end.

(** [monitorRelay(url, onLog, onStatusChange)] followed by the tasks [tr]. *)
Definition monitorRelay (url : string) (t0 : Z) (tr : list monitor_task) : Monitor :=
  fold_left monitor_step tr (monitorRelay_start url t0).

(** ** The publish protocol as the specification words it *)

(** Opening a session is a race between the [open] event and the timeout;
    a socket error may come before either. *)
Inductive raced : Type :=
| StillConnecting
| ErrorFirst
| TimedOut (clock : Z)
| Opened (clock : Z) (rest : list task).

Fixpoint connect_race (deadline now : Z) (tr : list task) : raced :=
  match tr with
  | [] => StillConnecting
  | Advance dt :: rest =>
      if deadline <=? now + dt then TimedOut (now + dt)
      else connect_race deadline (now + dt) rest
  | Io (Ws O Open) :: rest => Opened now rest
  | Io (Ws O Error) :: _ => ErrorFirst
  | _ :: rest => connect_race deadline now rest
  end.

(** An acknowledgement frame ["OK", id, flag, message] for the payload [id]. *)
Definition is_ack (id : string) (frame : jsval) : bool :=
  match js_index frame 0, js_index frame 1 with
  | Some tag, Some frame_id => strict_eq_string tag "OK" && strict_eq_string frame_id id
  | _, _ => false
  end.

Definition field (frame : jsval) (i : nat) : jsval :=
  match js_index frame i with
  | Some v => v
  | None => JUndefined
  end.

(** The event that decides a publish, with the clock reading at which it
    happens. *)
Inductive decision : Type :=
| ConnectFailed (reason : string) (clock : Z)
| Acknowledged (flag message : jsval) (clock : Z)
| PublishTimeout (clock : Z).


(** After the publish frame was sent: the first acknowledgement for [id]
    races the 10-second timer; every other frame is ignored. *)
Fixpoint first_ack (id : string) (deadline now : Z) (tr : list task) : option decision :=
  match tr with
  | [] => None
  | Advance dt :: rest =>
      if deadline <=? now + dt then Some (PublishTimeout (now + dt))
      else first_ack id deadline (now + dt) rest
  | Io (Ws O (Message (Some frame))) :: rest =>
      if is_ack id frame then Some (Acknowledged (field frame 2) (field frame 3) now)
      else first_ack id deadline now rest
  | _ :: rest => first_ack id deadline now rest
  end.

Definition decide (url : string) (event : SignedEvent) (t0 : Z) (tr : list task)
  : option decision :=
  match new_WebSocket url with
  | Some e => Some (ConnectFailed (error_message e) t0)
  | None =>
      match connect_race (t0 + 5000) t0 tr with
      | StillConnecting | ErrorFirst => None
      | TimedOut t => Some (ConnectFailed "Connection timeout" t)
      | Opened t rest => first_ack (NostrEvent.id event) (t + 10000) t rest
      end
  end.

(** The result a decision stands for. *)
Definition result_of (url : string) (event : SignedEvent) (t0 : Z) (d : decision)
  : RelayPublishResult.t :=
  match d with
  | ConnectFailed reason t =>
      RelayPublishResult.mk url (JBool false) (NostrEvent.id event)
        (Some (JStr reason)) t0 (t - t0)
  | Acknowledged flag message t =>
      RelayPublishResult.mk url flag (NostrEvent.id event)
        (Some (if truthy message then message else JStr "Event published")) t0 (t - t0)
  | PublishTimeout t =>
      RelayPublishResult.mk url (JBool false) (NostrEvent.id event)
        (Some (JStr "Publish timeout")) t0 (t - t0)
  end.



(** ** The health check as the specification words it *)

(** The read test waits for its timer whatever the relay sends. *)
Fixpoint timer_fires (deadline now : Z) (tr : list task) : bool :=
  match tr with
  | [] => false
  | Advance dt :: rest =>
      (deadline <=? now + dt) || timer_fires deadline (now + dt) rest
  | _ :: rest => timer_fires deadline now rest
  end.

Definition unhealthy (url : string) (t0 : Z) (reason : string) : RelayHealthCheck.t :=
  RelayHealthCheck.mk url false 0 false false 0 t0 (Some reason).

Definition healthy (url : string) (t0 latency : Z) : RelayHealthCheck.t :=
  RelayHealthCheck.mk url true latency true true latency t0 None.

Definition health_decided (url : string) (t0 : Z) (tr : list task)
  : settled RelayHealthCheck.t :=
  match new_WebSocket url with
  | Some e => Fulfilled (unhealthy url t0 (error_message e))
  | None =>
      match connect_race (t0 + 5000) t0 tr with
      | StillConnecting | ErrorFirst => Pending
      | TimedOut _ => Fulfilled (unhealthy url t0 "Connection timeout")
      | Opened t rest =>
          if timer_fires (t + 1000) t rest
          then Fulfilled (healthy url t0 (t - t0))
          else Pending
      end
  end.

(** The session of a closure state is closed or closing, or was never made. *)
Definition session_released (c : Connect) : Prop :=
  match RelayConnection.websocket (connection c) with
  | Some ws => WebSocket.released ws = true
  | None => True
  end.

(** How a run of the health check ends: its promise, and the session
    released once it has returned. *)
Definition health_ends (h : Health) (expected : settled RelayHealthCheck.t) : Prop :=
  health_outcome h = expected
  /\ (h_phase h = HealthReturned -> session_released (h_conn h)).

(** ** Predicates used in the statements *)

(** The reply [fetch] gave, if the run contains one. *)
Fixpoint first_reply (tr : list task) : option fetch_reply :=
  match tr with
  | [] => None
  | Io (FetchReply reply) :: _ => Some reply
  | _ :: rest => first_reply rest
  end.

(** [supported_nips] can be asked what it includes: it is falsy, so that
    nothing is asked, or it is an array or a string. *)
Definition answers_includes (nips : jsval) : bool :=
  negb (truthy nips)
  || match nips with
     | JArr _ | JStr _ => true
     | _ => false
     end.

(** The result [testRelayCompliance] starts from. *)
Definition untested (url : string) : RelayTestResult.t :=
  RelayTestResult.mk url false false false (Num 0) (Num 0) 0.

(** The state of a compliance test that got past the metadata. *)
Definition compliance_measured (c : Compliance) : Prop :=
  c_successCount c = Z.of_nat (List.length (c_latencies c))
  /\ match c_phase c with
     | ComplianceFetching => False
     | CompliancePinging i p =>
         c_trials c = Datatypes.S i
         /\ (i < 3)%nat
         /\ (List.length (c_latencies c) <= i)%nat
         /\ pg_outcome p = Pending
     | ComplianceReturned =>
         c_trials c = 3%nat
         /\ (List.length (c_latencies c) <= 3)%nat
         /\ RelayTestResult.tested (c_result c) = 3
         /\ RelayTestResult.successRate (c_result c) = js_div (c_successCount c) 3
         /\ RelayTestResult.averageLatency (c_result c) = average (c_latencies c)
     end.

Definition is_connecting (a : Attempt) : bool :=
  match a_phase a with
  | AttemptConnecting => true
  | _ => false
  end.

(** Attempts still waiting for their connection. *)
Definition connecting_count (attempts : list Attempt) : Z :=
  Z.of_nat (List.length (filter is_connecting attempts)).

(** What the shared counters of the stress test satisfy between two tasks:
    every attempt that is no longer connecting was counted once, and every
    success left one latency sample. *)
Definition stress_inv (n : nat) (s : Stress) : Prop :=
  connecting_count (s_attempts s) + s_successCount s + s_failCount s = Z.of_nat n
  /\ Z.of_nat (List.length (s_latencies s)) = s_successCount s.

(** The change an effect makes to [successCount + failCount]. *)
Definition counted (eff : effect) : Z :=
  match eff with
  | NoEffect => 0
  | Succeeded _ | Failed => 1
  end.

(** The arithmetic mean of a list of samples. *)
Definition mean (samples : list Z) : Q :=
  inject_Z (fold_right Z.add 0 samples) / inject_Z (Z.of_nat (List.length samples)).

(** What holds of the closure state right after [onopen] ran. *)
Definition handed_over (c : Connect) : Prop :=
  RelayConnection.status (connection c) = connected
  /\ (exists ws, RelayConnection.websocket (connection c) = Some ws
                 /\ WebSocket.readyState ws = OPEN)
  /\ existsb is_connected_entry (RelayConnection.logs (connection c)) = true.

(** What [healthCheckRelay] maintains between two tasks. *)
Definition health_inv (h : Health) : Prop :=
  let r := h_result h in
  match h_phase h with
  | HealthConnecting =>
      promise (h_conn h) = Pending
      /\ RelayHealthCheck.isHealthy r = false
      /\ RelayHealthCheck.errorMessage r = None
  | HealthReadTest _ _ =>
      RelayHealthCheck.isHealthy r = true
      /\ RelayHealthCheck.errorMessage r = None
      /\ exists ws, RelayConnection.websocket (connection (h_conn h)) = Some ws
                    /\ WebSocket.readyState ws <> CONNECTING
  | HealthStuck => False
  | HealthReturned =>
      RelayHealthCheck.errorMessage r <> None <-> RelayHealthCheck.isHealthy r = false
  end.

(** The result a decision leaves in [result]. *)
Definition settle (r : RelayPublishResult.t) (startTime : Z) (d : decision)
  : RelayPublishResult.t :=
  match d with
  | ConnectFailed reason t =>
      RelayPublishResult.set_latency (t - startTime)
        (RelayPublishResult.set_message (JStr reason) r)
  | Acknowledged flag message t =>
      RelayPublishResult.set_latency (t - startTime)
        (RelayPublishResult.set_message
           (if truthy message then message else JStr "Event published")
           (RelayPublishResult.set_success flag r))
  | PublishTimeout t =>
      RelayPublishResult.set_latency (t - startTime)
        (RelayPublishResult.set_message (JStr "Publish timeout") r)
  end.

(** The connection attempt is still open: nothing settled the promise, the
    timeout is armed and the socket has not opened. *)
Definition still_connecting (deadline : Z) (c : Connect) : Prop :=
  promise c = Pending
  /\ timeoutId c = Some deadline
  /\ exists ws, RelayConnection.websocket (connection c) = Some ws
                /\ WebSocket.readyState ws <> OPEN.

(** Where a compliance test stands after the tasks [tr], depending on the
    metadata the relay served. *)
Definition after_metadata (url : string) (initial : RelayTestResult.t)
  (tr : list task) (c : Compliance) : Prop :=
  match first_reply tr with
  | None => c_phase c = ComplianceFetching
  | Some reply =>
      if answers_includes (RelayInfo.supported_nips (getRelayInfo url reply))
      then compliance_measured c
      else c_phase c = ComplianceReturned
           /\ c_result c = initial /\ c_trials c = 0%nat /\ c_latencies c = []
  end.

(** ** Counting the tasks of a run *)

Definition on_first_socket (e : task) : bool :=
  match e with
  | Io (Ws O _) => true
  | _ => false
  end.

Definition is_message_event (e : task) : bool :=
  match e with
  | Io (Ws O (Message _)) => true
  | _ => false
  end.

Definition is_error_event (e : task) : bool :=
  match e with
  | Io (Ws O Error) => true
  | _ => false
  end.

Definition is_open_event (e : task) : bool :=
  match e with
  | Io (Ws O Open) => true
  | _ => false
  end.

Definition occurrences (f : task -> bool) (tr : list task) : Z :=
  Z.of_nat (List.length (filter f tr)).

(** 1 when the promise of a connection attempt was rejected. *)
Definition rejections (c : Connect) : Z :=
  match promise c with
  | Rejected _ => 1
  | _ => 0
  end.

(** A connection attempt whose socket was constructed: while its timeout is
    armed nothing has settled the promise and the socket has not opened. *)
Definition constructed (c : Connect) : Prop :=
  (exists ws, RelayConnection.websocket (connection c) = Some ws)
  /\ (timeoutId c <> None ->
      promise c = Pending
      /\ forall ws, RelayConnection.websocket (connection c) = Some ws ->
                    WebSocket.readyState ws <> OPEN).

(** What two closure states of one connection attempt have in common with
    the tasks that lie between them. *)
Definition audited (c c' : Connect) (tr : list task) : Prop :=
  RelayConnection.messageCount (connection c')
  = RelayConnection.messageCount (connection c) + occurrences is_message_event tr
  /\ RelayConnection.errorCount (connection c')
     = RelayConnection.errorCount (connection c) + occurrences is_error_event tr
  /\ Z.of_nat (List.length (RelayConnection.logs (connection c'))) + rejections c
     = Z.of_nat (List.length (RelayConnection.logs (connection c)))
       + occurrences on_first_socket tr + rejections c'.

(** A connection attempt after [onerror] came first: the promise is still
    pending and no timeout is armed any more. *)
Definition stalled (c : Connect) : Prop :=
  promise c = Pending /\ timeoutId c = None.

(** The socket never opens during the run. *)
Definition never_opens (tr : list task) : Prop :=
  existsb is_open_event tr = false.

(** How the capability fields of a health check go together. *)
Definition capabilities_follow_health (r : RelayHealthCheck.t) : Prop :=
  RelayHealthCheck.supportsRead r = RelayHealthCheck.isHealthy r
  /\ RelayHealthCheck.supportsWrite r = RelayHealthCheck.isHealthy r
  /\ RelayHealthCheck.latency r = RelayHealthCheck.responseTime r
  /\ (RelayHealthCheck.isHealthy r = false -> RelayHealthCheck.latency r = 0).

(** What the result of a health check looks like between two tasks. *)
Definition health_caps (h : Health) : Prop :=
  let r := h_result h in
  match h_phase h with
  | HealthConnecting =>
      RelayHealthCheck.isHealthy r = false
      /\ RelayHealthCheck.supportsRead r = false
      /\ RelayHealthCheck.supportsWrite r = false
      /\ RelayHealthCheck.latency r = 0
      /\ RelayHealthCheck.responseTime r = 0
  | HealthReadTest _ _ =>
      RelayHealthCheck.isHealthy r = true
      /\ RelayHealthCheck.supportsRead r = true
      /\ RelayHealthCheck.supportsWrite r = false
      /\ RelayHealthCheck.latency r = RelayHealthCheck.responseTime r
  | HealthStuck => True
  | HealthReturned => capabilities_follow_health r
  end.

(** Tasks that say nothing about the pending publish of the payload [id]:
    frames that do not parse, frames that are not an acknowledgement for
    [id], events of other sockets and fetch replies. *)
Definition is_chatter (id : string) (e : task) : bool :=
  match e with
  | Io (Ws O (Message (Some frame))) => negb (is_ack id frame)
  | Io (Ws O (Message None)) => true
  | Io (Ws O _) => false
  | Io (Ws (S _) _) => true
  | Io (FetchReply _) => true
  | Advance _ => false
  end.

Definition without_chatter (id : string) (tr : list task) : list task :=
  filter (fun e => negb (is_chatter id e)) tr.

(** What every state of a publish keeps: the labels of its result, and a
    message once it has returned. *)
Definition publish_labelled (url : string) (event : SignedEvent) (t0 : Z)
  (p : Publish) : Prop :=
  RelayPublishResult.relay (pb_result p) = url
  /\ RelayPublishResult.eventId (pb_result p) = NostrEvent.id event
  /\ RelayPublishResult.timestamp (pb_result p) = t0
  /\ (pb_phase p = PublishReturned ->
      RelayPublishResult.message (pb_result p) <> None).

(** ** The address of the metadata document *)

Fixpoint drop (n : nat) (s : string) : string :=
  match n, s with
  | O, _ => s
  | S n', String _ rest => drop n' rest
  | S _, EmptyString => EmptyString
  end.

(** [s.replace(pattern, replacement)] for a string pattern: the leftmost
    occurrence is replaced, the rest is kept.  (The replacements used here
    hold no [$], so none of the special replacement patterns applies.) *)
Fixpoint replace_first (pattern replacement s : string) : string :=
  if String.prefix pattern s
  then (replacement ++ drop (String.length pattern) s)%string
  else match s with
       | EmptyString => EmptyString
       | String c rest => String c (replace_first pattern replacement rest)
       end.

(** [url.replace('wss://', 'https://').replace('ws://', 'http://')], the
    address [getRelayInfo] hands to [fetch]. *)
Definition httpUrl (url : string) : string :=
  replace_first "ws://" "http://" (replace_first "wss://" "https://" url).

(** [pattern] occurs in [s]. *)
Definition occurs (pattern s : string) : Prop :=
  exists before after, s = (before ++ pattern ++ after)%string.

(** The same, as a search from the left. *)
Fixpoint found (pattern s : string) : bool :=
  String.prefix pattern s
  || match s with
     | EmptyString => false
     | String _ rest => found pattern rest
     end.

(** ** Capabilities read from the metadata *)

(** The three flags [testRelayCompliance] derives from [supported_nips]. *)
Definition capabilities_of (info : RelayInfo.t) : bool * bool * bool :=
  let nips := RelayInfo.supported_nips info in
  if truthy nips then
    match js_includes nips 1, js_includes nips 42, js_includes nips 45 with
    | Some nip01, Some auth, Some count => (nip01, auth, count)
    | _, _, _ => (false, false, false)
    end
  else (false, false, false).

Definition flags (r : RelayTestResult.t) : bool * bool * bool :=
  (RelayTestResult.nip01Compliant r, RelayTestResult.supportsAuth r,
   RelayTestResult.supportsCount r).

(** What a compliance test keeps once the metadata was read: the address it
    was started with and the flags it derived. *)
Definition compliance_labelled (url : string) (f : bool * bool * bool)
  (c : Compliance) : Prop :=
  c_url c = url
  /\ RelayTestResult.url (c_result c) = url
  /\ (c_phase c <> ComplianceFetching -> flags (c_result c) = f).

(** Where a compliance test stands with respect to its labels after the
    tasks [tr]. *)
Definition after_reply (url : string) (tr : list task) (c : Compliance) : Prop :=
  c_url c = url
  /\ RelayTestResult.url (c_result c) = url
  /\ match first_reply tr with
     | None => True
     | Some reply =>
         c_phase c <> ComplianceFetching
         /\ flags (c_result c) = capabilities_of (getRelayInfo url reply)
     end.

(** ** What the observers of a monitored session have seen *)

(** The entries handed to [onLog] so far, oldest first. *)
Fixpoint forwarded (calls : list observation) : list RelayLog.t :=
  match calls with
  | [] => []
  | CalledOnLog l :: rest => l :: forwarded rest
  | _ :: rest => forwarded rest
  end.

(** The entries handed to [onLog] followed by those waiting to be polled. *)
Definition logs_seen (m : Monitor) : list RelayLog.t :=
  forwarded (m_calls m) ++ RelayConnection.logs (connection (m_conn m)).

(** The tasks for which the handlers left on a monitored socket write a log
    entry: [onopen] and [onmessage]. *)
Definition is_logged (e : monitor_task) : bool :=
  match e with
  | Env (Io (Ws O Open)) | Env (Io (Ws O (Message _))) => true
  | _ => false
  end.

(** A monitored session whose connection was established. *)
Definition watching (m : Monitor) : Prop :=
  m_phase m = MonitorWatching
  /\ timeoutId (m_conn m) = None
  /\ exists ws, RelayConnection.websocket (connection (m_conn m)) = Some ws.

(** What every state of a monitored session satisfies. *)
Definition monitor_inv (m : Monitor) : Prop :=
  match m_phase m with
  | MonitorConnecting => promise (m_conn m) = Pending
  | MonitorWatching => watching m
  | MonitorFailed => True
  end.

Definition logged_tasks (tr : list monitor_task) : nat :=
  List.length (filter is_logged tr).

(** The calls made on the two observers, without the returns of the handle. *)
Definition reports (calls : list observation) : list observation :=
  filter (fun o => match o with CancelReturned => false | _ => true end) calls.

(** What a monitored session that is not established has told its
    observers. *)
Definition failure_inv (m : Monitor) : Prop :=
  match m_phase m with
  | MonitorConnecting => m_checkLogs m = None /\ reports (m_calls m) = []
  | MonitorWatching => True
  | MonitorFailed =>
      m_checkLogs m = None
      /\ exists (clock : Z) (e : thrown),
           promise (m_conn m) = Rejected e
           /\ reports (m_calls m)
              = [CalledOnStatusChange error;
                 CalledOnLog (RelayLog.mk clock log_error (message_of e) NoData)]
  end.

(** ** The operations as the specification words them *)

(** [pingRelay]: the outcome of the race, as a promise. *)
Definition ping_decided (url : string) (t0 : Z) (tr : list task) : settled Z :=
  match new_WebSocket url with
  | Some e => Rejected (Err ("Ping failed: " ++ error_message e)%string)
  | None =>
      match connect_race (t0 + 5000) t0 tr with
      | StillConnecting | ErrorFirst => Pending
      | TimedOut _ => Rejected (Err "Ping failed: Connection timeout")
      | Opened t _ => Fulfilled (t - t0)
      end
  end.

(** [publishEventToRelay]: the result of the deciding event, once there is
    one. *)
Definition publish_decided (url : string) (event : SignedEvent) (t0 : Z)
  (tr : list task) : settled RelayPublishResult.t :=
  match decide url event t0 tr with
  | Some d => Fulfilled (result_of url event t0 d)
  | None => Pending
  end.

(** The metadata reply, the clock reading at which it arrives and the tasks
    that follow it. *)
Fixpoint metadata_arrives (now : Z) (tr : list task)
  : option (fetch_reply * Z * list task) :=
  match tr with
  | [] => None
  | Advance dt :: rest => metadata_arrives (now + dt) rest
  | Io (FetchReply reply) :: rest => Some (reply, now, rest)
  | Io (Ws _ _) :: rest => metadata_arrives now rest
  end.

(** How the connection attempt of a ping on the [k]-th socket ends, with the
    clock reading and the tasks that follow: the race of [connect_race]. *)
Inductive pinged : Type :=
| PingWaiting
| PingStalled
| PingTimedOut (clock : Z) (rest : list task)
| PingOpened (clock : Z) (rest : list task).

Fixpoint ping_race (k : nat) (deadline now : Z) (tr : list task) : pinged :=
  match tr with
  | [] => PingWaiting
  | Advance dt :: rest =>
      if deadline <=? now + dt then PingTimedOut (now + dt) rest
      else ping_race k deadline (now + dt) rest
  | Io (Ws k' ev) :: rest =>
      if Nat.eqb k' k then
        match ev with
        | Open => PingOpened now rest
        | Error => PingStalled
        | _ => ping_race k deadline now rest
        end
      else ping_race k deadline now rest
  | Io (FetchReply _) :: rest => ping_race k deadline now rest
  end.

(** The pings of [testRelayCompliance], one after the other. *)
Inductive trials : Type :=
| TrialsWaiting                      (* a ping is still connecting *)
| TrialsStalled                      (* a ping's socket reported an error first *)
| TrialsDone (latencies : list Z).   (* the latencies of the pings that opened *)

(** [remaining] pings from ping [k] on, the first of them started at clock
    [now]; each ping starts in the task that settled the one before.  A ping
    succeeds with the time its socket took to open and fails at its 5 s
    timeout, or at once when the constructor throws. *)
Fixpoint ping_trials (url : string) (remaining k : nat) (now : Z) (tr : list task)
  (latencies : list Z) : trials :=
  match remaining with
  | O => TrialsDone latencies
  | S remaining' =>
      match new_WebSocket url with
      | Some _ => ping_trials url remaining' (S k) now tr latencies
      | None =>
          match ping_race k (now + 5000) now tr with
          | PingWaiting => TrialsWaiting
          | PingStalled => TrialsStalled
          | PingTimedOut t rest => ping_trials url remaining' (S k) t rest latencies
          | PingOpened t rest =>
              ping_trials url remaining' (S k) t rest (latencies ++ [t - now])
          end
      end
  end.

(** The result of a compliance test that ran its pings. *)
Definition measured (url : string) (f : bool * bool * bool) (latencies : list Z)
  : RelayTestResult.t :=
  RelayTestResult.mk url (fst (fst f)) (snd (fst f)) (snd f)
    (average latencies) (js_div (Z.of_nat (List.length latencies)) 3) 3.

(** The pings a compliance test runs once the metadata [reply] has arrived
    at clock [now]: none when [supported_nips] cannot be asked what it
    includes. *)
Definition compliance_trials (url : string) (reply : fetch_reply) (now : Z)
  (rest : list task) : trials :=
  if answers_includes (RelayInfo.supported_nips (getRelayInfo url reply))
  then ping_trials url 3 0 now rest []
  else TrialsDone [].

(** [testRelayCompliance]: the metadata, then the three pings. *)
Definition compliance_decided (url : string) (t0 : Z) (tr : list task)
  : settled RelayTestResult.t :=
  match metadata_arrives t0 tr with
  | None => Pending
  | Some (reply, now, rest) =>
      let info := getRelayInfo url reply in
      if answers_includes (RelayInfo.supported_nips info) then
        match ping_trials url 3 0 now rest [] with
        | TrialsDone latencies =>
            Fulfilled (measured url (capabilities_of info) latencies)
        | _ => Pending
        end
      else Fulfilled (untested url)
  end.

(** No ping of the compliance test has its socket report an error before it
    opens or times out. *)
Definition no_ping_stalls (url : string) (t0 : Z) (tr : list task) : Prop :=
  match metadata_arrives t0 tr with
  | None => True
  | Some (reply, now, rest) => compliance_trials url reply now rest <> TrialsStalled
  end.

(** One attempt of the stress test, alone on the tasks meant for it, has
    ended: its connection failed, or its socket opened and its hold timer of
    [hold] milliseconds has fired. *)
Definition attempt_over (url : string) (hold t0 : Z) (tr : list task) : bool :=
  match new_WebSocket url with
  | Some _ => true
  | None =>
      match connect_race (t0 + 5000) t0 tr with
      | StillConnecting | ErrorFirst => false
      | TimedOut _ => true
      | Opened t rest => timer_fires (t + hold) t rest
      end
  end.

(** Every attempt has ended. *)
Definition attempts_over (url : string) (n : nat) (random : nat -> Z) (t0 : Z)
  (tr : list fan_task) : bool :=
  forallb (fun i => attempt_over url (random i) t0 (project i tr)) (seq 0 n).

(** The socket of unit [i] does not report an error before it opens or times
    out. *)
Definition no_error_first (t0 : Z) (tr : list fan_task) (i : nat) : Prop :=
  connect_race (t0 + 5000) t0 (project i tr) <> ErrorFirst.

(** One attempt alone: the clock and the attempt. *)
Definition attempt_step (hold : Z) (s : Z * Attempt) (e : task) : Z * Attempt :=
  match e with
  | Advance dt => (fst s + dt, fst (attempt_tick (fst s + dt) hold (snd s)))
  | Io (Ws O ev) => (fst s, fst (attempt_dispatch (fst s) hold ev (snd s)))
  | Io _ => s
  end.

(** The tasks of the event loop in a monitored session, without the calls of
    the handle. *)
Fixpoint environment (tr : list monitor_task) : list task :=
  match tr with
  | [] => []
  | Env e :: rest => e :: environment rest
  | Cancel :: rest => environment rest
  end.

(** What the observers of a monitored session are told about a connection
    that is not established. *)
Definition failure_report (url : string) (t0 : Z) (tr : list task)
  : list observation :=
  match new_WebSocket url with
  | Some e =>
      [CalledOnStatusChange error;
       CalledOnLog (RelayLog.mk t0 log_error (message_of e) NoData)]
  | None =>
      match connect_race (t0 + 5000) t0 tr with
      | TimedOut t =>
          [CalledOnStatusChange error;
           CalledOnLog (RelayLog.mk t log_error "Connection timeout" NoData)]
      | _ => []
      end
  end.

(** A ping on the [k]-th socket is under way since clock [start]; the clock
    stands at [now]; [remaining] pings follow it. *)
Definition ping_under_way (url : string) (remaining k : nat) (start now : Z)
  (tr : list task) (latencies : list Z) : trials :=
  match ping_race k (start + 5000) now tr with
  | PingWaiting => TrialsWaiting
  | PingStalled => TrialsStalled
  | PingTimedOut t rest => ping_trials url remaining (S k) t rest latencies
  | PingOpened t rest =>
      ping_trials url remaining (S k) t rest (latencies ++ [t - start])
  end.

(** What the trials leave in [result]. *)
Definition trials_outcome (result : RelayTestResult.t) (t : trials)
  : settled RelayTestResult.t :=
  match t with
  | TrialsDone latencies =>
      Fulfilled
        (RelayTestResult.set_statistics 3
           (js_div (Z.of_nat (List.length latencies)) 3) (average latencies) result)
  | _ => Pending
  end.

(** A compliance test with a ping under way behaves on the tasks [tr] as the
    trials say. *)
Definition pinging_refines (url : string) (tr : list task) : Prop :=
  forall (c : Compliance) (i remaining : nat) (p : Ping),
    c_url c = url ->
    c_phase c = CompliancePinging i p ->
    (i + S remaining = 3)%nat ->
    pg_outcome p = Pending ->
    pg_clock p = c_clock c ->
    still_connecting (pg_startTime p + 5000) (pg_conn p) ->
    c_successCount c = Z.of_nat (List.length (c_latencies c)) ->
    ping_under_way url remaining i (pg_startTime p) (c_clock c) tr (c_latencies c)
    <> TrialsStalled ->
    compliance_outcome (fold_left compliance_step tr c)
    = trials_outcome (c_result c)
        (ping_under_way url remaining i (pg_startTime p) (c_clock c) tr
           (c_latencies c)).

(** * Properties *)

(** ** The connection handed over by connectToRelay *)

Lemma existsb_snoc (A : Type) (f : A -> bool) (l : list A) (x : A) :
  f x = true -> existsb f (l ++ [x]) = true.
Proof.
  intro Hx. rewrite existsb_app. simpl. rewrite Hx.
  now rewrite orb_true_r.
Qed.

Lemma dispatch_resolves (now : Z) (e : ws_event) (c : Connect) :
  promise c = Pending ->
  promise (connect_dispatch now e c) = Fulfilled tt ->
  handed_over (connect_dispatch now e c).
Proof.
  intros Hp. unfold connect_dispatch.
  destruct (RelayConnection.websocket (connection c)) as [ws|] eqn:Hws.
  - destruct e; simpl.
    + intros _. unfold handed_over, onopen, resolve; simpl.
      rewrite Hp; simpl. rewrite Hws; simpl.
      repeat split.
      * eexists; split; reflexivity.
      * now apply existsb_snoc.
    + unfold onerror; simpl. rewrite Hp. discriminate.
    + unfold onmessage; simpl. rewrite Hp. discriminate.
    + unfold onclose; simpl. rewrite Hp. discriminate.
  - rewrite Hp. discriminate.
Qed.

Lemma tick_never_resolves (now : Z) (c : Connect) :
  promise c = Pending ->
  promise (connect_tick now c) <> Fulfilled tt.
Proof.
  intros Hp. unfold connect_tick.
  destruct (timeoutId c) as [d|]; [|rewrite Hp; discriminate].
  destruct (d <=? now); [|rewrite Hp; discriminate].
  unfold ontimeout; simpl.
  destruct (RelayConnection.websocket (connection c)) as [ws|];
    [|simpl; rewrite Hp; discriminate].
  destruct (ReadyState_eqb (WebSocket.readyState ws) OPEN);
    simpl; [rewrite Hp; discriminate|].
  unfold reject; simpl. rewrite Hp. discriminate.
Qed.

(** C9: whenever the promise of [connectToRelay] goes from pending to
    fulfilled, the connection it is fulfilled with has status [connected], a
    socket (which is OPEN) and the log entry "Connected to relay"; no other
    task fulfils it. *)
Theorem connectToRelay_hands_over_connected
  (url : string) (timeout t0 : Z) (tr : list task) (e : task) :
  promise (connect_run url timeout t0 tr) = Pending ->
  promise (connect_run url timeout t0 (tr ++ [e])) = Fulfilled tt ->
  handed_over (connect_run url timeout t0 (tr ++ [e])).
Proof.
  unfold connect_run. rewrite fold_left_app. simpl.
  destruct (fold_left connect_step tr (t0, connectToRelay url timeout t0))
    as [clock c]. simpl.
  intros Hp. destruct e as [dt|[k ev|r]]; simpl.
  - intros H. now apply tick_never_resolves in H.
  - destruct k; simpl.
    + now apply dispatch_resolves.
    + rewrite Hp. discriminate.
  - rewrite Hp. discriminate.
Qed.

(** ** healthCheckRelay *)

Lemma dispatch_keeps_socket (now : Z) (e : ws_event) (c : Connect) :
  (exists ws, RelayConnection.websocket (connection c) = Some ws
              /\ WebSocket.readyState ws <> CONNECTING) ->
  exists ws, RelayConnection.websocket (connection (connect_dispatch now e c)) = Some ws
             /\ WebSocket.readyState ws <> CONNECTING.
Proof.
  intros [ws [Hws Hr]]. unfold connect_dispatch. rewrite Hws.
  destruct e; simpl.
  - unfold onopen, resolve; simpl.
    destruct (promise c); simpl; rewrite Hws; simpl;
      (eexists; split; [reflexivity|discriminate]).
  - eauto.
  - eauto.
  - rewrite Hws. simpl. eexists; split; [reflexivity|discriminate].
Qed.

Lemma tick_keeps_socket (now : Z) (c : Connect) :
  (exists ws, RelayConnection.websocket (connection c) = Some ws
              /\ WebSocket.readyState ws <> CONNECTING) ->
  exists ws, RelayConnection.websocket (connection (connect_tick now c)) = Some ws
             /\ WebSocket.readyState ws <> CONNECTING.
Proof.
  intros [ws [Hws Hr]]. unfold connect_tick.
  destruct (timeoutId c) as [d|]; [|eauto].
  destruct (d <=? now); [|eauto].
  unfold ontimeout; simpl. rewrite Hws.
  destruct (ReadyState_eqb (WebSocket.readyState ws) OPEN); simpl.
  - rewrite Hws. eauto.
  - unfold reject; simpl.
    destruct (promise c); simpl; rewrite Hws; simpl;
      (eexists; split; [reflexivity|]);
      unfold WebSocket.close; simpl;
      destruct (WebSocket.readyState ws); congruence.
Qed.

Lemma health_after_connect_inv (h : Health) :
  h_phase h = HealthConnecting ->
  RelayHealthCheck.isHealthy (h_result h) = false ->
  RelayHealthCheck.errorMessage (h_result h) = None ->
  (promise (h_conn h) = Fulfilled tt -> handed_over (h_conn h)) ->
  health_inv (health_after_connect h).
Proof.
  intros Hph Hh He Hres. unfold health_after_connect. rewrite Hph.
  destruct (promise (h_conn h)) as [|[]|err] eqn:Hp.
  - unfold health_inv. rewrite Hph. auto.
  - destruct (Hres eq_refl) as [Hst [[ws [Hws Hopen]] _]].
    rewrite Hst, Hws. unfold WebSocket.send. rewrite Hopen.
    unfold health_inv; simpl. repeat split; auto.
    eexists; split; [reflexivity|]. simpl. discriminate.
  - unfold health_inv; simpl. split; [auto|discriminate].
Qed.

Lemma health_step_inv (h : Health) (e : task) :
  health_inv h -> health_inv (health_step h e).
Proof.
  intros Hinv. unfold health_step.
  destruct (h_phase h) as [|subId deadline| |] eqn:Hph; auto.
  - (* connecting *)
    unfold health_inv in Hinv. rewrite Hph in Hinv.
    destruct Hinv as [Hp [Hh He]].
    destruct e as [dt|[k ev|r]].
    + set (h' := mkHealth _ _ _ _ _).
      assert (Hh' : health_inv (health_after_connect h')).
      { apply health_after_connect_inv; auto.
        subst h'; simpl. intros H. now apply tick_never_resolves in H. }
      revert Hh'. generalize (health_after_connect h'). intros h2 Hh2.
      unfold health_tick.
      destruct (h_phase h2) as [|s2 d2| |] eqn:Hph2; auto.
      destruct (d2 <=? h_clock h2); auto.
      unfold health_inv in Hh2. rewrite Hph2 in Hh2.
      destruct Hh2 as [H1 [H2 [ws [Hws Hr]]]]. rewrite Hws.
      unfold WebSocket.send.
      destruct (WebSocket.readyState ws) eqn:Hrs; try congruence;
        unfold health_inv; simpl; rewrite H1, H2; split; intros; congruence.
    + destruct k.
      * apply health_after_connect_inv; auto. simpl.
        now apply dispatch_resolves.
      * unfold health_inv. rewrite Hph. auto.
    + unfold health_inv. rewrite Hph. auto.
  - (* read test *)
    unfold health_inv in Hinv. rewrite Hph in Hinv.
    destruct Hinv as [H1 [H2 Hsock]].
    destruct e as [dt|[k ev|r]].
    + unfold health_after_connect; simpl.
      unfold health_tick; simpl.
      destruct (deadline <=? h_clock h + dt).
      * destruct (tick_keeps_socket (h_clock h + dt) (h_conn h) Hsock)
          as [ws [Hws Hr]].
        rewrite Hws. unfold WebSocket.send.
        destruct (WebSocket.readyState ws) eqn:Hrs; try congruence;
          unfold health_inv; simpl; rewrite H1, H2; split; intros; congruence.
      * unfold health_inv; simpl. repeat split; auto.
        now apply tick_keeps_socket.
    + destruct k.
      * unfold health_after_connect; simpl.
        unfold health_inv; simpl. repeat split; auto.
        now apply dispatch_keeps_socket.
      * unfold health_inv. rewrite Hph. auto.
    + unfold health_inv. rewrite Hph. auto.
Qed.

Lemma health_start_inv (url : string) (t0 : Z) :
  health_inv (healthCheckRelay_start url t0).
Proof.
  unfold healthCheckRelay_start. apply health_after_connect_inv; auto.
  simpl. unfold connectToRelay.
  destruct (new_WebSocket url); simpl; discriminate.
Qed.

Lemma health_run_inv (url : string) (t0 : Z) (tr : list task) :
  health_inv (health_run url t0 tr).
Proof.
  unfold health_run.
  generalize (health_start_inv url t0).
  generalize (healthCheckRelay_start url t0).
  induction tr as [|e tr IH]; simpl; intros h Hh; auto.
  apply IH. now apply health_step_inv.
Qed.

(** C4: in every result [healthCheckRelay] returns, [errorMessage] is set if
    and only if [isHealthy] is false. *)
Theorem healthCheck_error_iff_unhealthy
  (url : string) (t0 : Z) (tr : list task) (r : RelayHealthCheck.t) :
  healthCheckRelay url t0 tr = Fulfilled r ->
  (RelayHealthCheck.errorMessage r <> None <-> RelayHealthCheck.isHealthy r = false).
Proof.
  unfold healthCheckRelay, health_outcome. intros H.
  pose proof (health_run_inv url t0 tr) as Hinv.
  unfold health_inv in Hinv.
  destruct (h_phase (health_run url t0 tr)); try discriminate.
  injection H as <-. exact Hinv.
Qed.

(** ** publishEventToRelay *)

Lemma publish_returned_run (event : SignedEvent) (tr : list task) (p : Publish) :
  pb_phase p = PublishReturned ->
  fold_left (publish_step event) tr p = p.
Proof.
  intros Hp. induction tr as [|e tr IH]; simpl; auto.
  unfold publish_step at 2. rewrite Hp. exact IH.
Qed.

Lemma js_index_none (v : jsval) (i j : nat) :
  js_index v i = None -> js_index v j = None.
Proof. destruct v; simpl; congruence. Qed.

Lemma messageHandler_ack (event : SignedEvent) (frame : jsval) (p : Publish) :
  messageHandler event (Some frame) p =
  if is_ack (NostrEvent.id event) frame then
    mkPublish (pb_clock p) (pb_startTime p)
      (on_connection RelayConnection.close_websocket (pb_conn p))
      (settle (pb_result p) (pb_startTime p)
         (Acknowledged (field frame 2) (field frame 3) (pb_clock p)))
      PublishReturned
  else p.
Proof.
  unfold messageHandler, is_ack, field.
  destruct (js_index frame 0) as [r0|] eqn:H0.
  - destruct (js_index frame 1) as [r1|] eqn:H1;
      [|rewrite (js_index_none frame 1 0 H1) in H0; discriminate].
    destruct (js_index frame 2) as [r2|] eqn:H2;
      [|rewrite (js_index_none frame 2 0 H2) in H0; discriminate].
    destruct (js_index frame 3) as [r3|] eqn:H3;
      [|rewrite (js_index_none frame 3 0 H3) in H0; discriminate].
    reflexivity.
  - reflexivity.
Qed.

Lemma awaiting_run (event : SignedEvent) (tr : list task) :
  forall (p : Publish) (deadline : Z),
    pb_phase p = PublishAwaitingOK deadline ->
    publish_outcome (fold_left (publish_step event) tr p) =
    match first_ack (NostrEvent.id event) deadline (pb_clock p) tr with
    | Some d => Fulfilled (settle (pb_result p) (pb_startTime p) d)
    | None => Pending
    end.
Proof.
  induction tr as [|e tr IH]; intros p deadline Hph.
  - simpl. unfold publish_outcome. now rewrite Hph.
  - simpl fold_left. unfold publish_step at 2. rewrite Hph.
    destruct e as [dt|[k ev|r]].
    + unfold publish_after_connect; simpl.
      unfold publish_tick; simpl.
      destruct (deadline <=? pb_clock p + dt).
      * rewrite publish_returned_run by reflexivity. reflexivity.
      * rewrite (IH _ deadline) by reflexivity. reflexivity.
    + destruct k as [|k]; [|simpl; now apply IH].
      destruct ev as [| |[frame|]|];
        try (simpl; unfold publish_after_connect; simpl;
             rewrite (IH _ deadline) by reflexivity; reflexivity).
      rewrite messageHandler_ack. cbn [first_ack].
      destruct (is_ack (NostrEvent.id event) frame).
      * rewrite publish_returned_run by reflexivity. reflexivity.
      * rewrite (IH _ deadline) by reflexivity. reflexivity.
    + simpl. now apply IH.
Qed.

Lemma connecting_run (event : SignedEvent) (tr : list task) :
  forall (p : Publish) (deadline : Z),
    pb_phase p = PublishConnecting ->
    still_connecting deadline (pb_conn p) ->
    connect_race deadline (pb_clock p) tr <> ErrorFirst ->
    publish_outcome (fold_left (publish_step event) tr p) =
    match connect_race deadline (pb_clock p) tr with
    | StillConnecting | ErrorFirst => Pending
    | TimedOut t =>
        Fulfilled (settle (pb_result p) (pb_startTime p)
                     (ConnectFailed "Connection timeout" t))
    | Opened t rest =>
        match first_ack (NostrEvent.id event) (t + 10000) t rest with
        | Some d => Fulfilled (settle (pb_result p) (pb_startTime p) d)
        | None => Pending
        end
    end.
Proof.
  induction tr as [|e tr IH]; intros p deadline Hph Hc Hrace.
  - simpl. unfold publish_outcome. now rewrite Hph.
  - destruct Hc as [Hp [Ht [ws [Hws Hr]]]].
    simpl fold_left. unfold publish_step at 2. rewrite Hph.
    destruct e as [dt|[k ev|r]].
    + (* the clock moves *)
      simpl in Hrace |- *. unfold connect_tick. rewrite Ht.
      destruct (deadline <=? pb_clock p + dt).
      * unfold ontimeout; simpl. rewrite Hws.
        replace (ReadyState_eqb (WebSocket.readyState ws) OPEN) with false
          by (destruct (WebSocket.readyState ws); simpl; congruence).
        unfold reject; simpl. rewrite Hp.
        unfold publish_after_connect; simpl.
        rewrite publish_returned_run by reflexivity. reflexivity.
      * unfold publish_after_connect; simpl. rewrite Hp.
        unfold publish_tick; simpl.
        rewrite (IH _ deadline); try reflexivity; auto.
        repeat split; simpl; eauto.
    + destruct k as [|k]; [|simpl in Hrace |- *; apply IH; auto; repeat split; eauto].
      destruct ev as [| |data|].
      * (* open: the promise is fulfilled and the publish frame is sent *)
        cbn [connect_race].
        unfold connect_dispatch. rewrite Hws.
        unfold onopen, resolve; simpl. rewrite Hp.
        unfold publish_after_connect; simpl. rewrite Hws; simpl.
        rewrite (awaiting_run event tr _ (pb_clock p + 10000)) by reflexivity.
        reflexivity.
      * simpl in Hrace. congruence.
      * assert (Hrace' : connect_race deadline (pb_clock p) tr <> ErrorFirst)
          by (destruct data; exact Hrace).
        replace (connect_race deadline (pb_clock p)
                   (Io (Ws 0 (Message data)) :: tr))
          with (connect_race deadline (pb_clock p) tr) by (destruct data; reflexivity).
        unfold connect_dispatch. rewrite Hws.
        unfold onmessage; simpl.
        unfold publish_after_connect; simpl. rewrite Hp.
        rewrite (IH _ deadline); try reflexivity; auto.
        repeat split; simpl; eauto.
      * simpl in Hrace. cbn [connect_race].
        unfold connect_dispatch. rewrite Hws.
        unfold onclose; simpl.
        unfold publish_after_connect; simpl. rewrite Hp.
        rewrite (IH _ deadline); try reflexivity; auto.
        repeat split; simpl; auto. rewrite Hws; simpl.
        eexists; split; [reflexivity|]. simpl. discriminate.
    + simpl in Hrace |- *. apply IH; auto. repeat split; eauto.
Qed.

Lemma publish_refines_decide (url : string) (event : SignedEvent) (t0 : Z)
  (tr : list task) :
  connect_race (t0 + 5000) t0 tr <> ErrorFirst ->
  publishEventToRelay url event t0 tr =
  match decide url event t0 tr with
  | Some d => Fulfilled (result_of url event t0 d)
  | None => Pending
  end.
Proof.
  intros Hrace.
  unfold publishEventToRelay, publish_run, publishEventToRelay_start, decide.
  unfold connectToRelay.
  destruct (new_WebSocket url) as [e|] eqn:Hnew.
  - unfold publish_after_connect; simpl.
    rewrite publish_returned_run by reflexivity. reflexivity.
  - unfold publish_after_connect; simpl.
    rewrite (connecting_run event tr _ (t0 + 5000)); auto.
    + simpl.
      destruct (connect_race (t0 + 5000) t0 tr) as [| |t|t rest]; reflexivity.
    + repeat split; simpl; auto.
      eexists; split; [reflexivity|]. simpl. discriminate.
Qed.


(** ** pingRelay *)

Lemma ping_settled_run (k : nat) (tr : list task) (p : Ping) :
  pg_outcome p <> Pending ->
  fold_left (ping_step k) tr p = p.
Proof.
  intros Hp. induction tr as [|e tr IH]; simpl; auto.
  unfold ping_step at 2.
  destruct (pg_outcome p); [congruence|exact IH|exact IH].
Qed.

Lemma ping_connecting_run (tr : list task) :
  forall (p : Ping) (deadline : Z),
    pg_outcome p = Pending ->
    still_connecting deadline (pg_conn p) ->
    connect_race deadline (pg_clock p) tr <> ErrorFirst ->
    pg_outcome (fold_left (ping_step 0) tr p) =
    match connect_race deadline (pg_clock p) tr with
    | StillConnecting | ErrorFirst => Pending
    | TimedOut _ => Rejected (Err "Ping failed: Connection timeout")
    | Opened t _ => Fulfilled (t - pg_startTime p)
    end.
Proof.
  induction tr as [|e tr IH]; intros p deadline Hout Hc Hrace.
  - simpl. exact Hout.
  - destruct Hc as [Hp [Ht [ws [Hws Hr]]]].
    simpl fold_left. unfold ping_step at 2. rewrite Hout.
    destruct e as [dt|[k ev|r]].
    + simpl in Hrace |- *. unfold connect_tick. rewrite Ht.
      destruct (deadline <=? pg_clock p + dt).
      * unfold ontimeout; simpl. rewrite Hws.
        replace (ReadyState_eqb (WebSocket.readyState ws) OPEN) with false
          by (destruct (WebSocket.readyState ws); simpl; congruence).
        unfold reject; simpl. rewrite Hp.
        unfold ping_after_connect; simpl.
        rewrite ping_settled_run by (simpl; discriminate). reflexivity.
      * unfold ping_after_connect; simpl. rewrite Hp.
        rewrite (IH _ deadline); try reflexivity; auto.
        repeat split; simpl; eauto.
    + destruct k as [|k]; [|simpl in Hrace |- *; apply IH; auto; repeat split; eauto].
      simpl Nat.eqb. cbv iota.
      destruct ev as [| |data|].
      * cbn [connect_race].
        unfold connect_dispatch. rewrite Hws.
        unfold onopen, resolve; simpl. rewrite Hp.
        unfold ping_after_connect; simpl.
        rewrite ping_settled_run by (simpl; discriminate). reflexivity.
      * simpl in Hrace. congruence.
      * simpl in Hrace. cbn [connect_race].
        unfold connect_dispatch. rewrite Hws.
        unfold onmessage; simpl.
        unfold ping_after_connect; simpl. rewrite Hp.
        rewrite (IH _ deadline); try reflexivity; auto.
        repeat split; simpl; eauto.
      * simpl in Hrace. cbn [connect_race].
        unfold connect_dispatch. rewrite Hws.
        unfold onclose; simpl.
        unfold ping_after_connect; simpl. rewrite Hp.
        rewrite (IH _ deadline); try reflexivity; auto.
        repeat split; simpl; auto. rewrite Hws; simpl.
        eexists; split; [reflexivity|]. simpl. discriminate.
    + simpl in Hrace |- *. apply IH; auto. repeat split; eauto.
Qed.

Lemma pingRelay_decided (url : string) (t0 : Z) (tr : list task) :
  connect_race (t0 + 5000) t0 tr <> ErrorFirst ->
  pingRelay url t0 tr =
  match new_WebSocket url with
  | Some e => Rejected (Err ("Ping failed: " ++ error_message e)%string)
  | None =>
      match connect_race (t0 + 5000) t0 tr with
      | StillConnecting | ErrorFirst => Pending
      | TimedOut _ => Rejected (Err "Ping failed: Connection timeout")
      | Opened t _ => Fulfilled (t - t0)
      end
  end.
Proof.
  intros Hrace.
  unfold pingRelay, ping_run, pingRelay_start, connectToRelay.
  destruct (new_WebSocket url) as [e|] eqn:Hnew.
  - unfold ping_after_connect; simpl.
    rewrite ping_settled_run by (simpl; discriminate). reflexivity.
  - unfold ping_after_connect; simpl.
    rewrite (ping_connecting_run tr _ (t0 + 5000)); auto.
    repeat split; simpl; auto.
    eexists; split; [reflexivity|]. simpl. discriminate.
Qed.

(** ** healthCheckRelay, task by task *)

Lemma health_returned_run (tr : list task) (h : Health) :
  h_phase h = HealthReturned ->
  fold_left health_step tr h = h.
Proof.
  intros Hp. induction tr as [|e tr IH]; simpl; auto.
  unfold health_step at 2. rewrite Hp. exact IH.
Qed.

(** Resume an induction on the trace at the state the last task left. *)
Ltac continue_from IH deadline :=
  match goal with
  | |- context [fold_left _ _ ?st] => apply (IH st deadline)
  end.

Ltac continue_with IH subId deadline :=
  match goal with
  | |- context [fold_left _ _ ?st] => apply (IH st subId deadline)
  end.

Lemma health_readtest_run (tr : list task) :
  forall (h : Health) (subId : string) (deadline : Z),
    h_phase h = HealthReadTest subId deadline ->
    (exists ws, RelayConnection.websocket (connection (h_conn h)) = Some ws
                /\ WebSocket.readyState ws <> CONNECTING) ->
    health_ends (fold_left health_step tr h)
      (if timer_fires deadline (h_clock h) tr
       then Fulfilled (RelayHealthCheck.set_supportsWrite true (h_result h))
       else Pending).
Proof.
  induction tr as [|e tr IH]; intros h subId deadline Hph Hsock.
  - simpl. unfold health_ends, health_outcome. rewrite Hph.
    split; [reflexivity|discriminate].
  - simpl fold_left. unfold health_step at 2. rewrite Hph.
    destruct e as [dt|[k ev|r]].
    + unfold health_after_connect; simpl.
      unfold health_tick; simpl.
      destruct (deadline <=? h_clock h + dt); simpl.
      * destruct (tick_keeps_socket (h_clock h + dt) (h_conn h) Hsock)
          as [ws [Hws Hr]].
        rewrite Hws. unfold WebSocket.send.
        destruct (WebSocket.readyState ws) eqn:Hrs; try congruence;
          rewrite health_returned_run by reflexivity;
          (split; [reflexivity|]); intros _;
          unfold session_released, WebSocket.released, WebSocket.close; simpl;
          try rewrite Hrs; reflexivity.
      * continue_with IH subId deadline; [reflexivity|].
        simpl. now apply tick_keeps_socket.
    + destruct k as [|k]; [|continue_with IH subId deadline; auto].
      unfold health_after_connect; simpl.
      continue_with IH subId deadline; [reflexivity|].
      simpl. now apply dispatch_keeps_socket.
    + continue_with IH subId deadline; auto.
Qed.

Lemma health_connecting_run (tr : list task) :
  forall (h : Health) (deadline : Z),
    h_phase h = HealthConnecting ->
    still_connecting deadline (h_conn h) ->
    connect_race deadline (h_clock h) tr <> ErrorFirst ->
    health_ends (fold_left health_step tr h)
      match connect_race deadline (h_clock h) tr with
      | StillConnecting | ErrorFirst => Pending
      | TimedOut _ =>
          Fulfilled (RelayHealthCheck.set_errorMessage "Connection timeout" (h_result h))
      | Opened t rest =>
          if timer_fires (t + 1000) t rest
          then Fulfilled
                 (RelayHealthCheck.set_supportsWrite true
                    (RelayHealthCheck.set_supportsRead true
                       (RelayHealthCheck.set_latency (t - h_startTime h)
                          (RelayHealthCheck.set_responseTime (t - h_startTime h)
                             (RelayHealthCheck.set_isHealthy true (h_result h))))))
          else Pending
      end.
Proof.
  induction tr as [|e tr IH]; intros h deadline Hph Hc Hrace.
  - simpl. unfold health_ends, health_outcome. rewrite Hph.
    split; [reflexivity|discriminate].
  - destruct Hc as [Hp [Ht [ws [Hws Hr]]]].
    simpl fold_left. unfold health_step at 2. rewrite Hph.
    destruct e as [dt|[k ev|r]].
    + simpl in Hrace |- *. unfold connect_tick. rewrite Ht.
      destruct (deadline <=? h_clock h + dt).
      * unfold ontimeout; simpl. rewrite Hws.
        replace (ReadyState_eqb (WebSocket.readyState ws) OPEN) with false
          by (destruct (WebSocket.readyState ws); simpl; congruence).
        unfold reject; simpl. rewrite Hp.
        unfold health_after_connect; simpl.
        unfold health_tick; simpl.
        rewrite health_returned_run by reflexivity.
        split; [reflexivity|]. intros _.
        unfold session_released; simpl. rewrite Hws; simpl.
        unfold WebSocket.released, WebSocket.close; simpl.
        destruct (WebSocket.readyState ws); reflexivity.
      * unfold health_after_connect; simpl. rewrite Hp.
        unfold health_tick; simpl.
        continue_from IH deadline; try reflexivity; auto.
        repeat split; simpl; eauto.
    + destruct k as [|k]; [|simpl in Hrace |- *; continue_from IH deadline; auto; repeat split; eauto].
      destruct ev as [| |data|].
      * cbn [connect_race].
        unfold connect_dispatch. rewrite Hws.
        unfold onopen, resolve; simpl. rewrite Hp.
        unfold health_after_connect; simpl. rewrite Hws; simpl.
        match goal with
        | |- health_ends (fold_left _ _ ?st) _ =>
            eapply (health_readtest_run tr st _ (h_clock h + 1000))
        end; [reflexivity|].
        simpl. eexists; split; [reflexivity|]. simpl. discriminate.
      * simpl in Hrace. congruence.
      * simpl in Hrace. cbn [connect_race].
        unfold connect_dispatch. rewrite Hws.
        unfold onmessage; simpl.
        unfold health_after_connect; simpl. rewrite Hp.
        continue_from IH deadline; try reflexivity; auto.
        repeat split; simpl; eauto.
      * simpl in Hrace. cbn [connect_race].
        unfold connect_dispatch. rewrite Hws.
        unfold onclose; simpl.
        unfold health_after_connect; simpl. rewrite Hp.
        continue_from IH deadline; try reflexivity; auto.
        repeat split; simpl; auto. rewrite Hws; simpl.
        eexists; split; [reflexivity|]. simpl. discriminate.
    + simpl in Hrace |- *. continue_from IH deadline; auto. repeat split; eauto.
Qed.

Lemma healthCheck_decided (url : string) (t0 : Z) (tr : list task) :
  connect_race (t0 + 5000) t0 tr <> ErrorFirst ->
  health_ends (health_run url t0 tr) (health_decided url t0 tr).
Proof.
  intros Hrace.
  unfold health_run, healthCheckRelay_start, health_decided.
  unfold connectToRelay.
  destruct (new_WebSocket url) as [e|] eqn:Hnew.
  - unfold health_after_connect; simpl.
    rewrite health_returned_run by reflexivity.
    split; [reflexivity|]. intros _. exact I.
  - unfold health_after_connect; simpl.
    match goal with
    | |- health_ends (fold_left health_step tr ?h) _ =>
        pose proof (health_connecting_run tr h (t0 + 5000)) as Hrun
    end.
    simpl in Hrun.
    destruct (connect_race (t0 + 5000) t0 tr) as [| |t|t rest];
      apply Hrun; auto; repeat split; simpl; auto;
        (eexists; split; [reflexivity|simpl; discriminate]).
Qed.

(** ** Fan-out: batchPublishToRelays and compareRelays *)

Section FanOut.

Context {S : Type} (step : S -> task -> S).

Lemma map_from_ext (A B : Type) (f g : nat -> A -> B) (l : list A) :
  forall i, (forall j a, f j a = g j a) -> map_from f i l = map_from g i l.
Proof.
  induction l as [|x l IH]; intros i H; simpl; [reflexivity|].
  rewrite H. f_equal. now apply IH.
Qed.

Lemma map_from_id (A : Type) (l : list A) :
  forall i, map_from (fun _ a => a) i l = l.
Proof.
  induction l as [|x l IH]; intros i; simpl; [reflexivity|]. now rewrite IH.
Qed.

Lemma map_from_map (A B C : Type) (f : nat -> B -> C) (g : A -> B) (l : list A) :
  forall i, map_from f i (map g l) = map_from (fun j a => f j (g a)) i l.
Proof.
  induction l as [|x l IH]; intros i; simpl; [reflexivity|]. now rewrite IH.
Qed.

Lemma map_map_from (A B C : Type) (f : nat -> A -> B) (g : B -> C) (l : list A) :
  forall i, map g (map_from f i l) = map_from (fun j a => g (f j a)) i l.
Proof.
  induction l as [|x l IH]; intros i; simpl; [reflexivity|]. now rewrite IH.
Qed.

Lemma map_from_update_nth (A B : Type) (f : nat -> A -> B) (g : A -> A) (l : list A) :
  forall i j,
    map_from f i (update_nth j g l) =
    map_from (fun k a => if Nat.eqb k (i + j) then f k (g a) else f k a) i l.
Proof.
  induction l as [|x l IH]; intros i j; simpl; [now destruct j|].
  destruct j as [|j]; simpl.
  - rewrite Nat.add_0_r, Nat.eqb_refl. f_equal.
    clear IH. revert x.
    assert (H : forall (l : list A) k, (i < k)%nat ->
              map_from f k l =
              map_from (fun k a => if Nat.eqb k i then f k (g a) else f k a) k l).
    { clear l. induction l as [|y l IH]; intros k Hk; simpl; [reflexivity|].
      replace (Nat.eqb k i) with false by (symmetry; apply Nat.eqb_neq; lia).
      f_equal. apply IH. lia. }
    intros _. apply H. lia.
  - replace (Nat.eqb i (i + Datatypes.S j)) with false
      by (symmetry; apply Nat.eqb_neq; lia).
    f_equal. rewrite IH.
    apply map_from_ext. intros k a.
    now replace (Datatypes.S i + j)%nat with (i + Datatypes.S j)%nat by lia.
Qed.

(** Every unit runs as if it were alone on the tasks meant for it. *)
Lemma fan_run_units (tr : list fan_task) :
  forall units : list S,
    fold_left (fan_step step) tr units =
    map_from (fun i u => fold_left step (project i tr) u) 0 units.
Proof.
  induction tr as [|e tr IH]; intros units.
  - simpl. now rewrite map_from_id.
  - simpl fold_left. rewrite IH. destruct e as [dt|j ev]; simpl.
    + now rewrite map_from_map.
    + rewrite map_from_update_nth. apply map_from_ext. intros k a. simpl.
      rewrite (Nat.eqb_sym j k). now destruct (Nat.eqb k j).
Qed.

End FanOut.


Lemma Promise_all_rejected (T : Type) (promises : list (settled T)) (e : thrown) :
  Promise_all promises = Rejected e -> In (Rejected e) promises.
Proof.
  induction promises as [|p ps IH]; simpl; intros H; [discriminate|].
  destruct p as [|v|e1].
  - destruct (Promise_all ps); try discriminate. injection H as ->. auto.
  - destruct (Promise_all ps); try discriminate. injection H as ->. auto.
  - injection H as ->. auto.
Qed.

(** ** stressTestRelay *)

Lemma attempt_after_connect_counted (now hold : Z) (a : Attempt) :
  let (a', eff) := attempt_after_connect now hold a in
  (if is_connecting a' then 1 else 0) + counted eff
  = (if is_connecting a then 1 else 0).
Proof.
  unfold attempt_after_connect, is_connecting.
  destruct (a_phase a) eqn:Hph; simpl; try (rewrite Hph; reflexivity).
  destruct (promise (a_conn a)) as [|u|e]; simpl;
    try (rewrite Hph; reflexivity); try reflexivity.
  destruct (RelayConnection.status (connection (a_conn a))); reflexivity.
Qed.

Lemma attempt_release_connecting (now : Z) (a : Attempt) :
  is_connecting (attempt_release now a) = is_connecting a.
Proof.
  unfold attempt_release, is_connecting.
  destruct (a_phase a) eqn:Hph; try (rewrite Hph; reflexivity).
  destruct (deadline <=? now); simpl; [reflexivity|now rewrite Hph].
Qed.

Lemma attempt_tick_counted (now hold : Z) (a : Attempt) :
  let (a', eff) := attempt_tick now hold a in
  (if is_connecting a' then 1 else 0) + counted eff
  = (if is_connecting a then 1 else 0).
Proof.
  unfold attempt_tick.
  destruct (a_phase a) eqn:Hph.
  - pose proof (attempt_after_connect_counted now hold
                  (mkAttempt (a_connStartTime a) (connect_tick now (a_conn a))
                     AttemptConnecting)) as H.
    destruct (attempt_after_connect now hold _) as [a' eff].
    rewrite attempt_release_connecting.
    unfold is_connecting at 2 in H. simpl in H.
    unfold is_connecting at 2. now rewrite Hph.
  - pose proof (attempt_after_connect_counted now hold
                  (mkAttempt (a_connStartTime a) (connect_tick now (a_conn a))
                     (AttemptHolding deadline))) as H.
    destruct (attempt_after_connect now hold _) as [a' eff].
    rewrite attempt_release_connecting.
    unfold is_connecting at 2 in H. simpl in H.
    unfold is_connecting at 2. now rewrite Hph.
  - simpl. lia.
Qed.

Lemma attempt_dispatch_counted (now hold : Z) (ev : ws_event) (a : Attempt) :
  let (a', eff) := attempt_dispatch now hold ev a in
  (if is_connecting a' then 1 else 0) + counted eff
  = (if is_connecting a then 1 else 0).
Proof.
  unfold attempt_dispatch.
  destruct (a_phase a) eqn:Hph.
  - pose proof (attempt_after_connect_counted now hold
                  (mkAttempt (a_connStartTime a)
                     (connect_dispatch now ev (a_conn a)) AttemptConnecting)) as H.
    destruct (attempt_after_connect now hold _) as [a' eff].
    unfold is_connecting at 2 in H. simpl in H.
    unfold is_connecting at 2. now rewrite Hph.
  - pose proof (attempt_after_connect_counted now hold
                  (mkAttempt (a_connStartTime a)
                     (connect_dispatch now ev (a_conn a))
                     (AttemptHolding deadline))) as H.
    destruct (attempt_after_connect now hold _) as [a' eff].
    unfold is_connecting at 2 in H. simpl in H.
    unfold is_connecting at 2. now rewrite Hph.
  - simpl. lia.
Qed.

Lemma apply_effect_counts (eff : effect) (s : Stress) :
  s_successCount (apply_effect eff s) + s_failCount (apply_effect eff s)
  = s_successCount s + s_failCount s + counted eff
  /\ Z.of_nat (List.length (s_latencies (apply_effect eff s)))
       - s_successCount (apply_effect eff s)
     = Z.of_nat (List.length (s_latencies s)) - s_successCount s.
Proof.
  destruct eff; simpl; try lia.
  rewrite length_app. simpl. lia.
Qed.

(** A pass over the attempts keeps the balance between attempts still
    connecting and attempts counted. *)
Lemma each_attempt_balance (f : nat -> Attempt -> Attempt * effect) :
  (forall i a,
      let (a', eff) := f i a in
      (if is_connecting a' then 1 else 0) + counted eff
      = (if is_connecting a then 1 else 0)) ->
  forall attempts i s,
    let (attempts', s') := each_attempt f i attempts s in
    connecting_count attempts' + s_successCount s' + s_failCount s'
    = connecting_count attempts + s_successCount s + s_failCount s
    /\ Z.of_nat (List.length (s_latencies s')) - s_successCount s'
       = Z.of_nat (List.length (s_latencies s)) - s_successCount s.
Proof.
  intros Hf. induction attempts as [|a rest IH]; intros i s; simpl.
  - lia.
  - specialize (Hf i a). destruct (f i a) as [a' eff].
    specialize (IH (Datatypes.S i) (apply_effect eff s)).
    destruct (each_attempt f (Datatypes.S i) rest (apply_effect eff s))
      as [rest' s'].
    destruct (apply_effect_counts eff s) as [H1 H2].
    unfold connecting_count in *. simpl.
    destruct (is_connecting a'), (is_connecting a); cbn [Datatypes.length]; lia.
Qed.

Lemma set_attempts_inv (n : nat) (attempts : list Attempt) (s : Stress) :
  connecting_count attempts + s_successCount s + s_failCount s = Z.of_nat n ->
  Z.of_nat (List.length (s_latencies s)) = s_successCount s ->
  stress_inv n (set_attempts attempts s).
Proof. intros H1 H2. split; assumption. Qed.

Lemma stress_step_inv (n : nat) (random : nat -> Z) (s : Stress) (e : fan_task) :
  stress_inv n s -> stress_inv n (stress_step random s e).
Proof.
  intros [H1 H2]. unfold stress_step.
  destruct (forallb is_done (s_attempts s)); [split; assumption|].
  destruct e as [dt|i [k ev|r]].
  - pose proof (each_attempt_balance
                  (fun i => attempt_tick (s_clock s + dt) (random i))
                  (fun i a => attempt_tick_counted _ _ a)
                  (s_attempts s) 0%nat (set_clock (s_clock s + dt) s)) as H.
    destruct (each_attempt _ 0%nat (s_attempts s) _) as [attempts' s'].
    simpl in H. apply set_attempts_inv; lia.
  - destruct k as [|k]; [|split; assumption].
    pose proof (each_attempt_balance
                  (fun j a =>
                     if Nat.eqb j i
                     then attempt_dispatch (s_clock s) (random j) ev a
                     else (a, NoEffect))) as H.
    specialize (H (fun j a =>
                     match Nat.eqb j i as b
                           return (let (a', eff) :=
                                     if b then attempt_dispatch (s_clock s) (random j) ev a
                                     else (a, NoEffect) in
                                   (if is_connecting a' then 1 else 0) + counted eff
                                   = (if is_connecting a then 1 else 0))
                     with
                     | true => attempt_dispatch_counted _ _ ev a
                     | false => Z.add_0_r _
                     end)
                  (s_attempts s) 0%nat s).
    destruct (each_attempt _ 0%nat (s_attempts s) s) as [attempts' s'].
    apply set_attempts_inv; lia.
  - split; assumption.
Qed.

Lemma connecting_count_repeat (a : Attempt) (n : nat) :
  connecting_count (repeat a n) = if is_connecting a then Z.of_nat n else 0.
Proof.
  unfold connecting_count. induction n as [|n IH]; simpl.
  - now destruct (is_connecting a).
  - destruct (is_connecting a); cbn [Datatypes.length]; lia.
Qed.

Lemma stress_start_inv (url : string) (n : number) (random : nat -> Z) (t0 : Z) :
  stress_inv (launched n) (stressTestRelay_start url n random t0).
Proof.
  unfold stressTestRelay_start.
  pose proof (each_attempt_balance
                (fun i => attempt_after_connect t0 (random i))
                (fun i a => attempt_after_connect_counted _ _ a)
                (repeat (mkAttempt t0 (connectToRelay url 5000 t0) AttemptConnecting)
                   (launched n))
                0%nat (mkStress t0 t0 [] 0 0 [])) as H.
  destruct (each_attempt _ 0%nat _ _) as [attempts' s'].
  rewrite connecting_count_repeat in H. simpl in H.
  apply set_attempts_inv; lia.
Qed.

Lemma stress_run_inv (url : string) (n : number) (random : nat -> Z) (t0 : Z)
  (tr : list fan_task) :
  stress_inv (launched n) (stress_run url n random t0 tr).
Proof.
  unfold stress_run.
  generalize (stress_start_inv url n random t0).
  generalize (stressTestRelay_start url n random t0).
  induction tr as [|e tr IH]; simpl; intros s Hs; auto.
  apply IH. now apply stress_step_inv.
Qed.


(** ** testRelayCompliance *)

Lemma compliance_returned_run (tr : list task) (c : Compliance) :
  c_phase c = ComplianceReturned ->
  fold_left compliance_step tr c = c.
Proof.
  intros Hp. induction tr as [|e tr IH]; simpl; auto.
  unfold compliance_step at 2. rewrite Hp. exact IH.
Qed.

Lemma compliance_loop_measured (remaining : nat) :
  forall (i : nat) (c : Compliance),
    (i + remaining = 3)%nat ->
    c_trials c = i ->
    c_successCount c = Z.of_nat (List.length (c_latencies c)) ->
    (List.length (c_latencies c) <= i)%nat ->
    compliance_measured (compliance_loop remaining i c).
Proof.
  induction remaining as [|remaining IH]; intros i c Hi Ht Hs Hl; simpl.
  - unfold compliance_measured, compliance_finish; simpl.
    repeat split; auto; lia.
  - destruct (pg_outcome (pingRelay_start (c_url c) (c_clock c))) as [|lat|e] eqn:Hout.
    + unfold compliance_measured; simpl. repeat split; auto; lia.
    + apply IH; simpl; rewrite ?length_app; simpl; lia.
    + apply IH; simpl; lia.
Qed.

Lemma compliance_step_measured (c : Compliance) (e : task) :
  compliance_measured c -> compliance_measured (compliance_step c e).
Proof.
  intros [Hs Hph]. unfold compliance_step.
  destruct (c_phase c) as [|i p|] eqn:Hphase; [contradiction| |split; [exact Hs|now rewrite Hphase]].
  destruct Hph as (Ht & Hi & Hl & Hp).
  unfold compliance_after_ping.
  destruct (pg_outcome (ping_step i p e)) as [|lat|err] eqn:Hout.
  - unfold compliance_measured; simpl. repeat split; auto.
  - apply compliance_loop_measured;
      [change (Z.to_nat testCount) with 3%nat; lia
      |simpl; rewrite ?length_app; simpl; lia ..].
  - apply compliance_loop_measured;
      [change (Z.to_nat testCount) with 3%nat; lia
      |destruct e; simpl; lia ..].
Qed.

Lemma compliance_measured_run (tr : list task) (c : Compliance) :
  compliance_measured c -> compliance_measured (fold_left compliance_step tr c).
Proof.
  revert c. induction tr as [|e tr IH]; simpl; intros c Hc; auto.
  apply IH. now apply compliance_step_measured.
Qed.

Lemma includes_answered (nips : jsval) (n : nat) :
  answers_includes nips = true -> truthy nips = true ->
  exists b, js_includes nips n = Some b.
Proof.
  unfold answers_includes. intros H Ht. rewrite Ht in H. simpl in H.
  destruct nips; try discriminate; simpl; eauto.
Qed.

Lemma includes_unanswered (nips : jsval) (n : nat) :
  answers_includes nips = false -> truthy nips = true /\ js_includes nips n = None.
Proof.
  unfold answers_includes. intros H. apply orb_false_iff in H.
  destruct H as [Ht Hk]. apply negb_false_iff in Ht.
  split; [exact Ht|]. destruct nips; try discriminate; reflexivity.
Qed.

(** What the run looks like, depending on the metadata the relay served. *)
Lemma compliance_fetching_run (tr : list task) :
  forall c : Compliance,
    c_phase c = ComplianceFetching ->
    c_trials c = 0%nat -> c_latencies c = [] -> c_successCount c = 0 ->
    after_metadata (c_url c) (c_result c) tr (fold_left compliance_step tr c).
Proof.
  induction tr as [|e tr IH]; intros c Hph Ht Hl Hs.
  - exact Hph.
  - simpl fold_left. unfold compliance_step at 2. rewrite Hph.
    destruct e as [dt|[k ev|reply]].
    + match goal with
      | |- context [fold_left _ _ ?st] => apply (IH st); auto
      end.
    + apply IH; auto.
    + unfold after_metadata, first_reply, compliance_after_info.
      destruct (answers_includes
                  (RelayInfo.supported_nips (getRelayInfo (c_url c) reply))) eqn:Hans.
      * apply compliance_measured_run.
        destruct (truthy (RelayInfo.supported_nips (getRelayInfo (c_url c) reply)))
          eqn:Htr.
        -- destruct (includes_answered _ 1 Hans Htr) as [b1 ->].
           destruct (includes_answered _ 42 Hans Htr) as [b2 ->].
           destruct (includes_answered _ 45 Hans Htr) as [b3 ->].
           apply compliance_loop_measured; simpl; auto.
           ++ now rewrite Hl, Hs.
           ++ rewrite Hl. simpl. lia.
        -- apply compliance_loop_measured; simpl; auto.
           ++ now rewrite Hl, Hs.
           ++ rewrite Hl. simpl. lia.
      * destruct (includes_unanswered _ 1 Hans) as [Htr H1].
        rewrite Htr, H1.
        rewrite compliance_returned_run by reflexivity. simpl. auto.
Qed.

Lemma fold_left_add (l : list Z) (a : Z) :
  fold_left Z.add l a = a + fold_right Z.add 0 l.
Proof.
  revert a. induction l as [|x l IH]; intros a; simpl; [lia|].
  rewrite IH. lia.
Qed.

Lemma average_is_mean (samples : list Z) :
  samples <> [] ->
  exists q, average samples = Num q /\ (q == mean samples)%Q.
Proof.
  intros Hne. unfold average, js_div, mean.
  destruct samples as [|x l]; [congruence|].
  replace (0 <? Z.of_nat (List.length (x :: l))) with true
    by (symmetry; apply Z.ltb_lt; simpl List.length; lia).
  replace (Z.of_nat (List.length (x :: l)) =? 0) with false
    by (symmetry; apply Z.eqb_neq; simpl List.length; lia).
  eexists; split; [reflexivity|].
  rewrite fold_left_add. rewrite Z.add_0_l. reflexivity.
Qed.

Lemma average_finite (samples : list Z) : average samples <> NonFinite.
Proof.
  unfold average, js_div.
  destruct (0 <? Z.of_nat (List.length samples)) eqn:H; [|discriminate].
  apply Z.ltb_lt in H.
  replace (Z.of_nat (List.length samples) =? 0) with false
    by (symmetry; apply Z.eqb_neq; lia).
  discriminate.
Qed.

Lemma ratio_of_three (successes : Z) :
  0 <= successes <= 3 ->
  exists q, js_div successes 3 = Num q
            /\ (q == successes # 3)%Q /\ (0 <= q)%Q /\ (q <= 1)%Q.
Proof.
  intros H. unfold js_div. simpl.
  eexists; split; [reflexivity|].
  unfold Qeq, Qle, Qdiv, Qmult, Qinv, inject_Z; simpl. lia.
Qed.

Lemma compliance_run_after_metadata (url : string) (t0 : Z) (tr : list task) :
  after_metadata url (untested url) tr (compliance_run url t0 tr).
Proof.
  unfold compliance_run.
  apply (compliance_fetching_run tr (testRelayCompliance_start url t0));
    reflexivity.
Qed.

(** C10: the [averageLatency] that [testRelayCompliance] and
    [stressTestRelay] return is never the outcome of a division by zero,
    and it is exactly 0 when no latency sample was collected. *)
Theorem averageLatency_zero_without_samples :
  (forall (url : string) (t0 : Z) (tr : list task) (r : RelayTestResult.t),
      testRelayCompliance url t0 tr = Fulfilled r ->
      RelayTestResult.averageLatency r <> NonFinite
      /\ (c_latencies (compliance_run url t0 tr) = [] ->
          RelayTestResult.averageLatency r = Num 0))
  /\ (forall (url : string) (n : number) (duration : Z) (random : nat -> Z) (t0 : Z)
             (tr : list fan_task) (r : StressTestResult.t),
        stressTestRelay url n duration random t0 tr = Fulfilled r ->
        StressTestResult.averageLatency r <> NonFinite
        /\ (s_latencies (stress_run url n random t0 tr) = [] ->
            StressTestResult.averageLatency r = Num 0)
        /\ (StressTestResult.successfulConnections r = 0 ->
            StressTestResult.averageLatency r = Num 0)).
Proof.
  split.
  - intros url t0 tr r H.
    unfold testRelayCompliance, compliance_outcome in H.
    pose proof (compliance_run_after_metadata url t0 tr) as Hrun.
    unfold after_metadata in Hrun.
    destruct (c_phase (compliance_run url t0 tr)) eqn:Hph; try discriminate.
    injection H as <-.
    destruct (first_reply tr) as [reply|]; [|discriminate].
    destruct (answers_includes _).
    + destruct Hrun as [_ Hm]. rewrite Hph in Hm.
      destruct Hm as (_ & _ & _ & _ & Havg). rewrite Havg. split.
      * apply average_finite.
      * intros ->. reflexivity.
    + destruct Hrun as (_ & Hres & _). rewrite Hres. simpl.
      split; [discriminate|reflexivity].
  - intros url n duration random t0 tr r H.
    unfold stressTestRelay in H.
    destruct (stress_run_inv url n random t0 tr) as [_ Hlen].
    destruct (2 ^ 32 <=? ToLength n); [discriminate|].
    destruct (forallb is_done (s_attempts (stress_run url n random t0 tr)));
      [|discriminate].
    injection H as <-. simpl. repeat split.
    + apply average_finite.
    + intros ->. reflexivity.
    + intros Hz. rewrite Hz in Hlen.
      destruct (s_latencies (stress_run url n random t0 tr)); [reflexivity|].
      simpl in Hlen. lia.
Qed.

(** ** monitorRelay *)

(** In every state, the handle leaves the polling interval as it found it;
    before the connection is established it leaves the session alone too. *)
Lemma cancel_leaves_interval (m : Monitor) :
  m_checkLogs (cancel m) = m_checkLogs m
  /\ (m_phase m = MonitorConnecting -> m_conn (cancel m) = m_conn m).
Proof.
  unfold cancel, observe. split.
  - destruct (m_phase m); reflexivity.
  - intros ->. reflexivity.
Qed.

(** ** Results, not exceptions *)

Lemma publish_never_rejected (p : Publish) (e : thrown) :
  publish_outcome p <> Rejected e.
Proof. unfold publish_outcome. destruct (pb_phase p); discriminate. Qed.

Lemma compliance_never_rejected (c : Compliance) (e : thrown) :
  compliance_outcome c <> Rejected e.
Proof. unfold compliance_outcome. destruct (c_phase c); discriminate. Qed.

(** ** connectToRelay: the audit trail *)

Lemma dispatch_constructed (now : Z) (ev : ws_event) (c : Connect) :
  constructed c -> constructed (connect_dispatch now ev c).
Proof.
  intros [[ws Hws] Harmed]. unfold connect_dispatch. rewrite Hws.
  destruct ev; simpl.
  - unfold onopen, resolve; simpl. split.
    + destruct (promise c); simpl; rewrite Hws; simpl; eauto.
    + destruct (promise c); simpl; intros H; congruence.
  - split; [simpl; eauto|]. simpl. congruence.
  - split; [simpl; eauto|]. simpl. exact Harmed.
  - split; [simpl; rewrite Hws; simpl; eauto|]. simpl.
    intros Ht. destruct (Harmed Ht) as [Hp _]. split; [exact Hp|].
    rewrite Hws. simpl. intros ws' Hws'. injection Hws' as <-. simpl. discriminate.
Qed.

Lemma tick_constructed (now : Z) (c : Connect) :
  constructed c -> constructed (connect_tick now c).
Proof.
  intros [[ws Hws] Harmed]. unfold connect_tick.
  destruct (timeoutId c) as [d|] eqn:Ht; [|split; [eauto|now rewrite Ht]].
  destruct (d <=? now); [|split; [eauto|now rewrite Ht]].
  unfold ontimeout; simpl. rewrite Hws.
  destruct (ReadyState_eqb (WebSocket.readyState ws) OPEN).
  - split; [simpl; eauto|]. simpl. congruence.
  - unfold reject, constructed; simpl.
    destruct (promise c); simpl; rewrite Hws; simpl;
      (split; [eauto|congruence]).
Qed.

Lemma dispatch_audited (now : Z) (ev : ws_event) (c : Connect) :
  constructed c -> audited c (connect_dispatch now ev c) [Io (Ws 0 ev)].
Proof.
  intros [[ws Hws] _]. unfold audited, connect_dispatch, occurrences, rejections.
  rewrite Hws.
  destruct (promise c) eqn:Hp; destruct ev; unfold onopen, resolve; simpl;
    rewrite ?Hp; simpl; rewrite ?Hp, ?length_app; simpl; lia.
Qed.

Lemma tick_audited (now dt : Z) (c : Connect) :
  constructed c -> audited c (connect_tick now c) [Advance dt].
Proof.
  intros [[ws Hws] Harmed]. unfold audited, connect_tick, occurrences, rejections.
  destruct (timeoutId c) as [d|] eqn:Ht; [|simpl; lia].
  destruct (d <=? now); [|simpl; lia].
  destruct Harmed as [Hp Hr]; [discriminate|].
  unfold ontimeout; simpl. rewrite Hws.
  replace (ReadyState_eqb (WebSocket.readyState ws) OPEN) with false
    by (specialize (Hr ws Hws); destruct (WebSocket.readyState ws); simpl; congruence).
  unfold reject; simpl. rewrite Hp; simpl.
  rewrite length_app; simpl. lia.
Qed.

Lemma audited_trans (c1 c2 c3 : Connect) (tr1 tr2 : list task) :
  audited c1 c2 tr1 -> audited c2 c3 tr2 -> audited c1 c3 (tr1 ++ tr2).
Proof.
  unfold audited, occurrences. intros (A1 & A2 & A3) (B1 & B2 & B3).
  rewrite !filter_app, !length_app. lia.
Qed.

Lemma connect_step_audited (s : Z * Connect) (e : task) :
  constructed (snd s) ->
  constructed (snd (connect_step s e))
  /\ audited (snd s) (snd (connect_step s e)) [e].
Proof.
  intros Hc. destruct e as [dt|[k ev|r]]; simpl.
  - split; [now apply tick_constructed|now apply tick_audited].
  - destruct k as [|k]; simpl.
    + split; [now apply dispatch_constructed|now apply dispatch_audited].
    + split; [exact Hc|]. unfold audited, occurrences; simpl. lia.
  - split; [exact Hc|]. unfold audited, occurrences; simpl. lia.
Qed.

Lemma connect_fold_audited (tr : list task) :
  forall s : Z * Connect,
    constructed (snd s) ->
    constructed (snd (fold_left connect_step tr s))
    /\ audited (snd s) (snd (fold_left connect_step tr s)) tr.
Proof.
  induction tr as [|e tr IH]; intros s Hc; simpl.
  - split; [exact Hc|]. unfold audited, occurrences; simpl. lia.
  - destruct (connect_step_audited s e Hc) as [Hc1 Ha1].
    destruct (IH (connect_step s e) Hc1) as [Hc2 Ha2].
    split; [exact Hc2|].
    exact (audited_trans _ _ _ [e] tr Ha1 Ha2).
Qed.

Lemma connectToRelay_constructed (url : string) (timeout t0 : Z) :
  new_WebSocket url = None -> constructed (connectToRelay url timeout t0).
Proof.
  intros Hnew. unfold connectToRelay. rewrite Hnew. split; simpl.
  - eauto.
  - intros _. split; [reflexivity|].
    intros ws H. injection H as <-. simpl. discriminate.
Qed.

(** X1: the counters of a connection tell how many frames and how many
    socket errors the session has seen. *)
Theorem connection_counters_count_events
  (url : string) (timeout t0 : Z) (tr : list task) :
  new_WebSocket url = None ->
  RelayConnection.messageCount (connection (connect_run url timeout t0 tr))
  = occurrences is_message_event tr
  /\ RelayConnection.errorCount (connection (connect_run url timeout t0 tr))
     = occurrences is_error_event tr.
Proof.
  intros Hnew. unfold connect_run.
  destruct (connect_fold_audited tr (t0, connectToRelay url timeout t0)
              (connectToRelay_constructed url timeout t0 Hnew))
    as [_ (Hm & He & _)].
  simpl in Hm, He. unfold connectToRelay in Hm at 2, He at 2.
  rewrite Hnew in Hm, He. simpl in Hm, He. split; assumption.
Qed.

(** X2: the log of a connection holds one entry for every event of its
    socket, plus one when the connection timeout rejected the attempt. *)
Theorem connection_log_has_one_entry_per_event
  (url : string) (timeout t0 : Z) (tr : list task) :
  new_WebSocket url = None ->
  Z.of_nat (List.length (RelayConnection.logs
                           (connection (connect_run url timeout t0 tr))))
  = occurrences on_first_socket tr + rejections (connect_run url timeout t0 tr).
Proof.
  intros Hnew. unfold connect_run.
  destruct (connect_fold_audited tr (t0, connectToRelay url timeout t0)
              (connectToRelay_constructed url timeout t0 Hnew))
    as [_ (_ & _ & Hl)].
  simpl in Hl. unfold connectToRelay in Hl at 2 3.
  rewrite Hnew in Hl. simpl in Hl. unfold rejections in Hl at 1. simpl in Hl. lia.
Qed.

(** ** connectToRelay: who settles the promise *)

Lemma dispatch_keeps_settled (now : Z) (ev : ws_event) (c : Connect) :
  promise c <> Pending -> promise (connect_dispatch now ev c) = promise c.
Proof.
  intros Hp. unfold connect_dispatch.
  destruct (RelayConnection.websocket (connection c)); [|reflexivity].
  destruct ev; simpl; try reflexivity.
  unfold onopen, resolve. destruct c as [conn tid p]; simpl in *.
  destruct p; simpl; congruence.
Qed.

Lemma tick_keeps_settled (now : Z) (c : Connect) :
  promise c <> Pending -> promise (connect_tick now c) = promise c.
Proof.
  intros Hp. unfold connect_tick.
  destruct (timeoutId c); [|reflexivity].
  destruct (_ <=? now); [|reflexivity].
  unfold ontimeout; simpl.
  destruct (RelayConnection.websocket (connection c)); [|reflexivity].
  destruct (ReadyState_eqb _ OPEN); [reflexivity|].
  unfold reject. destruct c as [conn tid p]; simpl in *.
  destruct p; simpl; congruence.
Qed.

Lemma connect_settled_run (tr : list task) :
  forall s : Z * Connect,
    promise (snd s) <> Pending ->
    promise (snd (fold_left connect_step tr s)) = promise (snd s).
Proof.
  induction tr as [|e tr IH]; intros s Hp; simpl; [reflexivity|].
  assert (H1 : promise (snd (connect_step s e)) = promise (snd s)).
  { destruct e as [dt|[[|k] ev|r]]; simpl; try reflexivity.
    - now apply tick_keeps_settled.
    - now apply dispatch_keeps_settled. }
  rewrite IH; [exact H1|]. now rewrite H1.
Qed.

Lemma connect_race_run (tr : list task) :
  forall (s : Z * Connect) (deadline : Z),
    still_connecting deadline (snd s) ->
    connect_race deadline (fst s) tr <> ErrorFirst ->
    promise (snd (fold_left connect_step tr s)) =
    match connect_race deadline (fst s) tr with
    | StillConnecting | ErrorFirst => Pending
    | TimedOut _ => Rejected (Err "Connection timeout")
    | Opened _ _ => Fulfilled tt
    end.
Proof.
  induction tr as [|e tr IH]; intros [clock c] deadline Hc Hrace.
  - simpl. apply Hc.
  - destruct Hc as [Hp [Ht [ws [Hws Hr]]]]. simpl in Hp, Ht, Hws.
    simpl fold_left.
    destruct e as [dt|[k ev|r]].
    + simpl in Hrace |- *. unfold connect_tick. rewrite Ht.
      destruct (deadline <=? clock + dt).
      * rewrite connect_settled_run; simpl.
        -- unfold ontimeout; simpl. rewrite Hws.
           replace (ReadyState_eqb (WebSocket.readyState ws) OPEN) with false
             by (destruct (WebSocket.readyState ws); simpl; congruence).
           unfold reject; simpl. now rewrite Hp.
        -- unfold ontimeout; simpl. rewrite Hws.
           replace (ReadyState_eqb (WebSocket.readyState ws) OPEN) with false
             by (destruct (WebSocket.readyState ws); simpl; congruence).
           unfold reject; simpl. rewrite Hp. discriminate.
      * apply (IH (clock + dt, c) deadline); auto.
        repeat split; simpl; eauto.
    + destruct k as [|k];
        [|simpl in Hrace |- *; apply (IH (clock, c) deadline); auto;
          repeat split; simpl; eauto].
      destruct ev as [| |data|].
      * cbn [connect_race]. simpl connect_step.
        rewrite connect_settled_run; simpl;
          unfold connect_dispatch; rewrite Hws;
          unfold onopen, resolve; simpl; rewrite Hp; [reflexivity|discriminate].
      * simpl in Hrace. congruence.
      * simpl in Hrace. cbn [connect_race]. simpl connect_step.
        apply (IH (clock, connect_dispatch clock (Message data) c) deadline); auto.
        unfold connect_dispatch. rewrite Hws.
        repeat split; simpl; eauto.
      * simpl in Hrace. cbn [connect_race]. simpl connect_step.
        apply (IH (clock, connect_dispatch clock Close c) deadline); auto.
        unfold connect_dispatch. rewrite Hws.
        repeat split; simpl; auto. rewrite Hws; simpl.
        eexists; split; [reflexivity|]. simpl. discriminate.
    + simpl in Hrace |- *. apply (IH (clock, c) deadline); auto.
      repeat split; simpl; eauto.
Qed.

Lemma setTimeout_delay_kept (delay : Z) :
  0 < delay < 2 ^ 31 -> setTimeout_delay delay = delay.
Proof.
  intros H. unfold setTimeout_delay.
  replace (1 <=? delay) with true by (symmetry; apply Z.leb_le; lia).
  replace (delay <=? 2147483647) with true by (symmetry; apply Z.leb_le; lia).
  reflexivity.
Qed.

Lemma connectToRelay_still_connecting (url : string) (timeout t0 : Z) :
  0 < timeout < 2 ^ 31 ->
  new_WebSocket url = None ->
  still_connecting (t0 + timeout) (connectToRelay url timeout t0).
Proof.
  intros Hrange Hnew. unfold connectToRelay. rewrite Hnew.
  rewrite (setTimeout_delay_kept timeout Hrange).
  repeat split; simpl.
  eexists; split; [reflexivity|]. simpl. discriminate.
Qed.

(** X3: for a timeout of 1 ms to 2^31 - 1 ms, which [setTimeout] arms as
    given, and unless a socket error comes first, the promise of
    [connectToRelay] is settled by whichever comes first, the [open] event or
    the timeout, and what follows does not change it; when the constructor
    throws, the promise is rejected with what it threw. *)
Theorem connectToRelay_first_writer_wins
  (url : string) (timeout t0 : Z) (tr : list task) :
  0 < timeout < 2 ^ 31 ->
  connect_race (t0 + timeout) t0 tr <> ErrorFirst ->
  promise (connect_run url timeout t0 tr) =
  match new_WebSocket url with
  | Some e => Rejected e
  | None =>
      match connect_race (t0 + timeout) t0 tr with
      | StillConnecting | ErrorFirst => Pending
      | TimedOut _ => Rejected (Err "Connection timeout")
      | Opened _ _ => Fulfilled tt
      end
  end.
Proof.
  intros Hrange Hrace. unfold connect_run.
  destruct (new_WebSocket url) as [e|] eqn:Hnew.
  - rewrite connect_settled_run; unfold connectToRelay; rewrite Hnew; simpl;
      [reflexivity|discriminate].
  - apply (connect_race_run tr (t0, connectToRelay url timeout t0) (t0 + timeout));
      auto.
    now apply connectToRelay_still_connecting.
Qed.

(** ** The stall after a socket error *)

Lemma dispatch_stalled (now : Z) (ev : ws_event) (c : Connect) :
  stalled c -> ev <> Open -> stalled (connect_dispatch now ev c).
Proof.
  intros [Hp Ht] Hev. unfold connect_dispatch.
  destruct (RelayConnection.websocket (connection c)); [|split; assumption].
  destruct ev; simpl; try congruence; split; simpl; auto.
Qed.

Lemma tick_stalled (now : Z) (c : Connect) :
  stalled c -> connect_tick now c = c.
Proof. intros [_ Ht]. unfold connect_tick. now rewrite Ht. Qed.

Lemma tick_stalled_timer (now : Z) (c : Connect) :
  timeoutId c = None -> connect_tick now c = c.
Proof. intros Ht. unfold connect_tick. now rewrite Ht. Qed.

Lemma never_opens_cons (e : task) (tr : list task) :
  never_opens (e :: tr) -> is_open_event e = false /\ never_opens tr.
Proof. unfold never_opens. simpl. intros H. now apply orb_false_iff in H. Qed.

Lemma connect_stalled_run (tr : list task) :
  forall s : Z * Connect,
    stalled (snd s) -> never_opens tr ->
    promise (snd (fold_left connect_step tr s)) = Pending.
Proof.
  induction tr as [|e tr IH]; intros [clock c] Hs Hno; simpl.
  - apply Hs.
  - apply never_opens_cons in Hno. destruct Hno as [He Hno].
    apply IH; [|exact Hno].
    destruct e as [dt|[[|k] ev|r]]; simpl; try exact Hs.
    + simpl in Hs. now rewrite tick_stalled.
    + apply dispatch_stalled; [exact Hs|]. intros ->. discriminate.
Qed.

Lemma onerror_stalls (now deadline : Z) (c : Connect) :
  still_connecting deadline c -> stalled (connect_dispatch now Error c).
Proof.
  intros (Hp & _ & ws & Hws & _). unfold connect_dispatch. rewrite Hws.
  split; simpl; [exact Hp|reflexivity].
Qed.

Lemma connect_error_first_run (tr : list task) :
  forall (s : Z * Connect) (deadline : Z),
    still_connecting deadline (snd s) ->
    connect_race deadline (fst s) tr = ErrorFirst ->
    never_opens tr ->
    promise (snd (fold_left connect_step tr s)) = Pending.
Proof.
  induction tr as [|e tr IH]; intros [clock c] deadline Hc Hrace Hno.
  - discriminate.
  - apply never_opens_cons in Hno. destruct Hno as [He Hno].
    pose proof Hc as (Hp & Ht & ws & Hws & Hr). simpl in Hp, Ht, Hws.
    simpl fold_left.
    destruct e as [dt|[k ev|r]].
    + simpl in Hrace |- *. unfold connect_tick. rewrite Ht.
      destruct (deadline <=? clock + dt); [discriminate|].
      apply (IH (clock + dt, c) deadline); auto.
    + destruct k as [|k];
        [|simpl in Hrace |- *; apply (IH (clock, c) deadline); auto].
      destruct ev as [| |data|]; try discriminate.
      * simpl connect_step. apply connect_stalled_run; [|exact Hno].
        simpl. now apply (onerror_stalls clock deadline).
      * simpl in Hrace. simpl connect_step.
        apply (IH (clock, connect_dispatch clock (Message data) c) deadline); auto.
        unfold connect_dispatch. rewrite Hws.
        repeat split; simpl; eauto.
      * simpl in Hrace. simpl connect_step.
        apply (IH (clock, connect_dispatch clock Close c) deadline); auto.
        unfold connect_dispatch. rewrite Hws.
        repeat split; simpl; auto. rewrite Hws; simpl.
        eexists; split; [reflexivity|]. simpl. discriminate.
    + simpl in Hrace |- *. apply (IH (clock, c) deadline); auto.
Qed.

(** X4: for a timeout of 1 ms to 2^31 - 1 ms, which [setTimeout] arms as
    given: when a socket error comes before the [open] event and the timeout,
    [onerror] disarms the timeout and rejects nothing: as long as the socket
    does not open, no task settles the promise of [connectToRelay]. *)
Theorem connectToRelay_stalls_after_error
  (url : string) (timeout t0 : Z) (tr : list task) :
  0 < timeout < 2 ^ 31 ->
  new_WebSocket url = None ->
  connect_race (t0 + timeout) t0 tr = ErrorFirst ->
  never_opens tr ->
  promise (connect_run url timeout t0 tr) = Pending.
Proof.
  intros Hrange Hnew Hrace Hno. unfold connect_run.
  apply (connect_error_first_run tr (t0, connectToRelay url timeout t0)
           (t0 + timeout)); auto.
  now apply connectToRelay_still_connecting.
Qed.

Lemma health_stalled_run (tr : list task) :
  forall h : Health,
    h_phase h = HealthConnecting -> stalled (h_conn h) -> never_opens tr ->
    health_outcome (fold_left health_step tr h) = Pending.
Proof.
  induction tr as [|e tr IH]; intros h Hph Hs Hno.
  - simpl. unfold health_outcome. now rewrite Hph.
  - apply never_opens_cons in Hno. destruct Hno as [He Hno].
    simpl fold_left. unfold health_step at 2. rewrite Hph.
    destruct e as [dt|[[|k] ev|r]]; try (now apply IH).
    + rewrite (tick_stalled _ _ Hs).
      unfold health_after_connect; simpl. rewrite (proj1 Hs).
      unfold health_tick; simpl. now apply IH.
    + assert (Hs' : stalled (connect_dispatch (h_clock h) ev (h_conn h)))
        by (apply dispatch_stalled; [exact Hs|intros ->; discriminate]).
      unfold health_after_connect; simpl. rewrite (proj1 Hs').
      now apply IH.
Qed.

Lemma health_error_first_run (tr : list task) :
  forall (h : Health) (deadline : Z),
    h_phase h = HealthConnecting ->
    still_connecting deadline (h_conn h) ->
    connect_race deadline (h_clock h) tr = ErrorFirst ->
    never_opens tr ->
    health_outcome (fold_left health_step tr h) = Pending.
Proof.
  induction tr as [|e tr IH]; intros h deadline Hph Hc Hrace Hno.
  - discriminate.
  - apply never_opens_cons in Hno. destruct Hno as [He Hno].
    pose proof Hc as (Hp & Ht & ws & Hws & Hr).
    simpl fold_left. unfold health_step at 2. rewrite Hph.
    destruct e as [dt|[k ev|r]].
    + simpl in Hrace. unfold connect_tick. rewrite Ht.
      destruct (deadline <=? h_clock h + dt); [discriminate|].
      unfold health_after_connect; simpl. rewrite Hp.
      unfold health_tick; simpl.
      continue_from IH deadline; auto.
    + destruct k as [|k]; [|simpl in Hrace; now apply (IH h deadline)].
      destruct ev as [| |data|]; try discriminate.
      * pose proof (onerror_stalls (h_clock h) deadline _ Hc) as Hs.
        unfold health_after_connect; simpl. rewrite (proj1 Hs).
        apply health_stalled_run; auto.
      * simpl in Hrace.
        unfold connect_dispatch. rewrite Hws.
        unfold onmessage; simpl.
        unfold health_after_connect; simpl. rewrite Hp.
        continue_from IH deadline; auto; repeat split; simpl; eauto.
      * simpl in Hrace.
        unfold connect_dispatch. rewrite Hws.
        unfold onclose; simpl.
        unfold health_after_connect; simpl. rewrite Hp.
        continue_from IH deadline; auto; repeat split; simpl; auto;
          rewrite Hws; simpl; (eexists; split; [reflexivity|simpl; discriminate]).
    + simpl in Hrace. now apply (IH h deadline).
Qed.

Lemma ping_stalled_run (tr : list task) :
  forall p : Ping,
    pg_outcome p = Pending -> stalled (pg_conn p) -> never_opens tr ->
    pg_outcome (fold_left (ping_step 0) tr p) = Pending.
Proof.
  induction tr as [|e tr IH]; intros p Hout Hs Hno.
  - exact Hout.
  - apply never_opens_cons in Hno. destruct Hno as [He Hno].
    simpl fold_left. unfold ping_step at 2. rewrite Hout.
    destruct e as [dt|[[|k] ev|r]]; try (now apply IH).
    + rewrite (tick_stalled _ _ Hs).
      unfold ping_after_connect; simpl. rewrite (proj1 Hs).
      now apply IH.
    + assert (Hs' : stalled (connect_dispatch (pg_clock p) ev (pg_conn p)))
        by (apply dispatch_stalled; [exact Hs|intros ->; discriminate]).
      simpl Nat.eqb. cbv iota.
      unfold ping_after_connect; simpl. rewrite (proj1 Hs').
      now apply IH.
Qed.

Lemma ping_error_first_run (tr : list task) :
  forall (p : Ping) (deadline : Z),
    pg_outcome p = Pending ->
    still_connecting deadline (pg_conn p) ->
    connect_race deadline (pg_clock p) tr = ErrorFirst ->
    never_opens tr ->
    pg_outcome (fold_left (ping_step 0) tr p) = Pending.
Proof.
  induction tr as [|e tr IH]; intros p deadline Hout Hc Hrace Hno.
  - discriminate.
  - apply never_opens_cons in Hno. destruct Hno as [He Hno].
    pose proof Hc as (Hp & Ht & ws & Hws & Hr).
    simpl fold_left. unfold ping_step at 2. rewrite Hout.
    destruct e as [dt|[k ev|r]].
    + simpl in Hrace. unfold connect_tick. rewrite Ht.
      destruct (deadline <=? pg_clock p + dt); [discriminate|].
      unfold ping_after_connect; simpl. rewrite Hp.
      continue_from IH deadline; auto.
    + destruct k as [|k]; [|simpl in Hrace; now apply (IH p deadline)].
      simpl Nat.eqb. cbv iota.
      destruct ev as [| |data|]; try discriminate.
      * pose proof (onerror_stalls (pg_clock p) deadline _ Hc) as Hs.
        unfold ping_after_connect; simpl. rewrite (proj1 Hs).
        apply ping_stalled_run; auto.
      * simpl in Hrace.
        unfold connect_dispatch. rewrite Hws.
        unfold onmessage; simpl.
        unfold ping_after_connect; simpl. rewrite Hp.
        continue_from IH deadline; auto; repeat split; simpl; eauto.
      * simpl in Hrace.
        unfold connect_dispatch. rewrite Hws.
        unfold onclose; simpl.
        unfold ping_after_connect; simpl. rewrite Hp.
        continue_from IH deadline; auto; repeat split; simpl; auto;
          rewrite Hws; simpl; (eexists; split; [reflexivity|simpl; discriminate]).
    + simpl in Hrace. now apply (IH p deadline).
Qed.

Lemma publish_stalled_run (event : SignedEvent) (tr : list task) :
  forall p : Publish,
    pb_phase p = PublishConnecting -> stalled (pb_conn p) -> never_opens tr ->
    publish_outcome (fold_left (publish_step event) tr p) = Pending.
Proof.
  induction tr as [|e tr IH]; intros p Hph Hs Hno.
  - simpl. unfold publish_outcome. now rewrite Hph.
  - apply never_opens_cons in Hno. destruct Hno as [He Hno].
    simpl fold_left. unfold publish_step at 2. rewrite Hph.
    destruct e as [dt|[[|k] ev|r]]; try (now apply IH).
    + rewrite (tick_stalled _ _ Hs).
      unfold publish_after_connect; simpl. rewrite (proj1 Hs).
      unfold publish_tick; simpl. now apply IH.
    + assert (Hs' : stalled (connect_dispatch (pb_clock p) ev (pb_conn p)))
        by (apply dispatch_stalled; [exact Hs|intros ->; discriminate]).
      unfold publish_after_connect; simpl. rewrite (proj1 Hs').
      now apply IH.
Qed.

Lemma publish_error_first_run (event : SignedEvent) (tr : list task) :
  forall (p : Publish) (deadline : Z),
    pb_phase p = PublishConnecting ->
    still_connecting deadline (pb_conn p) ->
    connect_race deadline (pb_clock p) tr = ErrorFirst ->
    never_opens tr ->
    publish_outcome (fold_left (publish_step event) tr p) = Pending.
Proof.
  induction tr as [|e tr IH]; intros p deadline Hph Hc Hrace Hno.
  - discriminate.
  - apply never_opens_cons in Hno. destruct Hno as [He Hno].
    pose proof Hc as (Hp & Ht & ws & Hws & Hr).
    simpl fold_left. unfold publish_step at 2. rewrite Hph.
    destruct e as [dt|[k ev|r]].
    + simpl in Hrace. unfold connect_tick. rewrite Ht.
      destruct (deadline <=? pb_clock p + dt); [discriminate|].
      unfold publish_after_connect; simpl. rewrite Hp.
      unfold publish_tick; simpl.
      continue_from IH deadline; auto.
    + destruct k as [|k]; [|simpl in Hrace; now apply (IH p deadline)].
      destruct ev as [| |data|]; try discriminate.
      * pose proof (onerror_stalls (pb_clock p) deadline _ Hc) as Hs.
        unfold publish_after_connect; simpl. rewrite (proj1 Hs).
        apply publish_stalled_run; auto.
      * simpl in Hrace.
        unfold connect_dispatch. rewrite Hws.
        unfold onmessage; simpl.
        unfold publish_after_connect; simpl. rewrite Hp.
        continue_from IH deadline; auto; repeat split; simpl; eauto.
      * simpl in Hrace.
        unfold connect_dispatch. rewrite Hws.
        unfold onclose; simpl.
        unfold publish_after_connect; simpl. rewrite Hp.
        continue_from IH deadline; auto; repeat split; simpl; auto;
          rewrite Hws; simpl; (eexists; split; [reflexivity|simpl; discriminate]).
    + simpl in Hrace. now apply (IH p deadline).
Qed.

(** X5: when a socket error comes before the [open] event and the timeout,
    and the socket does not open afterwards, [healthCheckRelay], [pingRelay]
    and [publishEventToRelay] never settle: they neither return nor throw,
    however much time passes. *)
Theorem operations_never_settle_after_error
  (url : string) (event : SignedEvent) (t0 : Z) (tr : list task) :
  new_WebSocket url = None ->
  connect_race (t0 + 5000) t0 tr = ErrorFirst ->
  never_opens tr ->
  healthCheckRelay url t0 tr = Pending
  /\ pingRelay url t0 tr = Pending
  /\ publishEventToRelay url event t0 tr = Pending.
Proof.
  intros Hnew Hrace Hno.
  pose proof (connectToRelay_still_connecting url 5000 t0 ltac:(lia) Hnew) as Hc.
  assert (Hp : promise (connectToRelay url 5000 t0) = Pending) by apply Hc.
  repeat split.
  - unfold healthCheckRelay, health_run, healthCheckRelay_start.
    unfold health_after_connect; simpl. rewrite Hp.
    now apply (health_error_first_run tr _ (t0 + 5000)).
  - unfold pingRelay, ping_run, pingRelay_start.
    unfold ping_after_connect; simpl. rewrite Hp.
    now apply (ping_error_first_run tr _ (t0 + 5000)).
  - unfold publishEventToRelay, publish_run, publishEventToRelay_start.
    unfold publish_after_connect; simpl. rewrite Hp.
    now apply (publish_error_first_run event tr _ (t0 + 5000)).
Qed.

(** ** When the constructor throws *)

Lemma each_attempt_all_fail (now : Z) (random : nat -> Z) (a0 : Attempt) (e : thrown)
  (n : nat) :
  a_phase a0 = AttemptConnecting ->
  promise (a_conn a0) = Rejected e ->
  forall (k : nat) (s : Stress),
    each_attempt (fun i => attempt_after_connect now (random i)) k (repeat a0 n) s
    = (repeat (mkAttempt (a_connStartTime a0) (a_conn a0) AttemptDone) n,
       mkStress (s_clock s) (s_startTime s) (s_latencies s) (s_successCount s)
         (s_failCount s + Z.of_nat n) (s_attempts s)).
Proof.
  intros Hph Hp. induction n as [|n IH]; intros k s.
  - simpl. destruct s; simpl. now rewrite Z.add_0_r.
  - cbn [repeat each_attempt].
    unfold attempt_after_connect at 1. rewrite Hph, Hp.
    rewrite IH. simpl. do 2 f_equal. lia.
Qed.

Lemma stress_done_run (random : nat -> Z) (tr : list fan_task) (s : Stress) :
  forallb is_done (s_attempts s) = true ->
  fold_left (stress_step random) tr s = s.
Proof.
  intros Hd. induction tr as [|e tr IH]; simpl; [reflexivity|].
  unfold stress_step at 2. rewrite Hd. exact IH.
Qed.

Lemma all_done_repeat (a : Attempt) (n : nat) :
  is_done a = true -> forallb is_done (repeat a n) = true.
Proof. intros Ha. induction n as [|n IH]; simpl; [reflexivity|]. now rewrite Ha. Qed.

(** X6: when the [WebSocket] constructor throws on the address, nothing is
    awaited: [healthCheckRelay] returns an unhealthy result carrying the
    message of the exception, [pingRelay] rejects with that message behind
    "Ping failed: ", [publishEventToRelay] returns a failure with that
    message and latency 0, and [stressTestRelay] counts every attempt as
    failed, whatever happens afterwards (a count of 2^32 or more is refused
    by [Array.from] before any attempt is made). *)
Theorem constructor_failure_settles_at_once
  (url : string) (e : thrown) (event : SignedEvent) (n : number) (duration : Z)
  (random : nat -> Z) (t0 : Z) (tr : list task) (ftr : list fan_task) :
  new_WebSocket url = Some e ->
  healthCheckRelay url t0 tr = Fulfilled (unhealthy url t0 (error_message e))
  /\ pingRelay url t0 tr
     = Rejected (Err ("Ping failed: " ++ error_message e)%string)
  /\ publishEventToRelay url event t0 tr
     = Fulfilled
         (RelayPublishResult.mk url (JBool false) (NostrEvent.id event)
            (Some (JStr (error_message e))) t0 0)
  /\ stressTestRelay url n duration random t0 ftr
     = if 2 ^ 32 <=? ToLength n then Rejected RangeError
       else Fulfilled
              (StressTestResult.mk url n 0 (Z.of_nat (launched n)) (Num 0) 0).
Proof.
  intros Hnew. repeat split.
  - unfold healthCheckRelay, health_run, healthCheckRelay_start, connectToRelay.
    rewrite Hnew. unfold health_after_connect; simpl.
    now rewrite health_returned_run.
  - unfold pingRelay, ping_run, pingRelay_start, connectToRelay.
    rewrite Hnew. unfold ping_after_connect; simpl.
    now rewrite ping_settled_run by (simpl; discriminate).
  - unfold publishEventToRelay, publish_run, publishEventToRelay_start,
      connectToRelay.
    rewrite Hnew. unfold publish_after_connect; simpl.
    rewrite publish_returned_run by reflexivity.
    unfold publish_outcome; simpl. now rewrite Z.sub_diag.
  - unfold stressTestRelay, stress_run, stressTestRelay_start.
    destruct (2 ^ 32 <=? ToLength n); [reflexivity|].
    rewrite (each_attempt_all_fail t0 random _ e (launched n)) by
      (unfold connectToRelay; rewrite Hnew; reflexivity).
    unfold set_attempts; simpl.
    rewrite stress_done_run by (simpl; now apply all_done_repeat).
    simpl. rewrite all_done_repeat by reflexivity.
    now rewrite Z.sub_diag.
Qed.

(** ** healthCheckRelay: capabilities *)

Lemma health_after_connect_caps (h : Health) :
  h_phase h = HealthConnecting ->
  health_caps h ->
  (promise (h_conn h) = Fulfilled tt -> handed_over (h_conn h)) ->
  health_caps (health_after_connect h).
Proof.
  intros Hph Hcaps Hres. unfold health_caps in Hcaps. rewrite Hph in Hcaps.
  destruct Hcaps as (H1 & H2 & H3 & H4 & H5).
  unfold health_after_connect. rewrite Hph.
  destruct (promise (h_conn h)) as [|[]|err] eqn:Hp.
  - unfold health_caps. rewrite Hph. auto.
  - destruct (Hres eq_refl) as [Hst [[ws [Hws Hopen]] _]].
    rewrite Hst, Hws. unfold WebSocket.send. rewrite Hopen.
    unfold health_caps; simpl. rewrite H3. auto.
  - unfold health_caps, capabilities_follow_health; simpl.
    rewrite H1, H2, H3, H4, H5. auto.
Qed.

Lemma health_tick_caps (h : Health) :
  health_caps h -> health_caps (health_tick h).
Proof.
  intros Hcaps. unfold health_tick.
  destruct (h_phase h) as [|subId deadline| |] eqn:Hph; auto.
  destruct (deadline <=? h_clock h); auto.
  unfold health_caps in Hcaps. rewrite Hph in Hcaps.
  destruct Hcaps as (H1 & H2 & H3 & H4).
  destruct (RelayConnection.websocket (connection (h_conn h))) as [ws|];
    [|exact I].
  destruct (WebSocket.send _ ws); [|exact I].
  unfold health_caps, capabilities_follow_health; simpl.
  rewrite H1, H2. repeat split; auto. discriminate.
Qed.

Lemma health_step_caps (h : Health) (e : task) :
  health_inv h -> health_caps h -> health_caps (health_step h e).
Proof.
  intros Hinv Hcaps. unfold health_step.
  destruct (h_phase h) as [|subId deadline| |] eqn:Hph; auto.
  - unfold health_inv in Hinv. rewrite Hph in Hinv.
    destruct Hinv as [Hp _].
    assert (Hc0 : forall conn,
               health_caps (mkHealth (h_clock h) (h_startTime h) conn (h_result h)
                              HealthConnecting)).
    { intros conn. unfold health_caps in Hcaps |- *. simpl.
      now rewrite Hph in Hcaps. }
    destruct e as [dt|[k ev|r]]; auto.
    + apply health_tick_caps. apply health_after_connect_caps; auto.
      * unfold health_caps in Hcaps |- *. simpl. now rewrite Hph in Hcaps.
      * simpl. intros H. now apply tick_never_resolves in H.
    + destruct k as [|k]; auto.
      apply health_after_connect_caps; auto.
      simpl. now apply dispatch_resolves.
  - assert (Hc0 : forall clock conn,
               health_caps (mkHealth clock (h_startTime h) conn (h_result h)
                              (HealthReadTest subId deadline))).
    { intros clock conn. unfold health_caps in Hcaps |- *. simpl.
      now rewrite Hph in Hcaps. }
    destruct e as [dt|[k ev|r]]; auto.
    + apply health_tick_caps. unfold health_after_connect; simpl. apply Hc0.
    + destruct k as [|k]; auto.
      unfold health_after_connect; simpl. apply Hc0.
Qed.

Lemma health_run_caps (url : string) (t0 : Z) (tr : list task) :
  health_caps (health_run url t0 tr).
Proof.
  unfold health_run.
  assert (Hstart : health_inv (healthCheckRelay_start url t0)
                   /\ health_caps (healthCheckRelay_start url t0)).
  { split; [apply health_start_inv|].
    unfold healthCheckRelay_start. apply health_after_connect_caps.
    - reflexivity.
    - unfold health_caps; simpl. auto.
    - simpl. unfold connectToRelay.
      destruct (new_WebSocket url); simpl; discriminate. }
  revert Hstart. generalize (healthCheckRelay_start url t0).
  induction tr as [|e tr IH]; simpl; intros h [Hi Hc]; auto.
  apply IH. split; [now apply health_step_inv|now apply health_step_caps].
Qed.

(** X8: in every result [healthCheckRelay] returns, read and write support
    are not measured separately: [supportsRead] and [supportsWrite] both
    equal [isHealthy]; [latency] equals [responseTime], and both are 0 when
    the relay is unhealthy. *)
Theorem healthCheck_capabilities_follow_health
  (url : string) (t0 : Z) (tr : list task) (r : RelayHealthCheck.t) :
  healthCheckRelay url t0 tr = Fulfilled r ->
  capabilities_follow_health r.
Proof.
  unfold healthCheckRelay, health_outcome. intros H.
  pose proof (health_run_caps url t0 tr) as Hc. unfold health_caps in Hc.
  destruct (h_phase (health_run url t0 tr)); try discriminate.
  injection H as <-. exact Hc.
Qed.

(** ** publishEventToRelay: chatter and labels *)

Lemma race_without_chatter (id : string) (tr : list task) :
  forall deadline now,
    connect_race deadline now (without_chatter id tr) =
    match connect_race deadline now tr with
    | Opened t rest => Opened t (without_chatter id rest)
    | other => other
    end.
Proof.
  induction tr as [|e tr IH]; intros deadline now; [reflexivity|].
  destruct e as [dt|[[|k] ev|r]].
  - simpl. destruct (deadline <=? now + dt); [reflexivity|apply IH].
  - destruct ev as [| |[frame|]|]; simpl; try reflexivity; try apply IH.
    destruct (is_ack id frame); simpl; apply IH.
  - simpl. apply IH.
  - simpl. apply IH.
Qed.

Lemma first_ack_without_chatter (id : string) (tr : list task) :
  forall deadline now,
    first_ack id deadline now (without_chatter id tr) = first_ack id deadline now tr.
Proof.
  induction tr as [|e tr IH]; intros deadline now; [reflexivity|].
  destruct e as [dt|[[|k] ev|r]].
  - simpl. destruct (deadline <=? now + dt); [reflexivity|apply IH].
  - destruct ev as [| |[frame|]|]; simpl; try apply IH.
    destruct (is_ack id frame) eqn:Hack; simpl; [now rewrite Hack|apply IH].
  - simpl. apply IH.
  - simpl. apply IH.
Qed.

(** X9: unless a socket error comes first, frames that do not parse, frames
    that are not an acknowledgement for the payload's id and events of other
    sockets make no difference to what [publishEventToRelay] returns. *)
Theorem publish_ignores_chatter
  (url : string) (event : SignedEvent) (t0 : Z) (tr : list task) :
  connect_race (t0 + 5000) t0 tr <> ErrorFirst ->
  publishEventToRelay url event t0 (without_chatter (NostrEvent.id event) tr)
  = publishEventToRelay url event t0 tr.
Proof.
  intros Hrace.
  assert (Hrace' : connect_race (t0 + 5000) t0
                     (without_chatter (NostrEvent.id event) tr) <> ErrorFirst).
  { rewrite race_without_chatter.
    destruct (connect_race (t0 + 5000) t0 tr); congruence. }
  rewrite (publish_refines_decide url event t0 _ Hrace').
  rewrite (publish_refines_decide url event t0 _ Hrace).
  unfold decide. rewrite race_without_chatter.
  destruct (new_WebSocket url); [reflexivity|].
  destruct (connect_race (t0 + 5000) t0 tr); try reflexivity.
  now rewrite first_ack_without_chatter.
Qed.

Lemma publish_catch_labelled (url : string) (event : SignedEvent) (t0 : Z)
  (e : thrown) (p : Publish) :
  publish_labelled url event t0 p -> publish_labelled url event t0 (publish_catch e p).
Proof.
  intros (H1 & H2 & H3 & _). unfold publish_labelled, publish_catch; simpl.
  repeat split; auto. discriminate.
Qed.

Lemma publish_after_connect_labelled (url : string) (event : SignedEvent) (t0 : Z)
  (p : Publish) :
  publish_labelled url event t0 p ->
  publish_labelled url event t0 (publish_after_connect event p).
Proof.
  intros Hl. unfold publish_after_connect.
  destruct (pb_phase p) eqn:Hph; auto.
  destruct (promise (pb_conn p)); auto.
  - destruct (RelayConnection.status _); try now apply publish_catch_labelled.
    destruct (RelayConnection.websocket _); try now apply publish_catch_labelled.
    destruct (WebSocket.send _ _); try now apply publish_catch_labelled.
    destruct Hl as (H1 & H2 & H3 & _).
    repeat split; auto. discriminate.
  - now apply publish_catch_labelled.
Qed.

Lemma publish_step_labelled (url : string) (event : SignedEvent) (t0 : Z)
  (p : Publish) (e : task) :
  publish_labelled url event t0 p ->
  publish_labelled url event t0 (publish_step event p e).
Proof.
  intros Hl. unfold publish_step.
  assert (Hre : forall clock conn phase,
             phase <> PublishReturned ->
             publish_labelled url event t0
               (mkPublish clock (pb_startTime p) conn (pb_result p) phase)).
  { intros clock conn phase Hphase. destruct Hl as (H1 & H2 & H3 & _).
    repeat split; auto; simpl; congruence. }
  destruct (pb_phase p) as [|deadline|] eqn:Hph; auto.
  - destruct e as [dt|[[|k] ev|r]]; auto.
    + unfold publish_tick.
      pose proof (publish_after_connect_labelled url event t0 _
                    (Hre (pb_clock p + dt) (connect_tick (pb_clock p + dt) (pb_conn p))
                       PublishConnecting ltac:(discriminate))) as H.
      destruct (pb_phase (publish_after_connect event _)); auto.
      destruct (_ <=? _); auto. now apply publish_catch_labelled.
    + destruct ev; apply publish_after_connect_labelled; apply Hre; discriminate.
  - destruct e as [dt|[[|k] ev|r]]; auto.
    + unfold publish_after_connect; simpl. unfold publish_tick; simpl.
      destruct (deadline <=? pb_clock p + dt).
      * apply publish_catch_labelled. apply Hre. discriminate.
      * apply Hre. discriminate.
    + destruct ev as [| |data|];
        try (unfold publish_after_connect; simpl; apply Hre; discriminate).
      destruct data as [frame|]; [|simpl; apply Hre; discriminate].
      rewrite messageHandler_ack.
      destruct (is_ack _ frame); [|apply Hre; discriminate].
      destruct Hl as (H1 & H2 & H3 & _).
      repeat split; auto. simpl. discriminate.
Qed.

Lemma publish_run_labelled (url : string) (event : SignedEvent) (t0 : Z)
  (tr : list task) :
  publish_labelled url event t0 (publish_run url event t0 tr).
Proof.
  unfold publish_run.
  assert (Hstart : publish_labelled url event t0
                     (publishEventToRelay_start url event t0)).
  { unfold publishEventToRelay_start. apply publish_after_connect_labelled.
    repeat split. simpl. discriminate. }
  revert Hstart. generalize (publishEventToRelay_start url event t0).
  induction tr as [|e tr IH]; simpl; intros p Hp; auto.
  apply IH. now apply publish_step_labelled.
Qed.

Lemma Promise_all_labels (A T : Type) (f : nat -> A -> settled T) (label : T -> A)
  (l : list A) :
  (forall i a r, f i a = Fulfilled r -> label r = a) ->
  forall (k : nat) (results : list T),
    Promise_all (map_from f k l) = Fulfilled results ->
    map label results = l.
Proof.
  intros Hf. induction l as [|x l IH]; simpl; intros k results H.
  - now injection H as <-.
  - destruct (f k x) as [|v|e] eqn:Hx;
      destruct (Promise_all (map_from f (Datatypes.S k) l)) as [|vs|e'] eqn:Hrest;
      try discriminate.
    injection H as <-. simpl. f_equal; [now apply (Hf k)|now apply (IH (Datatypes.S k))].
Qed.

Lemma Promise_all_forall (A T : Type) (f : nat -> A -> settled T) (P : T -> Prop)
  (l : list A) :
  (forall i a r, f i a = Fulfilled r -> P r) ->
  forall (k : nat) (results : list T),
    Promise_all (map_from f k l) = Fulfilled results ->
    Forall P results.
Proof.
  intros Hf. induction l as [|x l IH]; simpl; intros k results H.
  - injection H as <-. constructor.
  - destruct (f k x) as [|v|e] eqn:Hx;
      destruct (Promise_all (map_from f (Datatypes.S k) l)) as [|vs|e'] eqn:Hrest;
      try discriminate.
    injection H as <-. constructor; [now apply (Hf k x)|now apply (IH (Datatypes.S k))].
Qed.

Lemma batch_as_promise_all (urls : list string) (event : SignedEvent) (t0 : Z)
  (tr : list fan_task) :
  batchPublishToRelays urls event t0 tr =
  Promise_all
    (map_from (fun i url => publishEventToRelay url event t0 (project i tr)) 0 urls).
Proof.
  unfold batchPublishToRelays, batch_run.
  now rewrite fan_run_units, map_from_map, map_map_from.
Qed.

(** X10: the results of [batchPublishToRelays] name the relays of the input,
    in the order of the input; each carries the id of the event, the clock
    reading of the call, and a message. *)
Theorem batch_results_are_labelled
  (urls : list string) (event : SignedEvent) (t0 : Z) (tr : list fan_task)
  (results : list RelayPublishResult.t) :
  batchPublishToRelays urls event t0 tr = Fulfilled results ->
  map RelayPublishResult.relay results = urls
  /\ Forall (fun r => RelayPublishResult.eventId r = NostrEvent.id event
                      /\ RelayPublishResult.timestamp r = t0
                      /\ RelayPublishResult.message r <> None) results.
Proof.
  rewrite batch_as_promise_all. intros H. split.
  - apply (Promise_all_labels _ _ _ RelayPublishResult.relay urls) with (k := 0%nat)
      (2 := H).
    intros i url r Hr. unfold publishEventToRelay, publish_outcome in Hr.
    pose proof (publish_run_labelled url event t0 (project i tr)) as (H1 & _).
    destruct (pb_phase _); try discriminate. now injection Hr as <-.
  - apply (Promise_all_forall _ _ _ _ urls) with (k := 0%nat) (2 := H).
    intros i url r Hr. unfold publishEventToRelay, publish_outcome in Hr.
    pose proof (publish_run_labelled url event t0 (project i tr))
      as (_ & H2 & H3 & H4).
    destruct (pb_phase _); try discriminate. injection Hr as <-. auto.
Qed.

(** ** getRelayInfo *)

Lemma info_error_keeps_nothing (url : string) (reply : fetch_reply) :
  RelayInfo.status (getRelayInfo url reply) = error ->
  RelayInfo.supported_nips (getRelayInfo url reply) = JUndefined.
Proof.
  unfold getRelayInfo.
  destruct reply as [e|status body]; simpl; auto.
  destruct ((200 <=? status) && (status <=? 299)); simpl; auto.
  destruct body as [data|e]; simpl; auto.
  destruct (js_get data "supported_nips"), (js_get data "software"),
    (js_get data "version"); simpl; auto; discriminate.
Qed.

(** X11: [getRelayInfo] never throws and reports a failure twice over: the
    status is [error] exactly when an error message is set, and otherwise it
    is [connected]; on failure nothing of the document is kept. *)
Theorem getRelayInfo_error_iff_message (url : string) (reply : fetch_reply) :
  RelayInfo.url (getRelayInfo url reply) = url
  /\ (RelayInfo.status (getRelayInfo url reply) = error
      <-> RelayInfo.errorMessage (getRelayInfo url reply) <> None)
  /\ (RelayInfo.status (getRelayInfo url reply) = connected
      <-> RelayInfo.errorMessage (getRelayInfo url reply) = None)
  /\ (RelayInfo.status (getRelayInfo url reply) = error ->
      RelayInfo.supported_nips (getRelayInfo url reply) = JUndefined
      /\ RelayInfo.software (getRelayInfo url reply) = JUndefined
      /\ RelayInfo.version (getRelayInfo url reply) = JUndefined).
Proof.
  unfold getRelayInfo.
  destruct reply as [e|status body]; simpl.
  - repeat split; auto; try discriminate; intros H; congruence.
  - destruct ((200 <=? status) && (status <=? 299)); simpl.
    + destruct body as [data|e]; simpl.
      * destruct (js_get data "supported_nips"), (js_get data "software"),
          (js_get data "version"); simpl;
          repeat split; auto; try discriminate; intros H; congruence.
      * repeat split; auto; try discriminate; intros H; congruence.
    + repeat split; auto; try discriminate; intros H; congruence.
Qed.

Lemma prefix_drop (p s : string) :
  String.prefix p s = true -> s = (p ++ drop (String.length p) s)%string.
Proof.
  revert s. induction p as [|a p IH]; intros s H.
  - reflexivity.
  - destruct s as [|b s]; [discriminate|].
    simpl in H. destruct (ascii_dec a b) as [Hab|]; [|discriminate].
    subst b. simpl. f_equal. now apply IH.
Qed.

Lemma prefix_app (p s : string) : String.prefix p (p ++ s) = true.
Proof.
  induction p as [|a p IH]; simpl.
  - now destruct s.
  - destruct (ascii_dec a a); [exact IH|congruence].
Qed.

Lemma occurs_found (pattern s : string) :
  occurs pattern s -> found pattern s = true.
Proof.
  intros (before & after & ->).
  induction before as [|c before IH].
  - change ("" ++ pattern ++ after)%string with (pattern ++ after)%string.
    destruct (pattern ++ after)%string eqn:E; cbn [found];
      rewrite <- E, prefix_app; reflexivity.
  - change (String c before ++ pattern ++ after)%string
      with (String c (before ++ pattern ++ after)).
    cbn [found]. rewrite IH. apply orb_true_r.
Qed.

Lemma replace_first_absent (pattern replacement s : string) :
  ~ occurs pattern s -> replace_first pattern replacement s = s.
Proof.
  induction s as [|c s IH]; intros Hno.
  - destruct pattern as [|a p]; [|reflexivity].
    exfalso. apply Hno. now exists ""%string, ""%string.
  - cbn [replace_first].
    destruct (String.prefix pattern (String c s)) eqn:Hp.
    + exfalso. apply Hno.
      exists ""%string, (drop (String.length pattern) (String c s)).
      now apply prefix_drop.
    + f_equal. apply IH. intros (before & after & ->). apply Hno.
      now exists (String c before), after.
Qed.

(** X12: the address [getRelayInfo] fetches: for a [wss://] address the
    scheme becomes [https://], for a [ws://] address it becomes [http://].
    Both rewrites look at the whole address, so behind the scheme the first
    [ws://] (respectively [wss://]) is rewritten too; an address that holds
    neither after its scheme is otherwise kept as it is. *)
Theorem httpUrl_translates_scheme (rest : string) :
  httpUrl ("wss://" ++ rest) = ("https://" ++ replace_first "ws://" "http://" rest)%string
  /\ httpUrl ("ws://" ++ rest) = ("http://" ++ replace_first "wss://" "https://" rest)%string
  /\ (~ occurs "ws://" rest -> httpUrl ("wss://" ++ rest) = ("https://" ++ rest)%string)
  /\ (~ occurs "wss://" rest -> httpUrl ("ws://" ++ rest) = ("http://" ++ rest)%string).
Proof.
  assert (Hnil : forall s, String.prefix "" s = true) by (now destruct s).
  assert (H1 : httpUrl ("wss://" ++ rest)
               = ("https://" ++ replace_first "ws://" "http://" rest)%string).
  { unfold httpUrl. cbn. rewrite Hnil. reflexivity. }
  assert (H2 : httpUrl ("ws://" ++ rest)
               = ("http://" ++ replace_first "wss://" "https://" rest)%string).
  { unfold httpUrl. cbn. rewrite Hnil. reflexivity. }
  repeat split; auto.
  - intros Hno. rewrite H1. now rewrite replace_first_absent.
  - intros Hno. rewrite H2. now rewrite replace_first_absent.
Qed.

(** ** testRelayCompliance: labels and capabilities *)

Lemma compliance_loop_labelled (url : string) (f : bool * bool * bool)
  (remaining : nat) :
  forall (i : nat) (c : Compliance),
    c_url c = url -> RelayTestResult.url (c_result c) = url ->
    flags (c_result c) = f ->
    compliance_labelled url f (compliance_loop remaining i c).
Proof.
  induction remaining as [|remaining IH]; intros i c Hu Hr Hf; simpl.
  - repeat split; auto.
  - destruct (pg_outcome (pingRelay_start (c_url c) (c_clock c)));
      [repeat split; auto|apply IH; auto|apply IH; auto].
Qed.

Lemma compliance_loop_not_fetching (remaining : nat) :
  forall (i : nat) (c : Compliance),
    c_phase (compliance_loop remaining i c) <> ComplianceFetching.
Proof.
  induction remaining as [|n IH]; intros i c; simpl; [discriminate|].
  destruct (pg_outcome _); [simpl; discriminate|apply IH|apply IH].
Qed.

Lemma compliance_step_labelled (url : string) (f : bool * bool * bool)
  (c : Compliance) (e : task) :
  c_phase c <> ComplianceFetching ->
  compliance_labelled url f c ->
  compliance_labelled url f (compliance_step c e)
  /\ c_phase (compliance_step c e) <> ComplianceFetching.
Proof.
  intros Hph (Hu & Hr & Hf). specialize (Hf Hph). unfold compliance_step.
  destruct (c_phase c) as [|i p|] eqn:Hphase; [congruence| |].
  - unfold compliance_after_ping.
    destruct (pg_outcome (ping_step i p e)).
    + split; [repeat split; auto|simpl; discriminate].
    + split; [apply compliance_loop_labelled; auto|].
      apply compliance_loop_not_fetching.
    + split; [apply compliance_loop_labelled; auto|].
      apply compliance_loop_not_fetching.
  - split; [repeat split; auto|]. now rewrite Hphase.
Qed.

Lemma compliance_labelled_run (url : string) (f : bool * bool * bool)
  (tr : list task) :
  forall c : Compliance,
    c_phase c <> ComplianceFetching ->
    compliance_labelled url f c ->
    compliance_labelled url f (fold_left compliance_step tr c).
Proof.
  induction tr as [|e tr IH]; simpl; intros c Hph Hl; auto.
  destruct (compliance_step_labelled url f c e Hph Hl) as [Hl' Hph'].
  now apply IH.
Qed.

Lemma compliance_after_info_labelled (url : string) (info : RelayInfo.t)
  (c : Compliance) :
  c_url c = url -> RelayTestResult.url (c_result c) = url ->
  flags (c_result c) = (false, false, false) ->
  compliance_labelled url (capabilities_of info) (compliance_after_info info c)
  /\ c_phase (compliance_after_info info c) <> ComplianceFetching.
Proof.
  intros Hu Hr Hf. unfold compliance_after_info, capabilities_of.
  destruct (truthy (RelayInfo.supported_nips info)).
  - destruct (js_includes (RelayInfo.supported_nips info) 1) as [a|],
      (js_includes (RelayInfo.supported_nips info) 42) as [b|],
      (js_includes (RelayInfo.supported_nips info) 45) as [d|];
      try (split; [repeat split; auto|simpl; discriminate]).
    split; [|apply compliance_loop_not_fetching].
    apply compliance_loop_labelled; auto.
  - split; [|apply compliance_loop_not_fetching].
    apply compliance_loop_labelled; auto.
Qed.

Lemma compliance_fetching_labelled (url : string) (tr : list task) :
  forall c : Compliance,
    c_phase c = ComplianceFetching ->
    c_url c = url -> RelayTestResult.url (c_result c) = url ->
    flags (c_result c) = (false, false, false) ->
    after_reply url tr (fold_left compliance_step tr c).
Proof.
  induction tr as [|e tr IH]; intros c Hph Hu Hr Hf.
  - repeat split; auto.
  - simpl fold_left. unfold compliance_step at 2. rewrite Hph.
    destruct e as [dt|[k ev|reply]].
    + match goal with
      | |- context [fold_left _ _ ?st] => apply (IH st); auto
      end.
    + apply IH; auto.
    + rewrite Hu.
      destruct (compliance_after_info_labelled url (getRelayInfo url reply) c
                  Hu Hr Hf) as [Hl Hnf].
      pose proof (compliance_labelled_run url _ tr _ Hnf Hl) as (H1 & H2 & H3).
      assert (Hnf' : c_phase (fold_left compliance_step tr
                               (compliance_after_info (getRelayInfo url reply) c))
                     <> ComplianceFetching).
      { clear - Hnf. revert Hnf.
        generalize (compliance_after_info (getRelayInfo url reply) c).
        induction tr as [|e tr IH]; simpl; intros c0 H0; auto.
        apply IH. unfold compliance_step.
        destruct (c_phase c0) as [|i p|] eqn:Hp0; [congruence| |now rewrite Hp0].
        unfold compliance_after_ping.
        destruct (pg_outcome _); [simpl; discriminate
                                 |apply compliance_loop_not_fetching
                                 |apply compliance_loop_not_fetching]. }
      unfold after_reply. cbn [first_reply]. repeat split; auto.
Qed.

Lemma compliance_run_after_reply (url : string) (t0 : Z) (tr : list task) :
  after_reply url tr (compliance_run url t0 tr).
Proof.
  unfold compliance_run. now apply compliance_fetching_labelled.
Qed.

(** X13: the result of [testRelayCompliance] names the relay it was asked
    about, and its three capability flags are those read from the first
    metadata reply: the pings that follow do not touch them, and when the
    metadata could not be used they are all false. *)
Theorem compliance_flags_come_from_metadata
  (url : string) (t0 : Z) (tr : list task) (r : RelayTestResult.t) :
  testRelayCompliance url t0 tr = Fulfilled r ->
  RelayTestResult.url r = url
  /\ exists reply,
       first_reply tr = Some reply
       /\ flags r = capabilities_of (getRelayInfo url reply).
Proof.
  unfold testRelayCompliance, compliance_outcome. intros H.
  pose proof (compliance_run_after_reply url t0 tr) as (_ & Hr & Hf).
  pose proof (compliance_run_after_metadata url t0 tr) as Hm.
  unfold after_metadata in Hm.
  destruct (c_phase (compliance_run url t0 tr)) eqn:Hph; try discriminate.
  injection H as <-. split; [exact Hr|].
  destruct (first_reply tr) as [reply|]; [|discriminate].
  exists reply. split; [reflexivity|apply Hf].
Qed.

Lemma compare_as_promise_all (urls : list string) (t0 : Z) (tr : list fan_task) :
  compareRelays urls t0 tr =
  Promise_all
    (map_from (fun i url => testRelayCompliance url t0 (project i tr)) 0 urls).
Proof.
  unfold compareRelays, compare_run.
  now rewrite fan_run_units, map_from_map, map_map_from.
Qed.

(** X15: the results of [compareRelays] name the relays of the input, in
    the order of the input, and each of them reports either 3 trials or,
    when the capability check threw, none. *)
Theorem compare_results_are_labelled
  (urls : list string) (t0 : Z) (tr : list fan_task)
  (results : list RelayTestResult.t) :
  compareRelays urls t0 tr = Fulfilled results ->
  map RelayTestResult.url results = urls
  /\ Forall (fun r => RelayTestResult.tested r = 3 \/ RelayTestResult.tested r = 0)
       results.
Proof.
  rewrite compare_as_promise_all. intros H. split.
  - apply (Promise_all_labels _ _ _ RelayTestResult.url urls) with (k := 0%nat)
      (2 := H).
    intros i url r Hr. unfold testRelayCompliance, compliance_outcome in Hr.
    pose proof (compliance_run_after_reply url t0 (project i tr)) as (_ & H2 & _).
    destruct (c_phase _); try discriminate. now injection Hr as <-.
  - apply (Promise_all_forall _ _ _ _ urls) with (k := 0%nat) (2 := H).
    intros i url r Hr. unfold testRelayCompliance, compliance_outcome in Hr.
    pose proof (compliance_run_after_metadata url t0 (project i tr)) as Hm.
    unfold after_metadata in Hm.
    destruct (c_phase (compliance_run url t0 (project i tr))) eqn:Hph;
      try discriminate.
    injection Hr as <-.
    destruct (first_reply (project i tr)); [|discriminate].
    destruct (answers_includes _).
    + destruct Hm as [_ Hm]. rewrite Hph in Hm. left. apply Hm.
    + destruct Hm as (_ & Hres & _). right. now rewrite Hres.
Qed.

(** ** monitorRelay: what reaches onLog *)

Lemma forwarded_app (a b : list observation) :
  forwarded (a ++ b) = forwarded a ++ forwarded b.
Proof.
  induction a as [|o a IH]; simpl; [reflexivity|].
  destruct o; simpl; now rewrite IH.
Qed.

Lemma forwarded_map (logs : list RelayLog.t) :
  forwarded (map CalledOnLog logs) = logs.
Proof. induction logs as [|l logs IH]; simpl; [reflexivity|now rewrite IH]. Qed.

Lemma checkLogs_seen (m : Monitor) :
  logs_seen (checkLogs m) = logs_seen m
  /\ m_phase (checkLogs m) = m_phase m
  /\ timeoutId (m_conn (checkLogs m)) = timeoutId (m_conn m)
  /\ promise (m_conn (checkLogs m)) = promise (m_conn m)
  /\ RelayConnection.websocket (connection (m_conn (checkLogs m)))
     = RelayConnection.websocket (connection (m_conn m)).
Proof.
  unfold checkLogs.
  destruct (m_checkLogs m) as [deadline|]; [|auto].
  destruct (deadline <=? m_clock m); [|auto].
  unfold logs_seen; simpl.
  rewrite forwarded_app, forwarded_map, app_nil_r. auto.
Qed.

Lemma monitor_step_watching (m : Monitor) (e : monitor_task) :
  watching m ->
  watching (monitor_step m e)
  /\ exists news,
       logs_seen (monitor_step m e) = logs_seen m ++ news
       /\ List.length news = (if is_logged e then 1 else 0)%nat.
Proof.
  intros (Hph & Ht & ws & Hws). unfold monitor_step.
  destruct e as [[dt|[[|k] ev|r]]|].
  - (* the clock moves: the interval may run *)
    rewrite (tick_stalled_timer _ _ Ht).
    unfold monitor_after_connect; simpl. rewrite Hph.
    match goal with |- context [checkLogs ?m0] =>
      destruct (checkLogs_seen m0) as (Hs & Hp' & Ht' & _ & Hw')
    end.
    split.
    + repeat split; [rewrite Hp'; reflexivity|rewrite Ht'; exact Ht|].
      rewrite Hw'. simpl. eauto.
    + exists []. rewrite Hs, app_nil_r. split; reflexivity.
  - rewrite Hph. unfold watching_dispatch.
    destruct ev as [| |data|]; simpl.
    + split.
      * unfold watching, connect_dispatch; simpl. rewrite Hws.
        unfold onopen, resolve; simpl.
        destruct (promise (m_conn m)); simpl; rewrite Hws; simpl; eauto.
      * unfold logs_seen, connect_dispatch; simpl. rewrite Hws.
        unfold onopen, resolve; simpl.
        destruct (promise (m_conn m)); simpl;
          (eexists; split; [now rewrite app_assoc|reflexivity]).
    + split.
      * unfold watching, observe; simpl. eauto.
      * exists []. unfold logs_seen, observe; simpl.
        rewrite forwarded_app, !app_nil_r. split; reflexivity.
    + split.
      * unfold watching, connect_dispatch; simpl. rewrite Hws. simpl. eauto.
      * unfold logs_seen, connect_dispatch; simpl. rewrite Hws. simpl.
        eexists; split; [now rewrite app_assoc|reflexivity].
    + split.
      * unfold watching; simpl. rewrite Hws. simpl. eauto.
      * exists []. unfold logs_seen; simpl.
        rewrite forwarded_app, !app_nil_r. split; reflexivity.
  - split; [repeat split; eauto|].
    exists []. rewrite app_nil_r. split; reflexivity.
  - split; [repeat split; eauto|].
    exists []. rewrite app_nil_r. split; reflexivity.
  - unfold cancel. rewrite Hph. split.
    + unfold watching, observe; simpl. rewrite Hws. simpl. eauto.
    + exists []. unfold logs_seen, observe; simpl.
      rewrite forwarded_app, !app_nil_r. split; reflexivity.
Qed.

Lemma monitor_watching_run (tr : list monitor_task) :
  forall m : Monitor,
    watching m ->
    watching (fold_left monitor_step tr m)
    /\ exists news,
         logs_seen (fold_left monitor_step tr m) = logs_seen m ++ news
         /\ List.length news = logged_tasks tr.
Proof.
  induction tr as [|e tr IH]; intros m Hw; simpl.
  - split; [exact Hw|]. exists []. rewrite app_nil_r. split; reflexivity.
  - destruct (monitor_step_watching m e Hw) as [Hw1 [n1 [Hs1 Hl1]]].
    destruct (IH _ Hw1) as [Hw2 [n2 [Hs2 Hl2]]].
    split; [exact Hw2|].
    exists (n1 ++ n2). rewrite Hs2, Hs1, app_assoc. split; [reflexivity|].
    rewrite length_app, Hl1, Hl2. unfold logged_tasks. simpl.
    destruct (is_logged e); simpl; lia.
Qed.

Lemma dispatch_resolves_disarms (now : Z) (e : ws_event) (c : Connect) :
  promise c = Pending ->
  promise (connect_dispatch now e c) = Fulfilled tt ->
  timeoutId (connect_dispatch now e c) = None.
Proof.
  intros Hp. unfold connect_dispatch.
  destruct (RelayConnection.websocket (connection c)); [|rewrite Hp; discriminate].
  destruct e; simpl; try (rewrite Hp; discriminate).
  intros _. unfold onopen, resolve; simpl. now rewrite Hp.
Qed.

Lemma monitor_after_connect_inv (m : Monitor) :
  m_phase m = MonitorConnecting ->
  (promise (m_conn m) = Fulfilled tt ->
   handed_over (m_conn m) /\ timeoutId (m_conn m) = None) ->
  monitor_inv (monitor_after_connect m).
Proof.
  intros Hph Hres. unfold monitor_after_connect. rewrite Hph.
  destruct (promise (m_conn m)) as [|[]|e] eqn:Hp.
  - unfold monitor_inv. now rewrite Hph.
  - destruct (Hres eq_refl) as [(_ & (ws & Hws & _) & _) Ht].
    unfold monitor_inv, watching; simpl. eauto.
  - exact I.
Qed.

Lemma checkLogs_inv (m : Monitor) :
  monitor_inv m -> monitor_inv (checkLogs m).
Proof.
  destruct (checkLogs_seen m) as (_ & Hp & Ht & Hpr & Hw).
  unfold monitor_inv, watching. rewrite Hp, Ht, Hpr, Hw. auto.
Qed.

Lemma monitor_step_inv (m : Monitor) (e : monitor_task) :
  monitor_inv m -> monitor_inv (monitor_step m e).
Proof.
  intros Hinv. unfold monitor_inv in Hinv.
  destruct (m_phase m) eqn:Hph.
  - unfold monitor_step.
    destruct e as [[dt|[[|k] ev|r]]|].
    + apply checkLogs_inv. apply monitor_after_connect_inv; simpl; auto.
      intros H. now apply tick_never_resolves in H.
    + rewrite Hph. apply monitor_after_connect_inv; simpl; auto.
      intros H. split; [now apply dispatch_resolves
                       |now apply dispatch_resolves_disarms].
    + unfold monitor_inv. now rewrite Hph.
    + unfold monitor_inv. now rewrite Hph.
    + unfold cancel, observe. rewrite Hph. unfold monitor_inv; simpl.
      now rewrite Hph.
  - destruct (monitor_step_watching m e Hinv) as [Hw _].
    unfold monitor_inv. now rewrite (proj1 Hw).
  - unfold monitor_step.
    destruct e as [[dt|[[|k] ev|r]]|].
    + apply checkLogs_inv. unfold monitor_after_connect; simpl. rewrite Hph.
      exact I.
    + rewrite Hph. unfold monitor_after_connect; simpl. exact I.
    + unfold monitor_inv. now rewrite Hph.
    + unfold monitor_inv. now rewrite Hph.
    + unfold cancel, observe. rewrite Hph. unfold monitor_inv; simpl.
      now rewrite Hph.
Qed.

Lemma monitor_run_inv (url : string) (t0 : Z) (tr : list monitor_task) :
  monitor_inv (monitorRelay url t0 tr).
Proof.
  unfold monitorRelay.
  assert (Hstart : monitor_inv (monitorRelay_start url t0)).
  { unfold monitorRelay_start. apply monitor_after_connect_inv; simpl; auto.
    unfold connectToRelay. destruct (new_WebSocket url); simpl; discriminate. }
  revert Hstart. generalize (monitorRelay_start url t0).
  induction tr as [|e tr IH]; simpl; intros m Hm; auto.
  apply IH. now apply monitor_step_inv.
Qed.

(** X16: once a monitored session is established, polling neither loses nor
    repeats nor reorders log entries: what was handed to [onLog], followed
    by what still waits in the log, only ever grows at its end, by one entry
    for each frame received (and each [open] event).  Socket errors, the
    [close] event and cancelling leave no entry. *)
Theorem monitor_forwards_each_entry_once
  (url : string) (t0 : Z) (before after : list monitor_task) :
  m_phase (monitorRelay url t0 before) = MonitorWatching ->
  exists news,
    logs_seen (monitorRelay url t0 (before ++ after))
    = logs_seen (monitorRelay url t0 before) ++ news
    /\ List.length news = logged_tasks after.
Proof.
  intros Hph.
  pose proof (monitor_run_inv url t0 before) as Hinv.
  unfold monitor_inv in Hinv. rewrite Hph in Hinv.
  unfold monitorRelay in *. rewrite fold_left_app.
  now apply monitor_watching_run.
Qed.

Lemma monitor_silent_run (tr : list monitor_task) :
  forall m : Monitor,
    watching m -> m_checkLogs m = None ->
    forwarded (m_calls (fold_left monitor_step tr m)) = forwarded (m_calls m).
Proof.
  induction tr as [|e tr IH]; intros m Hw Hc; simpl; [reflexivity|].
  destruct (monitor_step_watching m e Hw) as [Hw1 _].
  assert (H1 : m_checkLogs (monitor_step m e) = None
               /\ forwarded (m_calls (monitor_step m e)) = forwarded (m_calls m)).
  { destruct Hw as (Hph & Ht & ws & Hws). unfold monitor_step.
    destruct e as [[dt|[[|k] ev|r]]|]; auto.
    - rewrite (tick_stalled_timer _ _ Ht).
      unfold monitor_after_connect; simpl. rewrite Hph.
      unfold checkLogs; simpl. rewrite Hc. auto.
    - rewrite Hph. unfold watching_dispatch.
      destruct ev; simpl; auto;
        unfold observe; simpl; rewrite ?forwarded_app, ?app_nil_r; auto.
    - unfold cancel, observe. rewrite Hph. simpl.
      rewrite forwarded_app, app_nil_r. auto. }
  destruct H1 as [Hc1 Hf1]. rewrite IH; auto.
Qed.

(** X17: after the [close] event of an established monitored session no
    further call to [onLog] is made, whatever follows; entries that were
    still waiting to be polled at that moment are never forwarded. *)
Theorem monitor_silent_after_close
  (url : string) (t0 : Z) (before after : list monitor_task) :
  m_phase (monitorRelay url t0 before) = MonitorWatching ->
  forwarded (m_calls (monitorRelay url t0
                        (before ++ Env (Io (Ws 0 Close)) :: after)))
  = forwarded (m_calls (monitorRelay url t0 before)).
Proof.
  intros Hph.
  pose proof (monitor_run_inv url t0 before) as Hinv.
  unfold monitor_inv in Hinv. rewrite Hph in Hinv.
  unfold monitorRelay in *. rewrite fold_left_app. cbn [fold_left].
  revert Hph Hinv.
  generalize (fold_left monitor_step before (monitorRelay_start url t0)).
  intros m Hph Hinv.
  destruct (monitor_step_watching _ (Env (Io (Ws 0 Close))) Hinv) as [Hw _].
  assert (Hc : m_checkLogs (monitor_step m (Env (Io (Ws 0 Close)))) = None).
  { unfold monitor_step. now rewrite Hph. }
  rewrite (monitor_silent_run after _ Hw Hc).
  unfold monitor_step. rewrite Hph. simpl.
  now rewrite forwarded_app, app_nil_r.
Qed.

Lemma reports_app (a b : list observation) :
  reports (a ++ b) = reports a ++ reports b.
Proof. unfold reports. apply filter_app. Qed.

Lemma monitor_after_connect_failure (m : Monitor) :
  failure_inv m -> failure_inv (monitor_after_connect m).
Proof.
  unfold failure_inv, monitor_after_connect.
  destruct (m_phase m) eqn:Hph; [|now rewrite Hph..].
  intros [Hc Hr].
  destruct (promise (m_conn m)) as [|[]|e] eqn:Hp; simpl.
  - rewrite Hph. auto.
  - exact I.
  - split; [exact Hc|]. exists (m_clock m), e.
    split; [exact Hp|]. now rewrite reports_app, Hr.
Qed.

Lemma monitor_step_failure (m : Monitor) (e : monitor_task) :
  failure_inv m -> failure_inv (monitor_step m e).
Proof.
  intros Hinv. unfold monitor_step.
  destruct e as [[dt|[[|k] ev|r]]|]; auto.
  - assert (H : failure_inv
                  (monitor_after_connect
                     (mkMonitor (m_clock m + dt)
                        (connect_tick (m_clock m + dt) (m_conn m))
                        (m_phase m) (m_checkLogs m) (m_calls m)))).
    { apply monitor_after_connect_failure.
      unfold failure_inv in *; simpl.
      destruct (m_phase m); auto.
      destruct Hinv as (Hc & clock & e & Hp & Hr).
      split; [exact Hc|]. exists clock, e. split; [|exact Hr].
      rewrite tick_keeps_settled; [exact Hp|congruence]. }
    revert H. generalize (monitor_after_connect
                     (mkMonitor (m_clock m + dt)
                        (connect_tick (m_clock m + dt) (m_conn m))
                        (m_phase m) (m_checkLogs m) (m_calls m))).
    intros m' H. unfold checkLogs.
    destruct (m_checkLogs m') as [deadline|] eqn:Hc; [|exact H].
    destruct (deadline <=? m_clock m'); [|exact H].
    unfold failure_inv in *; simpl.
    destruct (m_phase m'); auto; destruct H as [H _]; congruence.
  - destruct (m_phase m) eqn:Hph.
    + apply monitor_after_connect_failure.
      unfold failure_inv in *; simpl. now rewrite Hph in *.
    + unfold failure_inv, watching_dispatch.
      destruct ev; simpl; now rewrite Hph.
    + apply monitor_after_connect_failure.
      unfold failure_inv in *; simpl. rewrite Hph in *.
      destruct Hinv as (Hc & clock & e & Hp & Hr).
      split; [exact Hc|]. exists clock, e. split; [|exact Hr].
      rewrite dispatch_keeps_settled; [exact Hp|congruence].
  - unfold cancel, observe, failure_inv in *.
    destruct (m_phase m) eqn:Hph; simpl; rewrite ?Hph; auto;
      rewrite reports_app; simpl; rewrite app_nil_r; exact Hinv.
Qed.

Lemma monitor_run_failure (url : string) (t0 : Z) (tr : list monitor_task) :
  failure_inv (monitorRelay url t0 tr).
Proof.
  unfold monitorRelay.
  assert (Hstart : failure_inv (monitorRelay_start url t0)).
  { unfold monitorRelay_start. apply monitor_after_connect_failure.
    unfold failure_inv; simpl. auto. }
  revert Hstart. generalize (monitorRelay_start url t0).
  induction tr as [|e tr IH]; simpl; intros m Hm; auto.
  apply IH. now apply monitor_step_failure.
Qed.

(** ** testRelayCompliance, task by task *)

Lemma ping_trials_under_way (url : string) (remaining k : nat) (now : Z)
  (tr : list task) (latencies : list Z) :
  new_WebSocket url = None ->
  ping_trials url (S remaining) k now tr latencies
  = ping_under_way url remaining k now now tr latencies.
Proof. intros Hnew. unfold ping_under_way. simpl. now rewrite Hnew. Qed.

Lemma pingRelay_start_connecting (url : string) (now : Z) :
  new_WebSocket url = None ->
  pg_outcome (pingRelay_start url now) = Pending
  /\ pg_clock (pingRelay_start url now) = now
  /\ pg_startTime (pingRelay_start url now) = now
  /\ still_connecting (now + 5000) (pg_conn (pingRelay_start url now)).
Proof.
  intros Hnew. unfold pingRelay_start, connectToRelay. rewrite Hnew.
  unfold ping_after_connect; simpl. repeat split.
  eexists; split; [reflexivity|]. simpl. discriminate.
Qed.

Lemma pingRelay_start_rejected (url : string) (now : Z) (e : thrown) :
  new_WebSocket url = Some e ->
  exists e', pg_outcome (pingRelay_start url now) = Rejected e'.
Proof.
  intros Hnew. unfold pingRelay_start, connectToRelay. rewrite Hnew.
  unfold ping_after_connect; simpl. eauto.
Qed.

Lemma compliance_loop_run (url : string) (tr : list task) :
  (new_WebSocket url = None -> pinging_refines url tr) ->
  forall (remaining k : nat) (c : Compliance),
    c_url c = url ->
    (k + remaining = 3)%nat ->
    c_successCount c = Z.of_nat (List.length (c_latencies c)) ->
    ping_trials url remaining k (c_clock c) tr (c_latencies c) <> TrialsStalled ->
    compliance_outcome (fold_left compliance_step tr (compliance_loop remaining k c))
    = trials_outcome (c_result c)
        (ping_trials url remaining k (c_clock c) tr (c_latencies c)).
Proof.
  intros Hping.
  assert (Hfinish : forall c : Compliance,
             c_successCount c = Z.of_nat (List.length (c_latencies c)) ->
             compliance_outcome (fold_left compliance_step tr (compliance_finish c))
             = trials_outcome (c_result c) (TrialsDone (c_latencies c))).
  { intros c Hs. rewrite compliance_returned_run by reflexivity.
    unfold compliance_outcome, compliance_finish; simpl.
    now rewrite Hs. }
  destruct (new_WebSocket url) as [e|] eqn:Hnew.
  - clear Hping. induction remaining as [|remaining IH]; intros k c Hu Hk Hs Hno.
    + simpl. now apply Hfinish.
    + simpl. rewrite Hu, Hnew.
      destruct (pingRelay_start_rejected url (c_clock c) e Hnew) as [e' ->].
      rewrite (IH (Datatypes.S k)); simpl; auto; try lia.
      simpl in Hno. now rewrite Hnew in Hno.
  - specialize (Hping eq_refl).
    intros [|remaining] k c Hu Hk Hs Hno.
    + simpl. now apply Hfinish.
    + rewrite ping_trials_under_way in Hno |- * by exact Hnew.
      destruct (pingRelay_start_connecting url (c_clock c) Hnew)
        as (Hout & Hclock & Hstart & Hc).
      cbn [compliance_loop]. rewrite Hu, Hout.
      match goal with
      | |- compliance_outcome (fold_left _ _ ?st) = _ =>
          pose proof (Hping st k remaining (pingRelay_start url (c_clock c))) as H
      end.
      simpl in H. rewrite Hstart in H. now apply H.
Qed.

Lemma compliance_pinging_run (url : string) (tr : list task) :
  new_WebSocket url = None -> pinging_refines url tr.
Proof.
  intros Hnew.
  induction tr as [|e tr IH];
    intros c i remaining p Hu Hph Hi Hout Hclock Hc Hs Hno.
  - simpl. unfold compliance_outcome. now rewrite Hph.
  - pose proof (compliance_loop_run url tr (fun _ => IH)) as Hloop.
    destruct Hc as (Hp & Ht & ws & Hws & Hr).
    assert (Hrem : (Z.to_nat testCount - Datatypes.S i)%nat = remaining)
      by (change (Z.to_nat testCount) with 3%nat; lia).
    simpl fold_left. unfold compliance_step at 2. rewrite Hph.
    unfold ping_under_way in Hno |- *.
    destruct e as [dt|[k ev|reply]].
    + (* the clock moves: the ping may time out *)
      unfold ping_step. rewrite Hout. unfold connect_tick. rewrite Ht, Hclock.
      cbn [ping_race] in Hno |- *.
      destruct (pg_startTime p + 5000 <=? c_clock c + dt).
      * unfold ontimeout; simpl. rewrite Hws.
        replace (ReadyState_eqb (WebSocket.readyState ws) OPEN) with false
          by (destruct (WebSocket.readyState ws); simpl; congruence).
        unfold reject; simpl. rewrite Hp.
        unfold ping_after_connect; simpl.
        unfold compliance_after_ping, ping_catch. cbn [pg_outcome]. rewrite Hrem.
        apply (Hloop remaining (Datatypes.S i)); simpl; auto; lia.
      * unfold ping_after_connect; simpl. rewrite Hp.
        unfold compliance_after_ping; simpl.
        match goal with
        | |- compliance_outcome (fold_left _ _ ?st) = _ =>
            apply (IH st i remaining
                     (mkPing (c_clock c + dt) (pg_startTime p) (pg_conn p) Pending))
        end; simpl; auto.
        repeat split; eauto.
    + unfold ping_step. rewrite Hout. cbn [ping_race] in Hno |- *.
      destruct (Nat.eqb k i).
      * destruct ev as [| |data|].
        -- (* open: the ping succeeds *)
           unfold connect_dispatch. rewrite Hws.
           unfold onopen, resolve; simpl. rewrite Hp.
           unfold ping_after_connect; simpl.
           unfold compliance_after_ping. cbn [pg_outcome]. rewrite Hrem.
           rewrite Hclock.
           apply (Hloop remaining (Datatypes.S i)); simpl; auto; try lia.
           rewrite length_app. simpl. lia.
        -- congruence.
        -- unfold connect_dispatch. rewrite Hws.
           unfold onmessage; simpl.
           unfold ping_after_connect; simpl. rewrite Hp.
           unfold compliance_after_ping; simpl.
           match goal with
           | |- compliance_outcome (fold_left _ _ ?st) = _ =>
               apply (IH st i remaining
                        (mkPing (pg_clock p) (pg_startTime p)
                           (on_connection
                              (fun k0 =>
                                 RelayConnection.push_log
                                   (RelayLog.mk (pg_clock p) log_received
                                      "Message received" (FrameData data))
                                   (RelayConnection.set_lastActivity (pg_clock p)
                                      (RelayConnection.incr_messageCount k0)))
                              (pg_conn p))
                           Pending))
           end; simpl; auto.
           repeat split; simpl; eauto.
        -- unfold connect_dispatch. rewrite Hws.
           unfold onclose; simpl.
           unfold ping_after_connect; simpl. rewrite Hp.
           unfold compliance_after_ping; simpl.
           match goal with
           | |- compliance_outcome (fold_left _ _ ?st) = _ =>
               match st with
               | context [CompliancePinging _ ?p'] => apply (IH st i remaining p')
               end
           end; simpl; auto.
           repeat split; simpl; auto. rewrite Hws; simpl.
           eexists; split; [reflexivity|]. simpl. discriminate.
      * unfold compliance_after_ping. rewrite Hout.
        match goal with
        | |- compliance_outcome (fold_left _ _ ?st) = _ =>
            apply (IH st i remaining p)
        end; simpl; auto.
        repeat split; eauto.
    + unfold ping_step. rewrite Hout.
      unfold compliance_after_ping. rewrite Hout.
      cbn [ping_race] in Hno |- *.
      match goal with
      | |- compliance_outcome (fold_left _ _ ?st) = _ =>
          apply (IH st i remaining p)
      end; simpl; auto.
      repeat split; eauto.
Qed.

Lemma trials_outcome_measured (url : string) (nip01 auth count : bool) (t : trials) :
  trials_outcome
    (RelayTestResult.set_capabilities nip01 auth count (untested url)) t
  = match t with
    | TrialsDone latencies => Fulfilled (measured url (nip01, auth, count) latencies)
    | _ => Pending
    end.
Proof. destruct t; reflexivity. Qed.

Lemma metadata_first_reply (tr : list task) :
  forall (now : Z) (reply : fetch_reply) (clock : Z) (rest : list task),
    metadata_arrives now tr = Some (reply, clock, rest) ->
    first_reply tr = Some reply.
Proof.
  induction tr as [|e tr IH]; intros now reply clock rest H; [discriminate|].
  destruct e as [dt|[k ev|r]]; simpl in H |- *.
  - now apply (IH (now + dt) reply clock rest).
  - now apply (IH now reply clock rest).
  - now injection H as -> _ _.
Qed.

Lemma compliance_fetching_refines (url : string) (tr : list task) :
  forall c : Compliance,
    c_phase c = ComplianceFetching ->
    c_url c = url -> c_result c = untested url ->
    c_latencies c = [] -> c_successCount c = 0 ->
    no_ping_stalls url (c_clock c) tr ->
    compliance_outcome (fold_left compliance_step tr c)
    = compliance_decided url (c_clock c) tr.
Proof.
  induction tr as [|e tr IH]; intros c Hph Hu Hr Hl Hs Hno.
  - simpl. unfold compliance_outcome. now rewrite Hph.
  - simpl fold_left. unfold compliance_step at 2. rewrite Hph.
    unfold no_ping_stalls, compliance_decided in *.
    destruct e as [dt|[k ev|reply]]; cbn [metadata_arrives] in Hno |- *.
    + match goal with
      | |- compliance_outcome (fold_left _ _ ?st) = _ => apply (IH st); auto
      end.
    + now apply IH.
    + unfold compliance_trials in Hno. unfold compliance_after_info, capabilities_of.
      rewrite Hu. cbv zeta.
      pose proof (compliance_loop_run url tr (compliance_pinging_run url tr))
        as Hloop.
      destruct (answers_includes (RelayInfo.supported_nips (getRelayInfo url reply)))
        eqn:Hans.
      * destruct (truthy (RelayInfo.supported_nips (getRelayInfo url reply)))
          eqn:Htr.
        -- destruct (includes_answered _ 1 Hans Htr) as [b1 ->].
           destruct (includes_answered _ 42 Hans Htr) as [b2 ->].
           destruct (includes_answered _ 45 Hans Htr) as [b3 ->].
           rewrite Hloop; simpl; auto; rewrite ?Hl, ?Hr; auto;
             try apply trials_outcome_measured.
        -- rewrite Hloop; simpl; auto; rewrite ?Hl, ?Hr; auto;
             try apply (trials_outcome_measured url false false false).
      * destruct (includes_unanswered _ 1 Hans) as [Htr H1].
        rewrite Htr, H1.
        rewrite compliance_returned_run by reflexivity.
        unfold compliance_outcome; simpl. now rewrite Hr.
Qed.

Lemma compliance_refines (url : string) (t0 : Z) (tr : list task) :
  no_ping_stalls url t0 tr ->
  testRelayCompliance url t0 tr = compliance_decided url t0 tr.
Proof.
  intros Hno. unfold testRelayCompliance, compliance_run.
  now apply (compliance_fetching_refines url tr (testRelayCompliance_start url t0)).
Qed.

(** ** stressTestRelay, attempt by attempt *)

Lemma each_attempt_attempts (f : nat -> Attempt -> Attempt * effect)
  (attempts : list Attempt) :
  forall (i : nat) (s : Stress),
    fst (each_attempt f i attempts s) = map_from (fun j a => fst (f j a)) i attempts.
Proof.
  induction attempts as [|a rest IH]; intros i s; simpl; [reflexivity|].
  destruct (f i a) as [a' eff]. simpl.
  specialize (IH (Datatypes.S i) (apply_effect eff s)).
  destruct (each_attempt f (Datatypes.S i) rest (apply_effect eff s)) as [rest' s'].
  simpl in *. now rewrite IH.
Qed.

Lemma each_attempt_clock (f : nat -> Attempt -> Attempt * effect)
  (attempts : list Attempt) :
  forall (i : nat) (s : Stress),
    s_clock (snd (each_attempt f i attempts s)) = s_clock s.
Proof.
  induction attempts as [|a rest IH]; intros i s; simpl; [reflexivity|].
  destruct (f i a) as [a' eff].
  specialize (IH (Datatypes.S i) (apply_effect eff s)).
  destruct (each_attempt f (Datatypes.S i) rest (apply_effect eff s)) as [rest' s'].
  simpl in *. rewrite IH. now destruct eff.
Qed.

Lemma map_from_map_from (A B C : Type) (f : nat -> B -> C) (g : nat -> A -> B)
  (l : list A) :
  forall i, map_from f i (map_from g i l) = map_from (fun j a => f j (g j a)) i l.
Proof.
  induction l as [|x l IH]; intros i; simpl; [reflexivity|]. now rewrite IH.
Qed.

Lemma map_from_ext_in (A B : Type) (f g : nat -> A -> B) (l : list A) :
  forall k,
    (forall i a, nth_error l i = Some a -> f (k + i)%nat a = g (k + i)%nat a) ->
    map_from f k l = map_from g k l.
Proof.
  induction l as [|x l IH]; intros k H; simpl; [reflexivity|]. f_equal.
  - specialize (H 0%nat x eq_refl). now rewrite Nat.add_0_r in H.
  - apply IH. intros i a Hi. specialize (H (Datatypes.S i) a Hi).
    now replace (Datatypes.S k + i)%nat with (k + Datatypes.S i)%nat by lia.
Qed.

Lemma attempt_done_run (hold : Z) (tr : list task) :
  forall (clock : Z) (a : Attempt),
    a_phase a = AttemptDone ->
    snd (fold_left (attempt_step hold) tr (clock, a)) = a.
Proof.
  induction tr as [|e tr IH]; intros clock a Hd; simpl; [reflexivity|].
  destruct e as [dt|[[|k] ev|r]]; simpl; try (now apply IH).
  - unfold attempt_tick. rewrite Hd. simpl. now apply IH.
  - unfold attempt_dispatch. rewrite Hd. simpl. now apply IH.
Qed.

Lemma all_done_units (h : nat -> Z) (T : nat -> list task) (clock : Z)
  (attempts : list Attempt) :
  forallb is_done attempts = true ->
  forall k,
    map_from (fun i a => snd (fold_left (attempt_step (h i)) (T i) (clock, a)))
      k attempts
    = attempts.
Proof.
  induction attempts as [|a rest IH]; intros Hd k; simpl; [reflexivity|].
  simpl in Hd. apply andb_true_iff in Hd. destruct Hd as [Ha Hrest].
  rewrite IH by exact Hrest. f_equal. apply attempt_done_run.
  unfold is_done in Ha. now destruct (a_phase a).
Qed.

(** Every attempt runs as if it were alone on the tasks meant for it. *)
Lemma stress_attempts_run (random : nat -> Z) (tr : list fan_task) :
  forall s : Stress,
    s_attempts (fold_left (stress_step random) tr s)
    = map_from
        (fun i a =>
           snd (fold_left (attempt_step (random i)) (project i tr) (s_clock s, a)))
        0 (s_attempts s).
Proof.
  induction tr as [|e tr IH]; intros s.
  - simpl. now rewrite map_from_id.
  - simpl fold_left.
    destruct (forallb is_done (s_attempts s)) eqn:Hdone.
    + unfold stress_step at 2. rewrite Hdone.
      rewrite stress_done_run by exact Hdone.
      now rewrite all_done_units.
    + rewrite IH. unfold stress_step. rewrite Hdone.
      destruct e as [dt|j [[|k] ev|r]].
      * pose proof (each_attempt_attempts
                      (fun i => attempt_tick (s_clock s + dt) (random i))
                      (s_attempts s) 0%nat (set_clock (s_clock s + dt) s)) as Ha.
        pose proof (each_attempt_clock
                      (fun i => attempt_tick (s_clock s + dt) (random i))
                      (s_attempts s) 0%nat (set_clock (s_clock s + dt) s)) as Hc.
        destruct (each_attempt _ 0%nat (s_attempts s) _) as [attempts' s'].
        simpl in Ha, Hc |- *. rewrite Ha, Hc, map_from_map_from.
        reflexivity.
      * pose proof (each_attempt_attempts
                      (fun j0 a =>
                         if Nat.eqb j0 j
                         then attempt_dispatch (s_clock s) (random j0) ev a
                         else (a, NoEffect))
                      (s_attempts s) 0%nat s) as Ha.
        pose proof (each_attempt_clock
                      (fun j0 a =>
                         if Nat.eqb j0 j
                         then attempt_dispatch (s_clock s) (random j0) ev a
                         else (a, NoEffect))
                      (s_attempts s) 0%nat s) as Hc.
        destruct (each_attempt _ 0%nat (s_attempts s) s) as [attempts' s'].
        simpl in Ha, Hc |- *. rewrite Ha, Hc, map_from_map_from.
        apply map_from_ext. intros i a. rewrite (Nat.eqb_sym j i).
        now destruct (Nat.eqb i j).
      * apply map_from_ext. intros i a. simpl.
        now destruct (Nat.eqb j i).
      * apply map_from_ext. intros i a. simpl.
        now destruct (Nat.eqb j i).
Qed.

Lemma attempt_holding_run (hold : Z) (tr : list task) :
  forall (clock deadline : Z) (a : Attempt),
    a_phase a = AttemptHolding deadline ->
    is_done (snd (fold_left (attempt_step hold) tr (clock, a)))
    = timer_fires deadline clock tr.
Proof.
  induction tr as [|e tr IH]; intros clock deadline a Hph.
  - simpl. unfold is_done. now rewrite Hph.
  - simpl fold_left.
    destruct e as [dt|[[|k] ev|r]]; simpl; try (now apply IH).
    + unfold attempt_tick. rewrite Hph.
      unfold attempt_after_connect; simpl. unfold attempt_release; simpl.
      destruct (deadline <=? clock + dt); simpl.
      * rewrite attempt_done_run by reflexivity. reflexivity.
      * now apply IH.
    + unfold attempt_dispatch. rewrite Hph.
      unfold attempt_after_connect; simpl. now apply IH.
Qed.

Lemma attempt_connecting_run (hold : Z) (tr : list task) :
  forall (clock deadline : Z) (a : Attempt),
    a_phase a = AttemptConnecting ->
    still_connecting deadline (a_conn a) ->
    connect_race deadline clock tr <> ErrorFirst ->
    is_done (snd (fold_left (attempt_step hold) tr (clock, a)))
    = match connect_race deadline clock tr with
      | StillConnecting | ErrorFirst => false
      | TimedOut _ => true
      | Opened t rest => timer_fires (t + hold) t rest
      end.
Proof.
  induction tr as [|e tr IH]; intros clock deadline a Hph Hc Hrace.
  - simpl. unfold is_done. now rewrite Hph.
  - destruct Hc as (Hp & Ht & ws & Hws & Hr).
    simpl fold_left.
    destruct e as [dt|[k ev|r]].
    + simpl in Hrace |- *. unfold attempt_tick. rewrite Hph.
      unfold connect_tick. rewrite Ht.
      destruct (deadline <=? clock + dt).
      * unfold ontimeout; simpl. rewrite Hws.
        replace (ReadyState_eqb (WebSocket.readyState ws) OPEN) with false
          by (destruct (WebSocket.readyState ws); simpl; congruence).
        unfold reject; simpl. rewrite Hp.
        unfold attempt_after_connect; simpl.
        rewrite attempt_done_run by reflexivity. reflexivity.
      * unfold attempt_after_connect; simpl. rewrite Hp.
        unfold attempt_release; simpl.
        apply IH; simpl; auto. repeat split; eauto.
    + destruct k as [|k]; [|simpl in Hrace |- *; apply IH; auto; repeat split; eauto].
      simpl attempt_step. unfold attempt_dispatch. rewrite Hph.
      destruct ev as [| |data|].
      * cbn [connect_race].
        unfold connect_dispatch. rewrite Hws.
        unfold onopen, resolve; simpl. rewrite Hp.
        unfold attempt_after_connect; simpl.
        now apply attempt_holding_run.
      * simpl in Hrace. congruence.
      * simpl in Hrace. cbn [connect_race].
        unfold connect_dispatch. rewrite Hws.
        unfold onmessage; simpl.
        unfold attempt_after_connect; simpl. rewrite Hp.
        apply IH; simpl; auto. repeat split; simpl; eauto.
      * simpl in Hrace. cbn [connect_race].
        unfold connect_dispatch. rewrite Hws.
        unfold onclose; simpl.
        unfold attempt_after_connect; simpl. rewrite Hp.
        apply IH; simpl; auto. repeat split; simpl; auto. rewrite Hws; simpl.
        eexists; split; [reflexivity|]. simpl. discriminate.
    + simpl in Hrace |- *. apply IH; auto. repeat split; eauto.
Qed.



Lemma forallb_map_from_repeat (A B : Type) (P : B -> bool) (F : nat -> A -> B)
  (a : A) (n : nat) :
  forall k,
    forallb P (map_from F k (repeat a n)) = forallb (fun i => P (F i a)) (seq k n).
Proof.
  induction n as [|n IH]; intros k; simpl; [reflexivity|]. now rewrite IH.
Qed.

Lemma forallb_seq_ext (f g : nat -> bool) (n : nat) :
  forall k,
    (forall i, (k <= i < k + n)%nat -> f i = g i) ->
    forallb f (seq k n) = forallb g (seq k n).
Proof.
  induction n as [|n IH]; intros k H; simpl; [reflexivity|].
  rewrite (H k) by lia. f_equal. apply IH. intros i Hi. apply H. lia.
Qed.


(** An attempt from its start, alone on the tasks meant for it. *)
Lemma attempt_unit_over (url : string) (hold t0 : Z) (tr : list task) :
  connect_race (t0 + 5000) t0 tr <> ErrorFirst ->
  is_done
    (snd (fold_left (attempt_step hold) tr
            (t0, fst (attempt_after_connect t0 hold
                        (mkAttempt t0 (connectToRelay url 5000 t0)
                           AttemptConnecting)))))
  = attempt_over url hold t0 tr.
Proof.
  intros Hrace. unfold attempt_over, connectToRelay.
  destruct (new_WebSocket url) as [e|] eqn:Hnew.
  - unfold attempt_after_connect; simpl.
    now rewrite attempt_done_run.
  - unfold attempt_after_connect; simpl.
    apply attempt_connecting_run; simpl; auto.
    repeat split. eexists; split; [reflexivity|]. simpl. discriminate.
Qed.


Lemma stress_run_attempts (url : string) (n : number) (random : nat -> Z) (t0 : Z)
  (tr : list fan_task) :
  s_attempts (stress_run url n random t0 tr)
  = map_from
      (fun i a =>
         snd (fold_left (attempt_step (random i)) (project i tr)
                (t0, fst (attempt_after_connect t0 (random i) a))))
      0
      (repeat (mkAttempt t0 (connectToRelay url 5000 t0) AttemptConnecting)
         (launched n)).
Proof.
  unfold stress_run. rewrite stress_attempts_run.
  unfold stressTestRelay_start.
  pose proof (each_attempt_attempts
                (fun i => attempt_after_connect t0 (random i))
                (repeat (mkAttempt t0 (connectToRelay url 5000 t0) AttemptConnecting)
                   (launched n))
                0%nat (mkStress t0 t0 [] 0 0 [])) as Ha.
  pose proof (each_attempt_clock
                (fun i => attempt_after_connect t0 (random i))
                (repeat (mkAttempt t0 (connectToRelay url 5000 t0) AttemptConnecting)
                   (launched n))
                0%nat (mkStress t0 t0 [] 0 0 [])) as Hc.
  destruct (each_attempt _ 0%nat _ _) as [attempts' s'].
  simpl in Ha, Hc |- *. rewrite Ha, Hc, map_from_map_from. reflexivity.
Qed.

(** Without a socket error before [open], the attempts have all ended
    exactly when each of them has. *)
Lemma stress_all_done (url : string) (n : number) (random : nat -> Z) (t0 : Z)
  (tr : list fan_task) :
  (forall i, (i < launched n)%nat -> no_error_first t0 tr i) ->
  forallb is_done (s_attempts (stress_run url n random t0 tr))
  = attempts_over url (launched n) random t0 tr.
Proof.
  intros Hno. rewrite stress_run_attempts, forallb_map_from_repeat.
  unfold attempts_over. apply forallb_seq_ext. intros i Hi.
  apply attempt_unit_over. apply Hno. lia.
Qed.




(** ** Fan-out: when the results are handed over *)


Lemma Promise_all_not_rejected (A T : Type) (f : nat -> A -> settled T) (l : list A) :
  (forall j a e, f j a <> Rejected e) ->
  forall k e, Promise_all (map_from f k l) <> Rejected e.
Proof.
  intros Hf. induction l as [|x l IH]; intros k e; simpl; [discriminate|].
  specialize (IH (Datatypes.S k)).
  destruct (f k x) as [|v|e1] eqn:Hx.
  - destruct (Promise_all (map_from f (Datatypes.S k) l)) as [|vs|e2] eqn:Hrest;
      try discriminate. now destruct (IH e2).
  - destruct (Promise_all (map_from f (Datatypes.S k) l)) as [|vs|e2] eqn:Hrest;
      try discriminate. now destruct (IH e2).
  - now destruct (Hf k x e1).
Qed.


Lemma nth_error_in_range (A : Type) (l : list A) (i : nat) (a : A) :
  nth_error l i = Some a -> (i < List.length l)%nat.
Proof. intros H. apply nth_error_Some. congruence. Qed.


Lemma publish_refinement (url : string) (event : SignedEvent) (t0 : Z)
  (tr : list task) :
  connect_race (t0 + 5000) t0 tr <> ErrorFirst ->
  publishEventToRelay url event t0 tr = publish_decided url event t0 tr.
Proof. intros H. unfold publish_decided. now apply publish_refines_decide. Qed.

Lemma pingRelay_refinement (url : string) (t0 : Z) (tr : list task) :
  connect_race (t0 + 5000) t0 tr <> ErrorFirst ->
  pingRelay url t0 tr = ping_decided url t0 tr.
Proof. intros H. unfold ping_decided. now apply pingRelay_decided. Qed.

Lemma batch_refines (urls : list string) (event : SignedEvent) (t0 : Z)
  (tr : list fan_task) :
  (forall i, (i < List.length urls)%nat -> no_error_first t0 tr i) ->
  batchPublishToRelays urls event t0 tr
  = Promise_all
      (map_from (fun i url => publish_decided url event t0 (project i tr)) 0 urls).
Proof.
  intros Hno. rewrite batch_as_promise_all. f_equal.
  apply map_from_ext_in. intros i url Hi. simpl.
  apply publish_refinement. apply Hno. now apply nth_error_in_range in Hi.
Qed.

Lemma compare_refines (urls : list string) (t0 : Z) (tr : list fan_task) :
  (forall i url, nth_error urls i = Some url ->
                 no_ping_stalls url t0 (project i tr)) ->
  compareRelays urls t0 tr
  = Promise_all
      (map_from (fun i url => compliance_decided url t0 (project i tr)) 0 urls).
Proof.
  intros Hno. rewrite compare_as_promise_all. f_equal.
  apply map_from_ext_in. intros i url Hi. simpl.
  apply compliance_refines. now apply Hno.
Qed.



(** ** monitorRelay: a connection that is not established *)

Lemma monitor_failed_run (tr : list monitor_task) :
  forall m : Monitor,
    m_phase m = MonitorFailed -> m_checkLogs m = None ->
    reports (m_calls (fold_left monitor_step tr m)) = reports (m_calls m).
Proof.
  induction tr as [|e tr IH]; intros m Hph Hc; simpl; [reflexivity|].
  assert (H : m_phase (monitor_step m e) = MonitorFailed
              /\ m_checkLogs (monitor_step m e) = None
              /\ reports (m_calls (monitor_step m e)) = reports (m_calls m)).
  { unfold monitor_step.
    destruct e as [[dt|[[|k] ev|r]]|]; auto.
    - unfold monitor_after_connect; simpl. rewrite Hph.
      unfold checkLogs; simpl. rewrite Hc. auto.
    - rewrite Hph. unfold monitor_after_connect; simpl. auto.
    - unfold cancel, observe. rewrite Hph. simpl.
      rewrite reports_app, app_nil_r. auto. }
  destruct H as (Hph' & Hc' & Hr). now rewrite IH.
Qed.

Lemma never_opens_environment (e : monitor_task) (tr : list monitor_task) :
  never_opens (environment (e :: tr)) ->
  e <> Env (Io (Ws 0 Open)) /\ never_opens (environment tr).
Proof.
  destruct e as [e|]; simpl; intros H.
  - apply never_opens_cons in H. destruct H as [He H]. split; [|exact H].
    intros Heq. injection Heq as ->. discriminate.
  - split; [discriminate|exact H].
Qed.

Lemma monitor_stalled_run (tr : list monitor_task) :
  forall m : Monitor,
    m_phase m = MonitorConnecting -> stalled (m_conn m) -> m_checkLogs m = None ->
    never_opens (environment tr) ->
    reports (m_calls (fold_left monitor_step tr m)) = reports (m_calls m).
Proof.
  induction tr as [|e tr IH]; intros m Hph Hs Hc Hno; simpl; [reflexivity|].
  apply never_opens_environment in Hno. destruct Hno as [He Hno].
  assert (H : m_phase (monitor_step m e) = MonitorConnecting
              /\ stalled (m_conn (monitor_step m e))
              /\ m_checkLogs (monitor_step m e) = None
              /\ reports (m_calls (monitor_step m e)) = reports (m_calls m)).
  { unfold monitor_step.
    destruct e as [[dt|[[|k] ev|r]]|]; auto.
    - rewrite (tick_stalled _ _ Hs).
      unfold monitor_after_connect; simpl. rewrite Hph, (proj1 Hs).
      unfold checkLogs; simpl. rewrite Hc. auto.
    - rewrite Hph.
      assert (Hs' : stalled (connect_dispatch (m_clock m) ev (m_conn m))).
      { apply dispatch_stalled; [exact Hs|]. intros ->. now apply He. }
      unfold monitor_after_connect; simpl. rewrite ?Hph, (proj1 Hs'). auto.
    - unfold cancel, observe. rewrite Hph. simpl.
      rewrite reports_app, app_nil_r. auto. }
  destruct H as (Hph' & Hs' & Hc' & Hr). now rewrite IH.
Qed.

Lemma monitor_connecting_run (tr : list monitor_task) :
  forall (m : Monitor) (deadline : Z),
    m_phase m = MonitorConnecting ->
    still_connecting deadline (m_conn m) ->
    m_checkLogs m = None ->
    never_opens (environment tr) ->
    reports (m_calls (fold_left monitor_step tr m))
    = reports (m_calls m)
      ++ match connect_race deadline (m_clock m) (environment tr) with
         | TimedOut t =>
             [CalledOnStatusChange error;
              CalledOnLog (RelayLog.mk t log_error "Connection timeout" NoData)]
         | _ => []
         end.
Proof.
  induction tr as [|e tr IH]; intros m deadline Hph Hc Hcheck Hno.
  - simpl. now rewrite app_nil_r.
  - apply never_opens_environment in Hno. destruct Hno as [He Hno].
    pose proof Hc as (Hp & Ht & ws & Hws & Hr).
    simpl fold_left. unfold monitor_step at 2.
    destruct e as [[dt|[[|k] ev|r]]|]; cbn [environment connect_race].
    + (* the clock moves *)
      unfold connect_tick. rewrite Ht.
      destruct (deadline <=? m_clock m + dt).
      * unfold ontimeout; simpl. rewrite Hws.
        replace (ReadyState_eqb (WebSocket.readyState ws) OPEN) with false
          by (destruct (WebSocket.readyState ws); simpl; congruence).
        unfold reject; simpl. rewrite Hp.
        unfold monitor_after_connect; simpl. rewrite Hph.
        unfold checkLogs; simpl. rewrite Hcheck.
        rewrite monitor_failed_run by (simpl; auto).
        simpl. now rewrite reports_app.
      * unfold monitor_after_connect; simpl. rewrite Hph, Hp.
        unfold checkLogs; simpl. rewrite Hcheck.
        match goal with
        | |- context [fold_left _ _ ?st] => apply (IH st deadline)
        end; simpl; auto; repeat split; eauto.
    + rewrite Hph.
      destruct ev as [| |data|].
      * now destruct He.
      * pose proof (onerror_stalls (m_clock m) deadline (m_conn m) Hc) as Hs.
        unfold monitor_after_connect; simpl. rewrite ?Hph, (proj1 Hs).
        rewrite monitor_stalled_run; simpl; auto.
        now rewrite app_nil_r.
      * unfold connect_dispatch. rewrite Hws.
        unfold onmessage; simpl.
        unfold monitor_after_connect; simpl. rewrite ?Hph, Hp.
        match goal with
        | |- context [fold_left _ _ ?st] => apply (IH st deadline)
        end; simpl; auto; repeat split; simpl; eauto.
      * unfold connect_dispatch. rewrite Hws.
        unfold onclose; simpl.
        unfold monitor_after_connect; simpl. rewrite ?Hph, Hp.
        match goal with
        | |- context [fold_left _ _ ?st] => apply (IH st deadline)
        end; simpl; auto;
          repeat split; simpl; auto; rewrite Hws; simpl;
          (eexists; split; [reflexivity|simpl; discriminate]).
    + now apply IH.
    + now apply IH.
    + unfold cancel, observe. rewrite Hph.
      match goal with
      | |- context [fold_left _ _ ?st] => rewrite (IH st deadline)
      end; simpl; auto.
      now rewrite reports_app, app_nil_r.
Qed.

(** ** What the operations return, and when *)

Lemma ping_trials_length (url : string) (remaining : nat) :
  forall (k : nat) (now : Z) (tr : list task) (latencies done : list Z),
    ping_trials url remaining k now tr latencies = TrialsDone done ->
    (List.length done <= List.length latencies + remaining)%nat.
Proof.
  induction remaining as [|remaining IH]; intros k now tr latencies done H.
  - simpl in H. injection H as <-. lia.
  - simpl in H. destruct (new_WebSocket url).
    + apply IH in H. lia.
    + destruct (ping_race k (now + 5000) now tr) as [| |t rest|t rest];
        try discriminate; apply IH in H; rewrite ?length_app in H; simpl in H; lia.
Qed.


Lemma stress_refines (url : string) (n : number) (duration : Z) (random : nat -> Z)
  (t0 : Z) (tr : list fan_task) :
  ToLength n < 2 ^ 32 ->
  (forall i, (i < launched n)%nat -> no_error_first t0 tr i) ->
  (exists r, stressTestRelay url n duration random t0 tr = Fulfilled r)
  <-> attempts_over url (launched n) random t0 tr = true.
Proof.
  intros Hlen Hno. unfold stressTestRelay.
  replace (2 ^ 32 <=? ToLength n) with false by (symmetry; apply Z.leb_gt; lia).
  rewrite (stress_all_done url n random t0 tr Hno).
  destruct (attempts_over url (launched n) random t0 tr).
  - split; [reflexivity|]. intros _. eauto.
  - split; [|discriminate]. intros [r Hr]. discriminate.
Qed.

(** *** Enough time decides every operation *)

Lemma connect_race_settled_app (deadline : Z) (tr ext : list task) :
  forall now,
    connect_race deadline now tr <> StillConnecting ->
    connect_race deadline now (tr ++ ext)
    = match connect_race deadline now tr with
      | Opened t rest => Opened t (rest ++ ext)
      | r => r
      end.
Proof.
  induction tr as [|e tr IH]; intros now H; simpl in *.
  - congruence.
  - destruct e as [dt|[k ev|r]].
    + destruct (deadline <=? now + dt); [reflexivity|]. now apply IH.
    + destruct k as [|k]; [destruct ev|]; try reflexivity; now apply IH.
    + now apply IH.
Qed.

Lemma connect_race_waiting_app (deadline : Z) (tr : list task) :
  forall now,
    connect_race deadline now tr = StillConnecting ->
    exists d, forall dt more, d <= dt ->
      exists t, connect_race deadline now (tr ++ Advance dt :: more) = TimedOut t.
Proof.
  induction tr as [|e tr IH]; intros now H; simpl in *.
  - exists (deadline - now). intros dt more Hd. exists (now + dt).
    now replace (deadline <=? now + dt) with true by (symmetry; apply Z.leb_le; lia).
  - destruct e as [dt0|[k ev|r]].
    + destruct (deadline <=? now + dt0); [discriminate|]. now apply IH.
    + destruct k as [|k]; [destruct ev|]; try discriminate; now apply IH.
    + now apply IH.
Qed.

Lemma connect_race_time_no_error (deadline : Z) (tr : list task) (dt : Z) :
  forall now,
    connect_race deadline now tr <> ErrorFirst ->
    connect_race deadline now (tr ++ [Advance dt]) <> ErrorFirst.
Proof.
  induction tr as [|e tr IH]; intros now H; simpl in *.
  - destruct (deadline <=? now + dt); discriminate.
  - destruct e as [dt0|[k ev|r]].
    + destruct (deadline <=? now + dt0); [discriminate|]. now apply IH.
    + destruct k as [|k]; [destruct ev|]; try discriminate; try congruence; now apply IH.
    + now apply IH.
Qed.

Lemma timer_fires_in_time (deadline : Z) (tr : list task) :
  forall now, exists d, forall dt, d <= dt ->
    timer_fires deadline now (tr ++ [Advance dt]) = true.
Proof.
  induction tr as [|e tr IH]; intros now; simpl.
  - exists (deadline - now). intros dt Hd.
    now replace (deadline <=? now + dt) with true by (symmetry; apply Z.leb_le; lia).
  - destruct e as [dt0|e].
    + destruct (IH (now + dt0)) as [d Hd]. exists d. intros dt Hdt.
      rewrite Hd by exact Hdt. apply orb_true_r.
    + apply IH.
Qed.

Lemma first_ack_in_time (id : string) (deadline : Z) (tr : list task) :
  forall now, exists d, forall dt, d <= dt ->
    exists x, first_ack id deadline now (tr ++ [Advance dt]) = Some x.
Proof.
  induction tr as [|e tr IH]; intros now; simpl.
  - exists (deadline - now). intros dt Hd.
    replace (deadline <=? now + dt) with true by (symmetry; apply Z.leb_le; lia).
    eauto.
  - destruct e as [dt0|[k ev|r]].
    + destruct (deadline <=? now + dt0); [exists 0; eauto|]. apply IH.
    + destruct k as [|k]; [destruct ev as [| |[frame|]|]|]; try apply IH.
      destruct (is_ack id frame); [exists 0; eauto|]. apply IH.
    + apply IH.
Qed.

Lemma health_returns_in_time (url : string) (t0 : Z) (tr : list task) :
  connect_race (t0 + 5000) t0 tr <> ErrorFirst ->
  exists d, forall dt, d <= dt ->
    exists r, healthCheckRelay url t0 (tr ++ [Advance dt]) = Fulfilled r.
Proof.
  intros Hno.
  assert (H : exists d, forall dt, d <= dt ->
                exists r, health_decided url t0 (tr ++ [Advance dt]) = Fulfilled r).
  { unfold health_decided. destruct (new_WebSocket url) as [e|]; [exists 0; eauto|].
    destruct (connect_race (t0 + 5000) t0 tr) as [| |t|t rest] eqn:Hrace.
    - destruct (connect_race_waiting_app _ _ _ Hrace) as [d Hd]. exists d.
      intros dt Hdt. destruct (Hd dt [] Hdt) as [t ->]. eauto.
    - congruence.
    - exists 0. intros dt _.
      rewrite connect_race_settled_app, Hrace by (rewrite Hrace; discriminate). eauto.
    - destruct (timer_fires_in_time (t + 1000) rest t) as [d Hd]. exists d.
      intros dt Hdt.
      rewrite connect_race_settled_app, Hrace by (rewrite Hrace; discriminate).
      rewrite Hd by exact Hdt. eauto. }
  destruct H as [d Hd]. exists d. intros dt Hdt.
  destruct (Hd dt Hdt) as [r Hr]. exists r. rewrite <- Hr.
  apply (healthCheck_decided url t0 (tr ++ [Advance dt])).
  now apply connect_race_time_no_error.
Qed.

Lemma publish_returns_in_time (url : string) (event : SignedEvent) (t0 : Z)
  (tr : list task) :
  connect_race (t0 + 5000) t0 tr <> ErrorFirst ->
  exists d, forall dt, d <= dt ->
    exists r, publishEventToRelay url event t0 (tr ++ [Advance dt]) = Fulfilled r.
Proof.
  intros Hno.
  assert (H : exists d, forall dt, d <= dt ->
                exists r, publish_decided url event t0 (tr ++ [Advance dt]) = Fulfilled r).
  { unfold publish_decided, decide.
    destruct (new_WebSocket url) as [e|]; [exists 0; eauto|].
    destruct (connect_race (t0 + 5000) t0 tr) as [| |t|t rest] eqn:Hrace.
    - destruct (connect_race_waiting_app _ _ _ Hrace) as [d Hd]. exists d.
      intros dt Hdt. destruct (Hd dt [] Hdt) as [t ->]. eauto.
    - congruence.
    - exists 0. intros dt _.
      rewrite connect_race_settled_app, Hrace by (rewrite Hrace; discriminate). eauto.
    - destruct (first_ack_in_time (NostrEvent.id event) (t + 10000) rest t) as [d Hd].
      exists d. intros dt Hdt.
      rewrite connect_race_settled_app, Hrace by (rewrite Hrace; discriminate).
      destruct (Hd dt Hdt) as [x ->]. eauto. }
  destruct H as [d Hd]. exists d. intros dt Hdt.
  destruct (Hd dt Hdt) as [r Hr]. exists r. rewrite <- Hr.
  apply publish_refinement. now apply connect_race_time_no_error.
Qed.

Lemma ping_settles_in_time (url : string) (t0 : Z) (tr : list task) :
  connect_race (t0 + 5000) t0 tr <> ErrorFirst ->
  exists d, forall dt, d <= dt -> pingRelay url t0 (tr ++ [Advance dt]) <> Pending.
Proof.
  intros Hno.
  assert (H : exists d, forall dt, d <= dt ->
                ping_decided url t0 (tr ++ [Advance dt]) <> Pending).
  { unfold ping_decided.
    destruct (new_WebSocket url) as [e|]; [exists 0; discriminate|].
    destruct (connect_race (t0 + 5000) t0 tr) as [| |t|t rest] eqn:Hrace.
    - destruct (connect_race_waiting_app _ _ _ Hrace) as [d Hd]. exists d.
      intros dt Hdt. destruct (Hd dt [] Hdt) as [t ->]. discriminate.
    - congruence.
    - exists 0. intros dt _.
      rewrite connect_race_settled_app, Hrace by (rewrite Hrace; discriminate).
      discriminate.
    - exists 0. intros dt _.
      rewrite connect_race_settled_app, Hrace by (rewrite Hrace; discriminate).
      discriminate. }
  destruct H as [d Hd]. exists d. intros dt Hdt.
  rewrite pingRelay_refinement by now apply connect_race_time_no_error.
  now apply Hd.
Qed.

Lemma metadata_arrives_app (tr ext : list task) :
  forall t0 reply now rest,
    metadata_arrives t0 tr = Some (reply, now, rest) ->
    metadata_arrives t0 (tr ++ ext) = Some (reply, now, rest ++ ext).
Proof.
  induction tr as [|e tr IH]; intros t0 reply now rest H; simpl in *.
  - discriminate.
  - destruct e as [dt|[k ev|r]].
    + now apply IH.
    + now apply IH.
    + now injection H as <- <- <-.
Qed.

Lemma ping_race_settled_app (k : nat) (deadline : Z) (tr ext : list task) :
  forall now,
    ping_race k deadline now tr <> PingWaiting ->
    ping_race k deadline now (tr ++ ext)
    = match ping_race k deadline now tr with
      | PingTimedOut t rest => PingTimedOut t (rest ++ ext)
      | PingOpened t rest => PingOpened t (rest ++ ext)
      | r => r
      end.
Proof.
  induction tr as [|e tr IH]; intros now H; simpl in *.
  - congruence.
  - destruct e as [dt|[k' ev|r]].
    + destruct (deadline <=? now + dt); [reflexivity|]. now apply IH.
    + destruct (Nat.eqb k' k); [destruct ev|]; try reflexivity; now apply IH.
    + now apply IH.
Qed.

Lemma ping_race_waiting_app (k : nat) (deadline : Z) (tr : list task) :
  forall now,
    ping_race k deadline now tr = PingWaiting ->
    exists d, forall dt more, d <= dt ->
      exists t, ping_race k deadline now (tr ++ Advance dt :: more) = PingTimedOut t more.
Proof.
  induction tr as [|e tr IH]; intros now H; simpl in *.
  - exists (deadline - now). intros dt more Hd. exists (now + dt).
    now replace (deadline <=? now + dt) with true by (symmetry; apply Z.leb_le; lia).
  - destruct e as [dt0|[k' ev|r]].
    + destruct (deadline <=? now + dt0); [discriminate|]. now apply IH.
    + destruct (Nat.eqb k' k); [destruct ev|]; try discriminate; now apply IH.
    + now apply IH.
Qed.

(** Pings that see nothing but the clock move, by 5 seconds or more each
    time, time out one after the other. *)
Lemma ping_trials_time_out (url : string) (remaining : nat) :
  forall (k : nat) (now : Z) (ds : list Z) (latencies : list Z),
    (remaining <= List.length ds)%nat ->
    Forall (fun dt => 5000 <= dt) ds ->
    ping_trials url remaining k now (map Advance ds) latencies = TrialsDone latencies.
Proof.
  induction remaining as [|remaining IH]; intros k now ds latencies Hlen Hds.
  - reflexivity.
  - simpl. destruct (new_WebSocket url).
    + apply IH; [lia|exact Hds].
    + destruct ds as [|dt ds]; [simpl in Hlen; lia|].
      inversion Hds as [|? ? Hdt Hrest]; subst. simpl.
      replace (now + 5000 <=? now + dt) with true by (symmetry; apply Z.leb_le; lia).
      apply IH; [simpl in Hlen; lia|exact Hrest].
Qed.

Lemma ping_trials_in_time (url : string) (remaining : nat) :
  forall (k : nat) (now : Z) (tr : list task) (latencies : list Z),
    ping_trials url remaining k now tr latencies <> TrialsStalled ->
    exists d, forall ds,
      (remaining <= List.length ds)%nat ->
      Forall (fun dt => d <= dt) ds ->
      exists done,
        ping_trials url remaining k now (tr ++ map Advance ds) latencies
        = TrialsDone done.
Proof.
  induction remaining as [|remaining IH]; intros k now tr latencies H.
  - exists 0. intros ds _ _. simpl. eauto.
  - simpl in H. simpl. destruct (new_WebSocket url).
    + destruct (IH _ _ _ _ H) as [d Hd]. exists d. intros ds Hlen Hds.
      apply Hd; [lia|exact Hds].
    + destruct (ping_race k (now + 5000) now tr) as [| |t rest|t rest] eqn:Hrace.
      * destruct (ping_race_waiting_app _ _ _ _ Hrace) as [d Hd].
        exists (Z.max 5000 d). intros ds Hlen Hds.
        destruct ds as [|dt ds]; [simpl in Hlen; lia|].
        inversion Hds as [|? ? Hdt Hrest]; subst. simpl map.
        destruct (Hd dt (map Advance ds) ltac:(lia)) as [t ->].
        exists latencies. apply ping_trials_time_out; [simpl in Hlen; lia|].
        eapply Forall_impl; [|exact Hrest]. simpl. intros; lia.
      * congruence.
      * destruct (IH _ _ _ _ H) as [d Hd]. exists d. intros ds Hlen Hds.
        rewrite ping_race_settled_app, Hrace by (rewrite Hrace; discriminate).
        apply Hd; [lia|exact Hds].
      * destruct (IH _ _ _ _ H) as [d Hd]. exists d. intros ds Hlen Hds.
        rewrite ping_race_settled_app, Hrace by (rewrite Hrace; discriminate).
        apply Hd; [lia|exact Hds].
Qed.

Lemma compliance_decided_in_time (url : string) (t0 : Z) (tr : list task) :
  metadata_arrives t0 tr <> None ->
  no_ping_stalls url t0 tr ->
  exists d, forall d1 d2 d3, d <= d1 -> d <= d2 -> d <= d3 ->
    no_ping_stalls url t0 (tr ++ [Advance d1; Advance d2; Advance d3])
    /\ exists r,
         compliance_decided url t0 (tr ++ [Advance d1; Advance d2; Advance d3])
         = Fulfilled r.
Proof.
  intros Hmeta Hno. unfold no_ping_stalls, compliance_decided, compliance_trials in *.
  destruct (metadata_arrives t0 tr) as [[[reply now] rest]|] eqn:Harr; [|congruence].
  destruct (answers_includes (RelayInfo.supported_nips (getRelayInfo url reply)))
    eqn:Hnips.
  - destruct (ping_trials_in_time url 3 0 now rest [] Hno) as [d Hd].
    exists d. intros d1 d2 d3 H1 H2 H3.
    rewrite (metadata_arrives_app tr _ _ _ _ _ Harr). cbv zeta. rewrite Hnips.
    destruct (Hd [d1; d2; d3]) as [done Hdone]; [simpl; lia|repeat constructor; lia|].
    change (map Advance [d1; d2; d3]) with [Advance d1; Advance d2; Advance d3] in Hdone.
    rewrite Hdone. split; [discriminate|eauto].
  - exists 0. intros d1 d2 d3 _ _ _.
    rewrite (metadata_arrives_app tr _ _ _ _ _ Harr). cbv zeta. rewrite Hnips.
    split; [discriminate|eauto].
Qed.

Lemma compliance_returns_in_time (url : string) (t0 : Z) (tr : list task) :
  metadata_arrives t0 tr <> None ->
  no_ping_stalls url t0 tr ->
  exists d, forall d1 d2 d3, d <= d1 -> d <= d2 -> d <= d3 ->
    exists r,
      testRelayCompliance url t0 (tr ++ [Advance d1; Advance d2; Advance d3])
      = Fulfilled r.
Proof.
  intros Hmeta Hno.
  destruct (compliance_decided_in_time url t0 tr Hmeta Hno) as [d Hd].
  exists d. intros d1 d2 d3 H1 H2 H3.
  destruct (Hd d1 d2 d3 H1 H2 H3) as [Hstall [r Hr]]. exists r.
  rewrite <- Hr. now apply compliance_refines.
Qed.

Lemma project_app (i : nat) (tr ext : list fan_task) :
  project i (tr ++ ext) = project i tr ++ project i ext.
Proof.
  induction tr as [|e tr IH]; simpl; [reflexivity|].
  destruct e as [dt|j e]; [now rewrite IH|].
  destruct (Nat.eqb j i); now rewrite IH.
Qed.

Lemma no_error_first_tick (t0 : Z) (tr : list fan_task) (dt : Z) (i : nat) :
  no_error_first t0 tr i -> no_error_first t0 (tr ++ [Tick dt]) i.
Proof.
  unfold no_error_first. rewrite project_app. simpl.
  apply connect_race_time_no_error.
Qed.

(** When each of the promises is fulfilled once enough time has passed, so
    is [Promise.all] of them. *)
Lemma Promise_all_in_time (A T P : Type) (enough : Z -> P -> Prop)
  (f : nat -> A -> P -> settled T) (l : list A) :
  (forall d d' p, d <= d' -> enough d' p -> enough d p) ->
  forall k,
    (forall i a, nth_error l i = Some a ->
                 exists d, forall p, enough d p ->
                                     exists r, f (k + i)%nat a p = Fulfilled r) ->
    exists d, forall p, enough d p ->
      exists rs, Promise_all (map_from (fun i a => f i a p) k l) = Fulfilled rs.
Proof.
  intros Hmono. induction l as [|x l IH]; intros k H.
  - exists 0. intros p _. simpl. eauto.
  - destruct (H 0%nat x eq_refl) as [d1 H1].
    destruct (IH (Datatypes.S k)) as [d2 H2].
    { intros i a Hi. destruct (H (Datatypes.S i) a Hi) as [d Hd]. exists d.
      now replace (Datatypes.S k + i)%nat with (k + Datatypes.S i)%nat by lia. }
    exists (Z.max d1 d2). intros p Hp. simpl.
    destruct (H1 p) as [r Hr]; [apply (Hmono d1 (Z.max d1 d2)); [lia|exact Hp]|].
    rewrite Nat.add_0_r in Hr. rewrite Hr.
    destruct (H2 p) as [rs Hrs]; [apply (Hmono d2 (Z.max d1 d2)); [lia|exact Hp]|].
    rewrite Hrs. eauto.
Qed.

Lemma batch_returns_in_time (urls : list string) (event : SignedEvent) (t0 : Z)
  (tr : list fan_task) :
  (forall i, (i < List.length urls)%nat -> no_error_first t0 tr i) ->
  exists d, forall dt, d <= dt ->
    exists results,
      batchPublishToRelays urls event t0 (tr ++ [Tick dt]) = Fulfilled results.
Proof.
  intros Hno.
  assert (Hmono : forall d d' dt : Z, d <= d' -> d' <= dt -> d <= dt)
    by (intros; lia).
  destruct (Promise_all_in_time string RelayPublishResult.t Z (fun d dt => d <= dt)
              (fun i url dt =>
                 publishEventToRelay url event t0 (project i (tr ++ [Tick dt])))
              urls Hmono 0%nat) as [d Hd].
  - intros i url Hi. simpl.
    destruct (publish_returns_in_time url event t0 (project i tr)) as [d Hd].
    { apply Hno. now apply nth_error_in_range in Hi. }
    exists d. intros dt Hdt. rewrite project_app. simpl. now apply Hd.
  - exists d. intros dt Hdt. rewrite batch_as_promise_all. now apply Hd.
Qed.

Lemma compare_returns_in_time (urls : list string) (t0 : Z) (tr : list fan_task) :
  (forall i url, nth_error urls i = Some url ->
                 metadata_arrives t0 (project i tr) <> None
                 /\ no_ping_stalls url t0 (project i tr)) ->
  exists d, forall d1 d2 d3, d <= d1 -> d <= d2 -> d <= d3 ->
    exists results,
      compareRelays urls t0 (tr ++ [Tick d1; Tick d2; Tick d3]) = Fulfilled results.
Proof.
  intros Hno.
  assert (Hmono : forall (d d' : Z) (p : Z * Z * Z),
             d <= d' ->
             d' <= fst (fst p) /\ d' <= snd (fst p) /\ d' <= snd p ->
             d <= fst (fst p) /\ d <= snd (fst p) /\ d <= snd p)
    by (intros; lia).
  destruct (Promise_all_in_time string RelayTestResult.t (Z * Z * Z)
              (fun d p => d <= fst (fst p) /\ d <= snd (fst p) /\ d <= snd p)
              (fun i url p =>
                 testRelayCompliance url t0
                   (project i (tr ++ [Tick (fst (fst p)); Tick (snd (fst p));
                                      Tick (snd p)])))
              urls Hmono 0%nat) as [d Hd].
  - intros i url Hi. simpl.
    destruct (Hno i url Hi) as [Hmeta Hstall].
    destruct (compliance_returns_in_time url t0 (project i tr) Hmeta Hstall) as [d Hd].
    exists d. intros [[d1 d2] d3] (H1 & H2 & H3). simpl in *.
    rewrite project_app. simpl. now apply Hd.
  - exists d. intros d1 d2 d3 H1 H2 H3. rewrite compare_as_promise_all.
    now apply (Hd (d1, d2, d3)).
Qed.

Lemma attempt_over_in_time (url : string) (hold t0 : Z) (tr : list task) :
  connect_race (t0 + 5000) t0 tr <> ErrorFirst ->
  exists d, forall dt, d <= dt -> attempt_over url hold t0 (tr ++ [Advance dt]) = true.
Proof.
  intros Hno. unfold attempt_over.
  destruct (new_WebSocket url) as [e|]; [exists 0; reflexivity|].
  destruct (connect_race (t0 + 5000) t0 tr) as [| |t|t rest] eqn:Hrace.
  - destruct (connect_race_waiting_app _ _ _ Hrace) as [d Hd]. exists d.
    intros dt Hdt. now destruct (Hd dt [] Hdt) as [t ->].
  - congruence.
  - exists 0. intros dt _.
    now rewrite connect_race_settled_app, Hrace by (rewrite Hrace; discriminate).
  - destruct (timer_fires_in_time (t + hold) rest t) as [d Hd]. exists d.
    intros dt Hdt.
    rewrite connect_race_settled_app, Hrace by (rewrite Hrace; discriminate).
    now apply Hd.
Qed.

Lemma forallb_seq_in_time (f : nat -> Z -> bool) (n : nat) :
  forall k,
    (forall i, (k <= i < k + n)%nat -> exists d, forall dt, d <= dt -> f i dt = true) ->
    exists d, forall dt, d <= dt -> forallb (fun i => f i dt) (seq k n) = true.
Proof.
  induction n as [|n IH]; intros k H; simpl.
  - exists 0. reflexivity.
  - destruct (H k ltac:(lia)) as [d1 H1].
    destruct (IH (Datatypes.S k)) as [d2 H2]; [intros i Hi; apply H; lia|].
    exists (Z.max d1 d2). intros dt Hdt.
    rewrite H1, H2 by lia. reflexivity.
Qed.

Lemma stress_returns_in_time (url : string) (n : number) (duration : Z)
  (random : nat -> Z) (t0 : Z) (tr : list fan_task) :
  ToLength n < 2 ^ 32 ->
  (forall i, (i < launched n)%nat -> no_error_first t0 tr i) ->
  exists d, forall dt, d <= dt ->
    exists r, stressTestRelay url n duration random t0 (tr ++ [Tick dt]) = Fulfilled r.
Proof.
  intros Hlen Hno.
  destruct (forallb_seq_in_time
              (fun i dt => attempt_over url (random i) t0 (project i (tr ++ [Tick dt])))
              (launched n) 0%nat) as [d Hd].
  - intros i Hi.
    destruct (attempt_over_in_time url (random i) t0 (project i tr)) as [d Hd];
      [apply Hno; lia|].
    exists d. intros dt Hdt. rewrite project_app. simpl. now apply Hd.
  - exists d. intros dt Hdt.
    apply (stress_refines url n duration random t0 (tr ++ [Tick dt]) Hlen).
    + intros i Hi. apply no_error_first_tick. now apply Hno.
    + now apply Hd.
Qed.

(** *** A failed connection attempt becomes a result *)

Lemma resolve_timeoutId (c : Connect) : timeoutId (resolve c) = timeoutId c.
Proof. unfold resolve. now destruct (promise c). Qed.

Lemma resolve_not_rejected (c : Connect) :
  (forall e, promise c <> Rejected e) -> forall e, promise (resolve c) <> Rejected e.
Proof. unfold resolve. intros H e. destruct (promise c) eqn:Hp; simpl; congruence. Qed.

Lemma connect_unarmed_step (s : Z * Connect) (x : task) :
  timeoutId (snd s) = None ->
  (forall e, promise (snd s) <> Rejected e) ->
  timeoutId (snd (connect_step s x)) = None
  /\ forall e, promise (snd (connect_step s x)) <> Rejected e.
Proof.
  destruct s as [clock c]. simpl. intros Ht Hp.
  destruct x as [dt|[[|k] ev|r]]; simpl; auto.
  - now rewrite tick_stalled_timer.
  - unfold connect_dispatch.
    destruct (RelayConnection.websocket (connection c)); [|auto].
    destruct ev; simpl; auto.
    unfold onopen. rewrite resolve_timeoutId. simpl. split; [reflexivity|].
    apply resolve_not_rejected. simpl. exact Hp.
Qed.

Lemma connect_unarmed_run (tr : list task) :
  forall s : Z * Connect,
    timeoutId (snd s) = None ->
    (forall e, promise (snd s) <> Rejected e) ->
    forall e, promise (snd (fold_left connect_step tr s)) <> Rejected e.
Proof.
  induction tr as [|x tr IH]; intros s Ht Hp; simpl; [exact Hp|].
  destruct (connect_unarmed_step s x Ht Hp) as [Ht' Hp']. now apply IH.
Qed.

Lemma connect_error_first_not_rejected (tr : list task) :
  forall (s : Z * Connect) (deadline : Z),
    still_connecting deadline (snd s) ->
    connect_race deadline (fst s) tr = ErrorFirst ->
    forall e, promise (snd (fold_left connect_step tr s)) <> Rejected e.
Proof.
  induction tr as [|x tr IH]; intros [clock c] deadline Hc Hrace.
  - discriminate.
  - pose proof Hc as (Hp & Ht & ws & Hws & Hr). simpl in Hp, Ht, Hws.
    simpl fold_left.
    destruct x as [dt|[k ev|r]].
    + simpl in Hrace |- *. unfold connect_tick. rewrite Ht.
      destruct (deadline <=? clock + dt); [discriminate|].
      apply (IH (clock + dt, c) deadline); auto.
    + destruct k as [|k];
        [|simpl in Hrace |- *; apply (IH (clock, c) deadline); auto].
      destruct ev as [| |data|]; try discriminate.
      * simpl connect_step. apply connect_unarmed_run.
        -- simpl. unfold connect_dispatch. rewrite Hws. reflexivity.
        -- simpl. unfold connect_dispatch. rewrite Hws. simpl. rewrite Hp.
           discriminate.
      * simpl in Hrace. simpl connect_step.
        apply (IH (clock, connect_dispatch clock (Message data) c) deadline); auto.
        unfold connect_dispatch. rewrite Hws.
        repeat split; simpl; eauto.
      * simpl in Hrace. simpl connect_step.
        apply (IH (clock, connect_dispatch clock Close c) deadline); auto.
        unfold connect_dispatch. rewrite Hws.
        repeat split; simpl; auto. rewrite Hws; simpl.
        eexists; split; [reflexivity|]. simpl. discriminate.
    + simpl in Hrace |- *. apply (IH (clock, c) deadline); auto.
Qed.

(** How a connection attempt with the 5-second timeout comes to be
    rejected: the constructor threw, or the timeout came first. *)
Lemma connect_rejected_how (url : string) (t0 : Z) (tr : list task) (e : thrown) :
  promise (connect_run url 5000 t0 tr) = Rejected e ->
  new_WebSocket url = Some e
  \/ (new_WebSocket url = None
      /\ e = Err "Connection timeout"
      /\ exists t, connect_race (t0 + 5000) t0 tr = TimedOut t).
Proof.
  intros H. unfold connect_run in H.
  destruct (new_WebSocket url) as [e0|] eqn:Hnew.
  - left. rewrite connect_settled_run in H;
      unfold connectToRelay in *; rewrite Hnew in *; simpl in *;
      [congruence|discriminate].
  - right. split; [reflexivity|].
    assert (Hc : still_connecting (t0 + 5000)
                   (snd (t0, connectToRelay url 5000 t0)))
      by (now apply connectToRelay_still_connecting; [lia|]).
    destruct (connect_race (t0 + 5000) t0 tr) as [| |t|t rest] eqn:Hrace.
    + rewrite (connect_race_run tr _ (t0 + 5000) Hc) in H;
        simpl fst in *; rewrite Hrace in *; [discriminate|discriminate].
    + exfalso.
      exact (connect_error_first_not_rejected tr _ (t0 + 5000) Hc Hrace e H).
    + rewrite (connect_race_run tr _ (t0 + 5000) Hc) in H;
        simpl fst in *; rewrite Hrace in *; [|discriminate].
      split; [congruence|eauto].
    + rewrite (connect_race_run tr _ (t0 + 5000) Hc) in H;
        simpl fst in *; rewrite Hrace in *; [discriminate|discriminate].
Qed.

Lemma health_catches_rejection (url : string) (t0 : Z) (tr : list task) (e : thrown) :
  promise (connect_run url 5000 t0 tr) = Rejected e ->
  healthCheckRelay url t0 tr = Fulfilled (unhealthy url t0 (error_message e)).
Proof.
  intros H. destruct (connect_rejected_how url t0 tr e H) as [Hnew|(Hnew & -> & t & Hrace)].
  - unfold healthCheckRelay, health_run, healthCheckRelay_start, connectToRelay.
    rewrite Hnew. unfold health_after_connect; simpl.
    now rewrite health_returned_run by reflexivity.
  - assert (Hno : connect_race (t0 + 5000) t0 tr <> ErrorFirst)
      by (rewrite Hrace; discriminate).
    unfold healthCheckRelay. rewrite (proj1 (healthCheck_decided url t0 tr Hno)).
    unfold health_decided. now rewrite Hnew, Hrace.
Qed.

Lemma publish_catches_rejection (url : string) (event : SignedEvent) (t0 : Z)
  (tr : list task) (e : thrown) :
  promise (connect_run url 5000 t0 tr) = Rejected e ->
  exists t,
    publishEventToRelay url event t0 tr
    = Fulfilled (result_of url event t0 (ConnectFailed (error_message e) t)).
Proof.
  intros H. destruct (connect_rejected_how url t0 tr e H) as [Hnew|(Hnew & -> & t & Hrace)].
  - exists t0.
    unfold publishEventToRelay, publish_run, publishEventToRelay_start, connectToRelay.
    rewrite Hnew. unfold publish_after_connect; simpl.
    now rewrite publish_returned_run by reflexivity.
  - assert (Hno : connect_race (t0 + 5000) t0 tr <> ErrorFirst)
      by (rewrite Hrace; discriminate).
    exists t. rewrite (publish_refinement url event t0 tr Hno).
    unfold publish_decided, decide. now rewrite Hnew, Hrace.
Qed.

Lemma ping_rethrows_rejection (url : string) (t0 : Z) (tr : list task) (e : thrown) :
  promise (connect_run url 5000 t0 tr) = Rejected e ->
  pingRelay url t0 tr = Rejected (Err ("Ping failed: " ++ error_message e)%string).
Proof.
  intros H. destruct (connect_rejected_how url t0 tr e H) as [Hnew|(Hnew & -> & t & Hrace)].
  - unfold pingRelay, ping_run, pingRelay_start, connectToRelay.
    rewrite Hnew. unfold ping_after_connect; simpl.
    now rewrite ping_settled_run by (simpl; discriminate).
  - assert (Hno : connect_race (t0 + 5000) t0 tr <> ErrorFirst)
      by (rewrite Hrace; discriminate).
    rewrite (pingRelay_refinement url t0 tr Hno).
    unfold ping_decided. now rewrite Hnew, Hrace.
Qed.

(** *** The statements *)

(** C3 (amended): [healthCheckRelay], [publishEventToRelay],
    [testRelayCompliance], [batchPublishToRelays] and [compareRelays] never
    reject.  When the connection attempt it awaits is rejected, because the
    constructor threw or the timeout came first, [healthCheckRelay] returns
    the unhealthy result with the message of the rejection and
    [publishEventToRelay] returns a failed result with that message, where
    [pingRelay] rejects with [Ping failed: ] and that message.

    Provided no socket an operation opens reports an error before it opens
    or times out, the operation returns as soon as its outcome is decided:
    [healthCheckRelay] when the connection attempt has failed or one second
    after the socket opened; [publishEventToRelay] at the deciding event of
    the publish; [testRelayCompliance] when the metadata has arrived and the
    pings it runs are decided; [batchPublishToRelays] and [compareRelays]
    when the operation on every endpoint has returned; [pingRelay] is
    fulfilled with the latency when the socket opens first and rejected
    when the constructor throws or the timeout comes first;
    [stressTestRelay] returns exactly when every attempt has ended.  Under
    the same proviso every operation does come to its end: whatever has
    happened so far, once enough time has passed the operation has returned
    its result ([pingRelay]: has settled); for [testRelayCompliance] and
    [compareRelays] this is said of the runs in which the metadata request
    has been answered, since [fetch] is given no timeout.

    [stressTestRelay] rejects with the RangeError of [Array.from] when
    [connectionCount] is 2^32 or more, and never rejects otherwise. *)
Theorem operations_return_once_decided :
  (forall url t0 tr e, healthCheckRelay url t0 tr <> Rejected e)
  /\ (forall url event t0 tr e, publishEventToRelay url event t0 tr <> Rejected e)
  /\ (forall url t0 tr e, testRelayCompliance url t0 tr <> Rejected e)
  /\ (forall urls event t0 tr e, batchPublishToRelays urls event t0 tr <> Rejected e)
  /\ (forall urls t0 tr e, compareRelays urls t0 tr <> Rejected e)
  /\ (forall url t0 tr,
        connect_race (t0 + 5000) t0 tr <> ErrorFirst ->
        healthCheckRelay url t0 tr = health_decided url t0 tr)
  /\ (forall url event t0 tr,
        connect_race (t0 + 5000) t0 tr <> ErrorFirst ->
        publishEventToRelay url event t0 tr = publish_decided url event t0 tr)
  /\ (forall url t0 tr,
        no_ping_stalls url t0 tr ->
        testRelayCompliance url t0 tr = compliance_decided url t0 tr)
  /\ (forall urls event t0 tr,
        (forall i, (i < List.length urls)%nat -> no_error_first t0 tr i) ->
        batchPublishToRelays urls event t0 tr
        = Promise_all
            (map_from (fun i url => publish_decided url event t0 (project i tr))
               0 urls))
  /\ (forall urls t0 tr,
        (forall i url, nth_error urls i = Some url ->
                       no_ping_stalls url t0 (project i tr)) ->
        compareRelays urls t0 tr
        = Promise_all
            (map_from (fun i url => compliance_decided url t0 (project i tr))
               0 urls))
  /\ (forall url t0 tr,
        connect_race (t0 + 5000) t0 tr <> ErrorFirst ->
        pingRelay url t0 tr = ping_decided url t0 tr)
  /\ (forall url n duration random t0 tr,
        2 ^ 32 <= ToLength n ->
        stressTestRelay url n duration random t0 tr = Rejected RangeError)
  /\ (forall url n duration random t0 tr,
        ToLength n < 2 ^ 32 ->
        (forall e, stressTestRelay url n duration random t0 tr <> Rejected e)
        /\ ((forall i, (i < launched n)%nat -> no_error_first t0 tr i) ->
            ((exists r, stressTestRelay url n duration random t0 tr = Fulfilled r)
             <-> attempts_over url (launched n) random t0 tr = true)))
  /\ (forall url t0 tr,
        connect_race (t0 + 5000) t0 tr <> ErrorFirst ->
        exists d, forall dt, d <= dt ->
          exists r, healthCheckRelay url t0 (tr ++ [Advance dt]) = Fulfilled r)
  /\ (forall url event t0 tr,
        connect_race (t0 + 5000) t0 tr <> ErrorFirst ->
        exists d, forall dt, d <= dt ->
          exists r, publishEventToRelay url event t0 (tr ++ [Advance dt]) = Fulfilled r)
  /\ (forall url t0 tr,
        metadata_arrives t0 tr <> None ->
        no_ping_stalls url t0 tr ->
        exists d, forall d1 d2 d3, d <= d1 -> d <= d2 -> d <= d3 ->
          exists r,
            testRelayCompliance url t0 (tr ++ [Advance d1; Advance d2; Advance d3])
            = Fulfilled r)
  /\ (forall urls event t0 tr,
        (forall i, (i < List.length urls)%nat -> no_error_first t0 tr i) ->
        exists d, forall dt, d <= dt ->
          exists results,
            batchPublishToRelays urls event t0 (tr ++ [Tick dt]) = Fulfilled results)
  /\ (forall urls t0 tr,
        (forall i url, nth_error urls i = Some url ->
                       metadata_arrives t0 (project i tr) <> None
                       /\ no_ping_stalls url t0 (project i tr)) ->
        exists d, forall d1 d2 d3, d <= d1 -> d <= d2 -> d <= d3 ->
          exists results,
            compareRelays urls t0 (tr ++ [Tick d1; Tick d2; Tick d3])
            = Fulfilled results)
  /\ (forall url t0 tr,
        connect_race (t0 + 5000) t0 tr <> ErrorFirst ->
        exists d, forall dt, d <= dt ->
          pingRelay url t0 (tr ++ [Advance dt]) <> Pending)
  /\ (forall url n duration random t0 tr,
        ToLength n < 2 ^ 32 ->
        (forall i, (i < launched n)%nat -> no_error_first t0 tr i) ->
        exists d, forall dt, d <= dt ->
          exists r,
            stressTestRelay url n duration random t0 (tr ++ [Tick dt]) = Fulfilled r)
  /\ (forall url t0 tr e,
        promise (connect_run url 5000 t0 tr) = Rejected e ->
        healthCheckRelay url t0 tr = Fulfilled (unhealthy url t0 (error_message e)))
  /\ (forall url event t0 tr e,
        promise (connect_run url 5000 t0 tr) = Rejected e ->
        exists t,
          publishEventToRelay url event t0 tr
          = Fulfilled (result_of url event t0 (ConnectFailed (error_message e) t)))
  /\ (forall url t0 tr e,
        promise (connect_run url 5000 t0 tr) = Rejected e ->
        pingRelay url t0 tr = Rejected (Err ("Ping failed: " ++ error_message e)%string)).
Proof.
  repeat match goal with |- _ /\ _ => split end.
  - intros url t0 tr e. unfold healthCheckRelay, health_outcome.
    destruct (h_phase _); discriminate.
  - intros url event t0 tr e. apply publish_never_rejected.
  - intros url t0 tr e. apply compliance_never_rejected.
  - intros urls event t0 tr e. rewrite batch_as_promise_all.
    apply Promise_all_not_rejected. intros j a e'. apply publish_never_rejected.
  - intros urls t0 tr e. rewrite compare_as_promise_all.
    apply Promise_all_not_rejected. intros j a e'. apply compliance_never_rejected.
  - intros url t0 tr H. exact (proj1 (healthCheck_decided url t0 tr H)).
  - intros url event t0 tr H. now apply publish_refinement.
  - intros url t0 tr H. now apply compliance_refines.
  - intros urls event t0 tr H. now apply batch_refines.
  - intros urls t0 tr H. now apply compare_refines.
  - intros url t0 tr H. now apply pingRelay_refinement.
  - intros url n duration random t0 tr H. unfold stressTestRelay.
    now replace (2 ^ 32 <=? ToLength n) with true by (symmetry; apply Z.leb_le; lia).
  - intros url n duration random t0 tr H. split.
    + intros e. unfold stressTestRelay.
      replace (2 ^ 32 <=? ToLength n) with false by (symmetry; apply Z.leb_gt; lia).
      destruct (forallb is_done _); discriminate.
    + now apply stress_refines.
  - intros url t0 tr H. now apply health_returns_in_time.
  - intros url event t0 tr H. now apply publish_returns_in_time.
  - intros url t0 tr Hmeta H. now apply compliance_returns_in_time.
  - intros urls event t0 tr H. now apply batch_returns_in_time.
  - intros urls t0 tr H. now apply compare_returns_in_time.
  - intros url t0 tr H. now apply ping_settles_in_time.
  - intros url n duration random t0 tr Hlen H. now apply stress_returns_in_time.
  - intros url t0 tr e H. now apply health_catches_rejection.
  - intros url event t0 tr e H. now apply publish_catches_rejection.
  - intros url t0 tr e H. now apply ping_rethrows_rejection.
Qed.


(** The compliance test after the metadata: the pings it runs and what it
    returns when they are decided. *)
Lemma compliance_runs_its_trials
  (url : string) (t0 : Z) (tr : list task)
  (reply : fetch_reply) (now : Z) (rest : list task) :
  metadata_arrives t0 tr = Some (reply, now, rest) ->
  compliance_trials url reply now rest <> TrialsStalled ->
  if answers_includes (RelayInfo.supported_nips (getRelayInfo url reply)) then
    match ping_trials url 3 0 now rest [] with
    | TrialsDone latencies =>
        testRelayCompliance url t0 tr
        = Fulfilled (measured url (capabilities_of (getRelayInfo url reply)) latencies)
        /\ c_trials (compliance_run url t0 tr) = 3%nat
        /\ RelayTestResult.tested
             (measured url (capabilities_of (getRelayInfo url reply)) latencies) = 3
        /\ (List.length latencies <= 3)%nat
        /\ (exists q,
               RelayTestResult.successRate
                 (measured url (capabilities_of (getRelayInfo url reply)) latencies)
               = Num q
               /\ (q == Z.of_nat (List.length latencies) # 3)%Q
               /\ (0 <= q)%Q /\ (q <= 1)%Q)
        /\ (latencies = [] ->
            RelayTestResult.averageLatency
              (measured url (capabilities_of (getRelayInfo url reply)) latencies)
            = Num 0)
        /\ (latencies <> [] ->
            exists q,
              RelayTestResult.averageLatency
                (measured url (capabilities_of (getRelayInfo url reply)) latencies)
              = Num q
              /\ (q == mean latencies)%Q)
    | _ => testRelayCompliance url t0 tr = Pending
    end
  else
    testRelayCompliance url t0 tr = Fulfilled (untested url)
    /\ c_trials (compliance_run url t0 tr) = 0%nat.
Proof.
  intros Hmeta Hno.
  assert (Href : testRelayCompliance url t0 tr = compliance_decided url t0 tr).
  { apply compliance_refines. unfold no_ping_stalls. now rewrite Hmeta. }
  unfold compliance_decided in Href. rewrite Hmeta in Href. cbv zeta in Href.
  pose proof (compliance_run_after_metadata url t0 tr) as Hrun.
  unfold after_metadata in Hrun.
  rewrite (metadata_first_reply tr t0 reply now rest Hmeta) in Hrun.
  destruct (answers_includes (RelayInfo.supported_nips (getRelayInfo url reply))).
  - destruct (ping_trials url 3 0 now rest []) as [| |latencies] eqn:Htrials;
      try exact Href.
    pose proof (ping_trials_length _ _ _ _ _ _ _ Htrials) as Hlen. simpl in Hlen.
    assert (Hph : c_phase (compliance_run url t0 tr) = ComplianceReturned).
    { unfold testRelayCompliance, compliance_outcome in Href.
      now destruct (c_phase (compliance_run url t0 tr)). }
    destruct Hrun as [_ Hm]. rewrite Hph in Hm. destruct Hm as (Ht & _).
    repeat match goal with |- _ /\ _ => split end; auto.
    + simpl. apply ratio_of_three. lia.
    + intros ->. reflexivity.
    + intros Hne. simpl. now apply average_is_mean.
  - split; [exact Href|]. apply Hrun.
Qed.

(** The same after a metadata request that failed. *)
Lemma compliance_after_failed_metadata
  (url : string) (t0 : Z) (tr : list task)
  (reply : fetch_reply) (now : Z) (rest : list task) (latencies : list Z) :
  metadata_arrives t0 tr = Some (reply, now, rest) ->
  RelayInfo.status (getRelayInfo url reply) = error ->
  ping_trials url 3 0 now rest [] = TrialsDone latencies ->
  testRelayCompliance url t0 tr
  = Fulfilled (measured url (false, false, false) latencies)
  /\ c_trials (compliance_run url t0 tr) = 3%nat.
Proof.
  intros Hmeta Herr Htrials.
  assert (Hnips : RelayInfo.supported_nips (getRelayInfo url reply) = JUndefined)
    by now apply info_error_keeps_nothing.
  assert (Href : testRelayCompliance url t0 tr = compliance_decided url t0 tr).
  { apply compliance_refines. unfold no_ping_stalls, compliance_trials.
    rewrite Hmeta, Hnips. change (answers_includes JUndefined) with true.
    cbv iota. rewrite Htrials. discriminate. }
  unfold compliance_decided, capabilities_of in Href.
  rewrite Hmeta in Href. cbv zeta in Href. rewrite Hnips in Href.
  change (answers_includes JUndefined) with true in Href.
  change (truthy JUndefined) with false in Href.
  cbv iota in Href. rewrite Htrials in Href.
  split; [exact Href|].
  pose proof (compliance_run_after_metadata url t0 tr) as Hrun.
  unfold after_metadata in Hrun.
  rewrite (metadata_first_reply tr t0 reply now rest Hmeta), Hnips in Hrun.
  change (answers_includes JUndefined) with true in Hrun. cbv iota in Hrun.
  assert (Hph : c_phase (compliance_run url t0 tr) = ComplianceReturned).
  { unfold testRelayCompliance, compliance_outcome in Href.
    now destruct (c_phase (compliance_run url t0 tr)). }
  destruct Hrun as [_ Hm]. rewrite Hph in Hm. apply Hm.
Qed.

(** C6 (amended): once the metadata reply has arrived, and provided no ping's
    socket reports an error before it opens or times out: when the
    [supported_nips] of the metadata is falsy, an array or a string,
    [testRelayCompliance] runs exactly 3 pings, one after the other, and
    returns as soon as the third is decided; the result has [tested] equal
    to 3, [successRate] equal to the number of pings whose socket opened
    divided by 3, between 0 and 1, and [averageLatency] equal to the mean of
    their latencies, or 0 without any.  Until then it has not returned; once
    enough time has passed it has.  When [supported_nips] is any other
    value, asking it what it includes throws: no ping is run and the initial
    result is returned at once, with [tested] equal to 0. *)
Theorem compliance_three_trials_when_metadata_answers
  (url : string) (t0 : Z) (tr : list task)
  (reply : fetch_reply) (now : Z) (rest : list task) :
  metadata_arrives t0 tr = Some (reply, now, rest) ->
  compliance_trials url reply now rest <> TrialsStalled ->
  (if answers_includes (RelayInfo.supported_nips (getRelayInfo url reply)) then
      match ping_trials url 3 0 now rest [] with
      | TrialsDone latencies =>
          testRelayCompliance url t0 tr
          = Fulfilled (measured url (capabilities_of (getRelayInfo url reply)) latencies)
          /\ c_trials (compliance_run url t0 tr) = 3%nat
          /\ RelayTestResult.tested
               (measured url (capabilities_of (getRelayInfo url reply)) latencies) = 3
          /\ (List.length latencies <= 3)%nat
          /\ (exists q,
                 RelayTestResult.successRate
                   (measured url (capabilities_of (getRelayInfo url reply)) latencies)
                 = Num q
                 /\ (q == Z.of_nat (List.length latencies) # 3)%Q
                 /\ (0 <= q)%Q /\ (q <= 1)%Q)
          /\ (latencies = [] ->
              RelayTestResult.averageLatency
                (measured url (capabilities_of (getRelayInfo url reply)) latencies)
              = Num 0)
          /\ (latencies <> [] ->
              exists q,
                RelayTestResult.averageLatency
                  (measured url (capabilities_of (getRelayInfo url reply)) latencies)
                = Num q
                /\ (q == mean latencies)%Q)
      | _ => testRelayCompliance url t0 tr = Pending
      end
    else
      testRelayCompliance url t0 tr = Fulfilled (untested url)
      /\ c_trials (compliance_run url t0 tr) = 0%nat)
  /\ (answers_includes (RelayInfo.supported_nips (getRelayInfo url reply)) = true ->
      exists d, forall d1 d2 d3, d <= d1 -> d <= d2 -> d <= d3 ->
        exists latencies,
          testRelayCompliance url t0 (tr ++ [Advance d1; Advance d2; Advance d3])
          = Fulfilled
              (measured url (capabilities_of (getRelayInfo url reply)) latencies)
          /\ c_trials
               (compliance_run url t0 (tr ++ [Advance d1; Advance d2; Advance d3]))
             = 3%nat
          /\ (List.length latencies <= 3)%nat).
Proof.
  intros Hmeta Hno. split.
  - now apply (compliance_runs_its_trials url t0 tr reply now rest).
  - intros Hnips. unfold compliance_trials in Hno. rewrite Hnips in Hno.
    destruct (ping_trials_in_time url 3 0 now rest [] Hno) as [d Hd].
    exists d. intros d1 d2 d3 H1 H2 H3.
    destruct (Hd [d1; d2; d3]) as [done Hdone];
      [simpl; lia|repeat constructor; lia|].
    change (map Advance [d1; d2; d3]) with [Advance d1; Advance d2; Advance d3]
      in Hdone.
    exists done.
    pose proof (compliance_runs_its_trials url t0
                  (tr ++ [Advance d1; Advance d2; Advance d3]) reply now
                  (rest ++ [Advance d1; Advance d2; Advance d3])
                  (metadata_arrives_app tr _ _ _ _ _ Hmeta)) as H.
    unfold compliance_trials in H. rewrite Hnips, Hdone in H.
    destruct H as (Hr & Ht & _ & Hlen & _); [discriminate|].
    repeat split; assumption.
Qed.

(** X14: a failed metadata fetch (the request fails, the status is not 2xx,
    or the body is not JSON) does not stop [testRelayCompliance]: provided
    no ping's socket reports an error before it opens or times out, the
    three pings are run, and as soon as the third is decided the function
    returns with [tested] equal to 3, the measured latencies and the three
    flags [false]; once enough time has passed it has done so. *)
Theorem compliance_survives_metadata_failure
  (url : string) (t0 : Z) (tr : list task)
  (reply : fetch_reply) (now : Z) (rest : list task) :
  metadata_arrives t0 tr = Some (reply, now, rest) ->
  RelayInfo.status (getRelayInfo url reply) = error ->
  (forall latencies,
      ping_trials url 3 0 now rest [] = TrialsDone latencies ->
      testRelayCompliance url t0 tr
      = Fulfilled (measured url (false, false, false) latencies)
      /\ c_trials (compliance_run url t0 tr) = 3%nat)
  /\ (ping_trials url 3 0 now rest [] <> TrialsStalled ->
      exists d, forall d1 d2 d3, d <= d1 -> d <= d2 -> d <= d3 ->
        exists latencies,
          testRelayCompliance url t0 (tr ++ [Advance d1; Advance d2; Advance d3])
          = Fulfilled (measured url (false, false, false) latencies)
          /\ c_trials
               (compliance_run url t0 (tr ++ [Advance d1; Advance d2; Advance d3]))
             = 3%nat).
Proof.
  intros Hmeta Herr. split.
  - intros latencies Htrials.
    now apply (compliance_after_failed_metadata url t0 tr reply now rest).
  - intros Hno.
    destruct (ping_trials_in_time url 3 0 now rest [] Hno) as [d Hd].
    exists d. intros d1 d2 d3 H1 H2 H3.
    destruct (Hd [d1; d2; d3]) as [done Hdone];
      [simpl; lia|repeat constructor; lia|].
    change (map Advance [d1; d2; d3]) with [Advance d1; Advance d2; Advance d3]
      in Hdone.
    exists done.
    apply (compliance_after_failed_metadata url t0
             (tr ++ [Advance d1; Advance d2; Advance d3]) reply now
             (rest ++ [Advance d1; Advance d2; Advance d3]));
      [now apply metadata_arrives_app|exact Herr|exact Hdone].
Qed.


(** X18: how [monitorRelay] reports a connection that is not established,
    that is, whose socket never opens.  When the constructor throws, or when
    the 5-second timeout comes first, the observers are told exactly once:
    one status change to [error] followed by one [error] log entry carrying
    the message of the rejection; nothing the session itself logged is
    forwarded and nothing is added later, whatever the socket or the caller
    do.  When the socket reports an error before the timeout, as it does for
    a refused connection, the promise of [connectToRelay] is never settled
    and neither observer is ever called. *)
Theorem monitor_reports_failure_once
  (url : string) (t0 : Z) (tr : list monitor_task) :
  never_opens (environment tr) ->
  reports (m_calls (monitorRelay url t0 tr))
  = failure_report url t0 (environment tr).
Proof.
  intros Hno. unfold monitorRelay, monitorRelay_start, failure_report, connectToRelay.
  destruct (new_WebSocket url) as [e|] eqn:Hnew.
  - unfold monitor_after_connect; simpl.
    now rewrite monitor_failed_run.
  - unfold monitor_after_connect; simpl.
    rewrite (monitor_connecting_run tr _ (t0 + 5000)); simpl; auto.
    repeat split. eexists; split; [reflexivity|]. simpl. discriminate.
Qed.

End Engine.

(** * The properties on concrete runs *)

(** C1: when the relay accepts the connection and never acknowledges the
    event, [publishEventToRelay] returns "Publish timeout" while its socket
    is still OPEN and [close] was never called: the timeout path skips
    [connection.websocket.close()]. *)
Theorem publish_timeout_leaves_socket_open :
  publishEventToRelay accepting sample_url sample_event 0 silent_relay
  = Fulfilled
      (RelayPublishResult.mk sample_url (JBool false) "abc"
         (Some (JStr "Publish timeout")) 0 10040)
  /\ option_map WebSocket.readyState
       (RelayConnection.websocket
          (connection (pb_conn (publish_run accepting sample_url sample_event 0
                                  silent_relay))))
     = Some OPEN
  /\ option_map WebSocket.closeCalls
       (RelayConnection.websocket
          (connection (pb_conn (publish_run accepting sample_url sample_event 0
                                  silent_relay))))
     = Some 0%nat.
Proof. repeat split. Qed.

(** The other ways out of [publishEventToRelay] do release the session. *)
Example publish_ack_closes_socket :
  option_map WebSocket.readyState
    (RelayConnection.websocket
       (connection (pb_conn (publish_run accepting sample_url sample_event 0
                               storing_relay))))
  = Some CLOSING.
Proof. reflexivity. Qed.

Example publish_connect_timeout_closes_socket :
  option_map WebSocket.readyState
    (RelayConnection.websocket
       (connection (pb_conn (publish_run accepting sample_url sample_event 0
                               unreachable))))
  = Some CLOSING.
Proof. reflexivity. Qed.



(** C3, counterexample: against a relay that does not answer, [pingRelay]
    rejects. *)
Lemma pingRelay_rejects_on_timeout :
  pingRelay accepting sample_url 0 unreachable
  = Rejected (Err "Ping failed: Connection timeout").
Proof. reflexivity. Qed.

Lemma healthCheck_error_iff_unhealthy_witness :
  healthCheckRelay accepting sample_url 0 unreachable
  = Fulfilled (unhealthy sample_url 0 "Connection timeout")
  /\ (RelayHealthCheck.errorMessage (unhealthy sample_url 0 "Connection timeout")
      <> None
      <-> RelayHealthCheck.isHealthy (unhealthy sample_url 0 "Connection timeout")
          = false).
Proof.
  split; [reflexivity|].
  apply (healthCheck_error_iff_unhealthy accepting sample_url 0 unreachable).
  reflexivity.
Defined.

(** C6, counterexample: the relay's metadata gives [supported_nips] as the
    number 7; no ping is run and the result has [tested = 0]. *)
Lemma compliance_untested_on_numeric_nips :
  testRelayCompliance accepting sample_url 0 [nips_reply (JNum 7)]
  = Fulfilled (untested sample_url)
  /\ RelayTestResult.tested (untested sample_url) <> 3
  /\ c_trials (compliance_run accepting sample_url 0 [nips_reply (JNum 7)]) = 0%nat.
Proof. repeat split. discriminate. Qed.

(** C8: the caller cancels right after the socket opened.  The handle
    returns, and the poll that runs 100 ms later still hands the pending log
    entry to [onLog]; the interval stays armed.  Invoked before the socket
    has opened, the handle does nothing: the socket opens, is polled, and
    [close] is never called. *)
Theorem monitor_cancel_keeps_polling :
  m_calls (monitorRelay accepting sample_url 0 cancel_after_open)
  = [CalledOnStatusChange connected;
     CancelReturned;
     CalledOnLog (RelayLog.mk 40 log_info "Connected to relay" NoData)]
  /\ m_checkLogs (monitorRelay accepting sample_url 0 cancel_after_open) = Some 240
  /\ m_calls (monitorRelay accepting sample_url 0 cancel_before_open)
     = [CancelReturned;
        CalledOnStatusChange connected;
        CalledOnLog (RelayLog.mk 40 log_info "Connected to relay" NoData)]
  /\ option_map WebSocket.closeCalls
       (RelayConnection.websocket
          (connection (m_conn (monitorRelay accepting sample_url 0 cancel_before_open))))
     = Some 0%nat.
Proof. repeat split. Qed.

(** What the handle does get right: it closes the socket of an established
    session, and a second call changes nothing but the call count. *)
Example monitor_cancel_closes_socket :
  option_map WebSocket.readyState
    (RelayConnection.websocket
       (connection (m_conn (monitorRelay accepting sample_url 0 cancel_after_open))))
  = Some CLOSING
  /\ option_map WebSocket.readyState
       (RelayConnection.websocket
          (connection (m_conn (monitorRelay accepting sample_url 0
                                 (cancel_after_open ++ [Cancel])))))
     = Some CLOSING.
Proof. split; reflexivity. Qed.

Lemma connectToRelay_hands_over_connected_witness :
  promise (connect_run accepting sample_url 5000 0 [Advance 40]) = Pending
  /\ promise (connect_run accepting sample_url 5000 0 ([Advance 40] ++ [Io (Ws 0 Open)]))
     = Fulfilled tt
  /\ handed_over
       (connect_run accepting sample_url 5000 0 ([Advance 40] ++ [Io (Ws 0 Open)])).
Proof.
  split; [reflexivity|]. split; [reflexivity|].
  apply (connectToRelay_hands_over_connected accepting sample_url 5000 0
           [Advance 40] (Io (Ws 0 Open))); reflexivity.
Defined.

Lemma averageLatency_zero_without_samples_witness :
  stressTestRelay refusing sample_url (Finite 2) 1000 holds 0 []
  = Fulfilled (StressTestResult.mk sample_url (Finite 2) 0 2 (Num 0) 0)
  /\ s_latencies (stress_run refusing sample_url (Finite 2) holds 0 []) = []
  /\ StressTestResult.averageLatency
       (StressTestResult.mk sample_url (Finite 2) 0 2 (Num 0) 0)
     = Num 0.
Proof.
  split; [reflexivity|]. split; [reflexivity|].
  exact (proj1 (proj2 (proj2 (averageLatency_zero_without_samples refusing)
                         sample_url (Finite 2) 1000 holds 0 []
                         (StressTestResult.mk sample_url (Finite 2) 0 2 (Num 0) 0)
                         eq_refl))
           eq_refl).
Defined.

(** The stall on a concrete run: [onerror] clears the connection timeout
    without rejecting, so after a socket error that comes before [open] the
    promise of [connectToRelay] is never settled and the operations built on
    it do not return. *)
Example operations_stall_after_socket_error :
  healthCheckRelay accepting sample_url 0 refused_connection = Pending
  /\ pingRelay accepting sample_url 0 refused_connection = Pending
  /\ publishEventToRelay accepting sample_url sample_event 0 refused_connection
     = Pending.
Proof. repeat split. Qed.

(** ** Connections *)

Lemma connection_counters_count_events_witness :
  RelayConnection.messageCount
    (connection (connect_run accepting sample_url 5000 0 busy_relay)) = 2
  /\ RelayConnection.errorCount
       (connection (connect_run accepting sample_url 5000 0 busy_relay)) = 1.
Proof.
  exact (connection_counters_count_events accepting sample_url 5000 0 busy_relay
           eq_refl).
Defined.

Lemma connection_log_has_one_entry_per_event_witness :
  Z.of_nat (List.length
              (RelayConnection.logs
                 (connection (connect_run accepting sample_url 5000 0 busy_relay))))
  = 5 + 0.
Proof.
  exact (connection_log_has_one_entry_per_event accepting sample_url 5000 0
           busy_relay eq_refl).
Defined.

Lemma connectToRelay_first_writer_wins_witness :
  connect_race (0 + 5000) 0 unreachable <> ErrorFirst
  /\ promise (connect_run accepting sample_url 5000 0 unreachable)
     = Rejected (Err "Connection timeout").
Proof.
  assert (H : connect_race (0 + 5000) 0 unreachable <> ErrorFirst)
    by (vm_compute; discriminate).
  split; [exact H|].
  exact (connectToRelay_first_writer_wins accepting sample_url 5000 0 unreachable
           ltac:(lia) H).
Defined.

Lemma connectToRelay_stalls_after_error_witness :
  connect_race (0 + 5000) 0 refused_connection = ErrorFirst
  /\ never_opens refused_connection
  /\ promise (connect_run accepting sample_url 5000 0 refused_connection) = Pending.
Proof.
  split; [reflexivity|]. split; [reflexivity|].
  exact (connectToRelay_stalls_after_error accepting sample_url 5000 0
           refused_connection ltac:(lia) eq_refl eq_refl eq_refl).
Defined.

Lemma operations_never_settle_after_error_witness :
  connect_race (0 + 5000) 0 refused_connection = ErrorFirst
  /\ never_opens refused_connection
  /\ healthCheckRelay accepting sample_url 0 refused_connection = Pending
  /\ pingRelay accepting sample_url 0 refused_connection = Pending
  /\ publishEventToRelay accepting sample_url sample_event 0 refused_connection
     = Pending.
Proof.
  split; [reflexivity|]. split; [reflexivity|].
  exact (operations_never_settle_after_error accepting sample_url sample_event 0
           refused_connection eq_refl eq_refl eq_refl).
Defined.

Lemma constructor_failure_settles_at_once_witness :
  healthCheckRelay refusing sample_url 0 quick_open
  = Fulfilled (unhealthy sample_url 0 "SyntaxError")
  /\ pingRelay refusing sample_url 0 quick_open
     = Rejected (Err "Ping failed: SyntaxError")
  /\ publishEventToRelay refusing sample_url sample_event 0 quick_open
     = Fulfilled
         (RelayPublishResult.mk sample_url (JBool false) "abc"
            (Some (JStr "SyntaxError")) 0 0)
  /\ stressTestRelay refusing sample_url (Finite 3) 1000 holds 0 mixed_attempts
     = Fulfilled (StressTestResult.mk sample_url (Finite 3) 0 3 (Num 0) 0).
Proof.
  exact (constructor_failure_settles_at_once refusing sample_url
           (Err "SyntaxError") sample_event (Finite 3) 1000 holds 0 quick_open
           mixed_attempts eq_refl).
Defined.

Lemma healthCheck_capabilities_follow_health_witness :
  healthCheckRelay accepting sample_url 0 quick_open
  = Fulfilled (healthy sample_url 0 50)
  /\ capabilities_follow_health (healthy sample_url 0 50).
Proof.
  split; [reflexivity|].
  exact (healthCheck_capabilities_follow_health accepting sample_url 0 quick_open
           (healthy sample_url 0 50) eq_refl).
Defined.

(** ** Publishing *)

Lemma publish_ignores_chatter_witness :
  connect_race (0 + 5000) 0 noisy_relay <> ErrorFirst
  /\ publishEventToRelay accepting sample_url sample_event 0 storing_relay
     = publishEventToRelay accepting sample_url sample_event 0 noisy_relay.
Proof.
  assert (H : connect_race (0 + 5000) 0 noisy_relay <> ErrorFirst)
    by (vm_compute; discriminate).
  split; [exact H|].
  exact (publish_ignores_chatter accepting sample_url sample_event 0 noisy_relay H).
Defined.

Lemma batch_results_are_labelled_witness :
  batchPublishToRelays accepting ["wss://one"; "wss://two"] sample_event 0
    second_relay_first
  = Fulfilled
      [RelayPublishResult.mk "wss://one" (JBool false) "abc"
         (Some (JStr "Publish timeout")) 0 10060;
       RelayPublishResult.mk "wss://two" (JBool true) "abc"
         (Some (JStr "stored")) 0 40]
  /\ map RelayPublishResult.relay
       [RelayPublishResult.mk "wss://one" (JBool false) "abc"
          (Some (JStr "Publish timeout")) 0 10060;
        RelayPublishResult.mk "wss://two" (JBool true) "abc"
          (Some (JStr "stored")) 0 40]
     = ["wss://one"; "wss://two"].
Proof.
  split; [reflexivity|].
  exact (proj1 (batch_results_are_labelled accepting ["wss://one"; "wss://two"]
                  sample_event 0 second_relay_first _ eq_refl)).
Defined.

(** ** Metadata and compliance *)

Lemma getRelayInfo_error_iff_message_witness :
  RelayInfo.status
    (getRelayInfo sample_url (FetchResponse 503 (Json (JObj [])))) = error
  /\ RelayInfo.supported_nips
       (getRelayInfo sample_url (FetchResponse 503 (Json (JObj [])))) = JUndefined.
Proof.
  split; [reflexivity|].
  exact (proj1 (proj2 (proj2 (proj2
           (getRelayInfo_error_iff_message sample_url
              (FetchResponse 503 (Json (JObj []))))))
           eq_refl)).
Defined.

Lemma httpUrl_translates_scheme_witness :
  httpUrl "wss://relay.example" = "https://relay.example"
  /\ httpUrl "ws://relay.example" = "http://relay.example".
Proof.
  split.
  - apply (proj1 (proj2 (proj2 (httpUrl_translates_scheme "relay.example")))).
    intros H. apply occurs_found in H. vm_compute in H. discriminate H.
  - apply (proj2 (proj2 (proj2 (httpUrl_translates_scheme "relay.example")))).
    intros H. apply occurs_found in H. vm_compute in H. discriminate H.
Defined.

Lemma compliance_flags_come_from_metadata_witness :
  testRelayCompliance accepting sample_url 0 three_pings
  = Fulfilled
      (RelayTestResult.mk sample_url true true false (Num (50 # 2)) (Num (2 # 3)) 3)
  /\ (true, true, false)
     = capabilities_of
         (getRelayInfo sample_url
            (FetchResponse 200
               (Json (JObj [("supported_nips", JArr [JNum 1; JNum 11; JNum 42]);
                            ("software", JStr "strfry")])))).
Proof.
  split; [reflexivity|].
  destruct (proj2 (compliance_flags_come_from_metadata accepting sample_url 0
                     three_pings
                     (RelayTestResult.mk sample_url true true false (Num (50 # 2))
                        (Num (2 # 3)) 3)
                     eq_refl))
    as [reply [Hreply Hflags]].
  injection Hreply as <-.
  exact Hflags.
Defined.

Lemma compare_results_are_labelled_witness :
  compareRelays accepting ["wss://one"; "wss://two"] 0 two_relays_compared
  = Fulfilled
      [untested "wss://one";
       RelayTestResult.mk "wss://two" false false false (Num (20 # 3))
         (Num (3 # 3)) 3]
  /\ map RelayTestResult.url
       [untested "wss://one";
        RelayTestResult.mk "wss://two" false false false (Num (20 # 3))
          (Num (3 # 3)) 3]
     = ["wss://one"; "wss://two"].
Proof.
  assert (H : compareRelays accepting ["wss://one"; "wss://two"] 0
                two_relays_compared
              = Fulfilled
                  [untested "wss://one";
                   RelayTestResult.mk "wss://two" false false false (Num (20 # 3))
                     (Num (3 # 3)) 3])
    by (vm_compute; reflexivity).
  split; [exact H|].
  exact (proj1 (compare_results_are_labelled accepting ["wss://one"; "wss://two"]
                  0 two_relays_compared _ H)).
Defined.

(** ** Monitoring *)

Lemma monitor_forwards_each_entry_once_witness :
  m_phase (monitorRelay accepting sample_url 0 session_opens) = MonitorWatching
  /\ exists news,
       logs_seen (monitorRelay accepting sample_url 0
                    (session_opens ++ session_traffic))
       = [RelayLog.mk 40 log_info "Connected to relay" NoData] ++ news
       /\ List.length news = 2%nat.
Proof.
  split; [reflexivity|].
  exact (monitor_forwards_each_entry_once accepting sample_url 0 session_opens
           session_traffic eq_refl).
Defined.

Lemma monitor_silent_after_close_witness :
  m_phase (monitorRelay accepting sample_url 0 session_opens) = MonitorWatching
  /\ forwarded
       (m_calls (monitorRelay accepting sample_url 0
                   (session_opens ++ Env (Io (Ws 0 Close)) :: session_after_close)))
     = [].
Proof.
  split; [reflexivity|].
  exact (monitor_silent_after_close accepting sample_url 0 session_opens
           session_after_close eq_refl).
Defined.

(** ** Results and exceptions *)

Lemma operations_return_once_decided_witness :
  healthCheckRelay accepting sample_url 0 unreachable
  = Fulfilled (unhealthy sample_url 0 "Connection timeout")
  /\ publishEventToRelay accepting sample_url sample_event 0 unreachable
     = Fulfilled
         (RelayPublishResult.mk sample_url (JBool false) "abc"
            (Some (JStr "Connection timeout")) 0 5000)
  /\ pingRelay accepting sample_url 0 quick_open = Fulfilled 50
  /\ testRelayCompliance accepting sample_url 0 three_pings
     = Fulfilled
         (RelayTestResult.mk sample_url true true false (Num (50 # 2)) (Num (2 # 3)) 3)
  /\ stressTestRelay accepting sample_url (Finite 4294967296) 1000 holds 0 []
     = Rejected RangeError
  /\ exists d, forall dt, d <= dt ->
       exists r, healthCheckRelay accepting sample_url 0 (quick_open ++ [Advance dt])
                 = Fulfilled r.
Proof.
  destruct (operations_return_once_decided accepting)
    as (_ & _ & _ & _ & _ & Hhealth & Hpublish & Hcompliance & _ & _ & Hping
        & Hrange & _ & Hlive & _).
  assert (H1 : connect_race (0 + 5000) 0 unreachable <> ErrorFirst)
    by (vm_compute; discriminate).
  assert (H2 : connect_race (0 + 5000) 0 quick_open <> ErrorFirst)
    by (vm_compute; discriminate).
  assert (H3 : no_ping_stalls accepting sample_url 0 three_pings)
    by (vm_compute; discriminate).
  assert (H4 : 2 ^ 32 <= ToLength (Finite 4294967296))
    by (vm_compute; discriminate).
  split; [exact (Hhealth sample_url 0 unreachable H1)|].
  split; [exact (Hpublish sample_url sample_event 0 unreachable H1)|].
  split; [exact (Hping sample_url 0 quick_open H2)|].
  split; [exact (Hcompliance sample_url 0 three_pings H3)|].
  split; [exact (Hrange sample_url (Finite 4294967296) 1000 holds 0 [] H4)|].
  exact (Hlive sample_url 0 quick_open H2).
Defined.



(** ** Compliance *)

Lemma compliance_three_trials_when_metadata_answers_witness :
  testRelayCompliance accepting sample_url 0 three_pings
  = Fulfilled
      (RelayTestResult.mk sample_url true true false (Num (50 # 2)) (Num (2 # 3)) 3)
  /\ c_trials (compliance_run accepting sample_url 0 three_pings) = 3%nat.
Proof.
  assert (Hno : compliance_trials accepting sample_url
                  (FetchResponse 200
                     (Json (JObj [("supported_nips", JArr [JNum 1; JNum 11; JNum 42]);
                                  ("software", JStr "strfry")])))
                  0 [Advance 20; Io (Ws 0 Open); Advance 5000; Advance 30;
                     Io (Ws 2 Open)]
                <> TrialsStalled)
    by (vm_compute; discriminate).
  destruct (compliance_three_trials_when_metadata_answers accepting sample_url 0
              three_pings _ 0 _ eq_refl Hno) as [H _].
  simpl in H. split; apply H.
Defined.

Lemma compliance_survives_metadata_failure_witness :
  testRelayCompliance accepting sample_url 0 metadata_down
  = Fulfilled
      (RelayTestResult.mk sample_url false false false (Num (50 # 2)) (Num (2 # 3)) 3)
  /\ c_trials (compliance_run accepting sample_url 0 metadata_down) = 3%nat.
Proof.
  exact (proj1
           (compliance_survives_metadata_failure accepting sample_url 0 metadata_down
              (FetchResponse 503 (Json (JObj []))) 0
              [Advance 20; Io (Ws 0 Open); Advance 30; Io (Ws 1 Open); Advance 5000]
              eq_refl eq_refl)
           [20; 30] eq_refl).
Defined.

(** ** Fan-out *)



(** ** A monitored session that is not established *)

Lemma monitor_reports_failure_once_witness :
  reports (m_calls (monitorRelay accepting sample_url 0 session_times_out))
  = [CalledOnStatusChange error;
     CalledOnLog (RelayLog.mk 5000 log_error "Connection timeout" NoData)]
  /\ reports (m_calls (monitorRelay accepting sample_url 0 session_refused)) = [].
Proof.
  split.
  - exact (monitor_reports_failure_once accepting sample_url 0 session_times_out
             eq_refl).
  - exact (monitor_reports_failure_once accepting sample_url 0 session_refused
             eq_refl).
Defined.
